(** * Labeler app: the annotation engine of [src/renderer/renderer.js] and the
    request/response bridge of [src/main/python-bridge.js].

    The development embeds the label store (point lists per label type), the
    pointer handlers that edit it, the review / done markers, the debounced
    auto-save and the correlation-id bridge, and states their properties. *)

From Stdlib Require Import ZArith QArith Qabs Qround Lqa Lia Bool.
From Stdlib Require Import Sorted Permutation Ascii String.
From stdpp Require Import gmap strings list pretty sorting.

Local Open Scope Z_scope.

(** ** JavaScript numbers

    Every number of the renderer is an IEEE double.  The embedding keeps the
    three special values apart, because the guards of the handlers
    ([isNaN], [<=] against a tolerance) behave differently on them, and takes
    the finite values as exact rationals: rounding and overflow of finite
    arithmetic are not modelled, and neither is the sign of zero (a zero
    divisor counts as [+0]). *)
Module JS.

Inductive num : Type :=
  | NaN
  | Infinity (negative : bool)
  | Finite (q : Q).

Definition Int (z : Z) : num := Finite (inject_Z z).

Definition Qneg (q : Q) : bool := (Qnum q <? 0)%Z.
Definition Qzero (q : Q) : bool := (Qnum q =? 0)%Z.

Definition opp (a : num) : num :=
  match a with
  | NaN => NaN
  | Infinity s => Infinity (negb s)
  | Finite q => Finite (Qopp q)
  end.

Definition add (a b : num) : num :=
  match a, b with
  | NaN, _ | _, NaN => NaN
  | Infinity s, Infinity t => if Bool.eqb s t then Infinity s else NaN
  | Infinity s, Finite _ => Infinity s
  | Finite _, Infinity t => Infinity t
  | Finite p, Finite q => Finite (Qplus p q)
  end.

(** [a - b] *)
Definition sub (a b : num) : num := add a (opp b).

Definition mul (a b : num) : num :=
  match a, b with
  | NaN, _ | _, NaN => NaN
  | Infinity s, Infinity t => Infinity (xorb s t)
  | Infinity s, Finite q => if Qzero q then NaN else Infinity (xorb s (Qneg q))
  | Finite p, Infinity t => if Qzero p then NaN else Infinity (xorb (Qneg p) t)
  | Finite p, Finite q => Finite (Qmult p q)
  end.

Definition div (a b : num) : num :=
  match a, b with
  | NaN, _ | _, NaN => NaN
  | Infinity _, Infinity _ => NaN
  | Infinity s, Finite q => Infinity (xorb s (Qneg q))
  | Finite _, Infinity _ => Finite 0
  | Finite p, Finite q =>
      if Qzero q then (if Qzero p then NaN else Infinity (Qneg p))
      else Finite (Qdiv p q)
  end.

(** [Math.abs] *)
Definition abs (a : num) : num :=
  match a with
  | NaN => NaN
  | Infinity _ => Infinity false
  | Finite q => Finite (Qabs q)
  end.

(** [a <= b]; false as soon as one side is [NaN]. *)
Definition le (a b : num) : bool :=
  match a, b with
  | NaN, _ | _, NaN => false
  | Infinity true, _ => true
  | Infinity false, Infinity false => true
  | Infinity false, _ => false
  | Finite _, Infinity t => negb t
  | Finite p, Finite q => Qle_bool p q
  end.

(** [a > b]; false as soon as one side is [NaN]. *)
Definition gt (a b : num) : bool :=
  match a, b with
  | NaN, _ | _, NaN => false
  | Infinity false, Infinity false => false
  | Infinity false, _ => true
  | Infinity true, _ => false
  | Finite _, Infinity t => t
  | Finite p, Finite q => negb (Qle_bool p q)
  end.

Definition isNaN (a : num) : bool :=
  match a with NaN => true | _ => false end.

(** [Math.round]: the nearest integer, halves going up. *)
Definition round (a : num) : num :=
  match a with
  | Finite q => Int (Qfloor (q + (1 # 2)))
  | other => other
  end.

End JS.

Abbreviation num := JS.num.
Abbreviation NaN := JS.NaN.
Abbreviation Infinity := JS.Infinity.
Abbreviation Finite := JS.Finite.
Abbreviation Int := JS.Int.

Declare Scope js_scope.
Delimit Scope js_scope with js.
Bind Scope js_scope with JS.num.
Infix "+" := JS.add : js_scope.
Infix "-" := JS.sub : js_scope.
Infix "*" := JS.mul : js_scope.
Infix "/" := JS.div : js_scope.
Infix "<=?" := JS.le : js_scope.
Infix ">?" := JS.gt : js_scope.

(** ** The label store

    [const TOLERANCE = 5], [const ERASER_TOLERANCE = 8] (samples). *)
Definition TOLERANCE : num := Int 5.
Definition ERASER_TOLERANCE : num := Int 8.

(** The four keys of [label_indexes]. *)
Inductive LabelType : Type :=
  | compression_systolic_points
  | compression_diastolic_points
  | spontaneous_systolic_points
  | spontaneous_diastolic_points.

Global Instance LabelType_eq_dec : EqDecision LabelType.
Proof. solve_decision. Defined.

(** The array literal that the handlers iterate over.  Every place of the
    source that creates a [label_indexes] object writes its keys in this
    order, so the [for ... in] loop of [handleDirectClick] visits them in it
    as well. *)
Definition labelTypes : list LabelType :=
  [ compression_systolic_points; compression_diastolic_points;
    spontaneous_systolic_points; spontaneous_diastolic_points ].

(** [label_indexes]: one array of sample indexes per label type. *)
Record LabelIndexes : Type := mkLabelIndexes {
  idx_compression_systolic : list num;
  idx_compression_diastolic : list num;
  idx_spontaneous_systolic : list num;
  idx_spontaneous_diastolic : list num
}.

(** [label_indexes[labelType]] *)
Definition points (li : LabelIndexes) (labelType : LabelType) : list num :=
  match labelType with
  | compression_systolic_points => idx_compression_systolic li
  | compression_diastolic_points => idx_compression_diastolic li
  | spontaneous_systolic_points => idx_spontaneous_systolic li
  | spontaneous_diastolic_points => idx_spontaneous_diastolic li
  end.

(** [label_indexes[labelType] = arr], also the effect of mutating the array
    that [label_indexes[labelType]] refers to. *)
Definition set_points (li : LabelIndexes) (labelType : LabelType)
    (arr : list num) : LabelIndexes :=
  match labelType with
  | compression_systolic_points =>
      mkLabelIndexes arr (idx_compression_diastolic li)
        (idx_spontaneous_systolic li) (idx_spontaneous_diastolic li)
  | compression_diastolic_points =>
      mkLabelIndexes (idx_compression_systolic li) arr
        (idx_spontaneous_systolic li) (idx_spontaneous_diastolic li)
  | spontaneous_systolic_points =>
      mkLabelIndexes (idx_compression_systolic li)
        (idx_compression_diastolic li) arr (idx_spontaneous_diastolic li)
  | spontaneous_diastolic_points =>
      mkLabelIndexes (idx_compression_systolic li)
        (idx_compression_diastolic li) (idx_spontaneous_systolic li) arr
  end.

Definition empty_indexes : LabelIndexes := mkLabelIndexes [] [] [] [].

(** A highlighted region [{start, end}]. *)
Record Region : Type := mkRegion { region_start : num; region_end : num }.

(** The record kept per segment.  [review] absent and [review: false] read
    the same in every test the source makes ([=== true], [!review]), and so
    do an absent note and the empty note; [highlighted_regions] may be
    absent, which [clearRegions] and the region click tell apart. *)
Record SegmentLabels : Type := mkSegmentLabels {
  labeled : bool;
  review : bool;
  label_indexes : LabelIndexes;
  review_note : string;
  region_note : string;
  highlighted_regions : option (list Region)
}.

Definition set_labeled (b : bool) (seg : SegmentLabels) : SegmentLabels :=
  mkSegmentLabels b (review seg) (label_indexes seg) (review_note seg)
    (region_note seg) (highlighted_regions seg).

Definition set_review (b : bool) (seg : SegmentLabels) : SegmentLabels :=
  mkSegmentLabels (labeled seg) b (label_indexes seg) (review_note seg)
    (region_note seg) (highlighted_regions seg).

Definition set_label_indexes (li : LabelIndexes) (seg : SegmentLabels)
    : SegmentLabels :=
  mkSegmentLabels (labeled seg) (review seg) li (review_note seg)
    (region_note seg) (highlighted_regions seg).

Definition set_review_note (t : string) (seg : SegmentLabels) : SegmentLabels :=
  mkSegmentLabels (labeled seg) (review seg) (label_indexes seg) t
    (region_note seg) (highlighted_regions seg).

Definition set_region_note (t : string) (seg : SegmentLabels) : SegmentLabels :=
  mkSegmentLabels (labeled seg) (review seg) (label_indexes seg)
    (review_note seg) t (highlighted_regions seg).

Definition set_highlighted_regions (r : option (list Region))
    (seg : SegmentLabels) : SegmentLabels :=
  mkSegmentLabels (labeled seg) (review seg) (label_indexes seg)
    (review_note seg) (region_note seg) r.

(** The object literal written by the handlers when a segment has no record
    yet: [{labeled: false, label_indexes: {...four empty arrays...}}]. *)
Definition defaultSegment : SegmentLabels :=
  mkSegmentLabels false false empty_indexes "" "" None.

(** The region click writes the same literal with [labeled: true]. *)
Definition defaultRegionSegment : SegmentLabels :=
  mkSegmentLabels true false empty_indexes "" "" None.

(** [Math.abs(idx - clickedIndex) <= tolerance] *)
Definition near (tolerance clickedIndex idx : num) : bool :=
  (JS.abs (idx - clickedIndex) <=? tolerance)%js.

(** [arr.findIndex(p)], with [None] for [-1]. *)
Fixpoint findIndex (p : num -> bool) (arr : list num) : option nat :=
  match arr with
  | [] => None
  | idx :: rest =>
      if p idx then Some 0%nat
      else match findIndex p rest with
           | Some i => Some (S i)
           | None => None
           end
  end.

(** [arr.splice(i, 1)] is stdpp's [delete i arr]. *)

(** [arr.sort((a, b) => a - b)].  A comparator result that is positive moves
    [a] behind [b]; a negative, zero or [NaN] result keeps [a] in front.  The
    model is the stable insertion sort; on arrays without [NaN] the order
    [a - b] is consistent and every sorting algorithm returns this list. *)
Fixpoint insert_asc (a : num) (arr : list num) : list num :=
  match arr with
  | [] => [a]
  | b :: rest =>
      if (a - b >? Int 0)%js then b :: insert_asc a rest
      else a :: b :: rest
  end.

Definition sort_asc (arr : list num) : list num :=
  foldr insert_asc [] arr.

(** The search loop shared by [handleDirectClick], [handleGraphRightClick]
    (and the unused [handleGraphClick]):
<<
    for (const labelType of labelTypes) {
      const labelArray = ...label_indexes[labelType];
      const nearbyIndex = labelArray.findIndex(idx => Math.abs(idx - clickedIndex) <= TOLERANCE);
      if (nearbyIndex !== -1) { labelArray.splice(nearbyIndex, 1); foundAndRemoved = true; break; }
    }
>>
    [Some li'] stands for [foundAndRemoved = true]. *)
Fixpoint removeNearby (types : list LabelType) (li : LabelIndexes)
    (clickedIndex : num) : option LabelIndexes :=
  match types with
  | [] => None
  | labelType :: rest =>
      let labelArray := points li labelType in
      match findIndex (near TOLERANCE clickedIndex) labelArray with
      | Some nearbyIndex =>
          Some (set_points li labelType (delete nearbyIndex labelArray))
      | None => removeNearby rest li clickedIndex
      end
  end.

(** Lines 1364-1385 of [handleDirectClick] on a record whose keys are in
    the order of the literal, as the window writes it (the stored object in
    general is [togglePointIn] below): remove the first nearby point of any
    type, or else push the index on the current type's array and sort it;
    then [labeled = true].  The second component is [foundAndRemoved]. *)
Definition togglePoint (seg : SegmentLabels) (clickedIndex : num)
    (currentLabelType : LabelType) : SegmentLabels * bool :=
  let li := label_indexes seg in
  match removeNearby labelTypes li clickedIndex with
  | Some li' => (set_labeled true (set_label_indexes li' seg), true)
  | None =>
      let labelArray := points li currentLabelType in
      let li' := set_points li currentLabelType
                   (sort_asc (labelArray ++ [clickedIndex])) in
      (set_labeled true (set_label_indexes li' seg), false)
  end.

(** *** The record as the object that is stored

    [handleDirectClick] walks the arrays of [label_indexes] with [for...in]
    (line 1366), in the order in which the object enumerates its own keys.
    A record that the window creates is written as the literal above and
    enumerates the four types in the order of [labelTypes]; a record read
    from the labels file (line 417) enumerates what the file holds, in the
    order of the file.  An object is modelled here as the list of its own
    properties in enumeration order, each key with its array. *)
Definition LabelObject : Type := list (string * list num).

(** The key of a label type. *)
Definition typeName (labelType : LabelType) : string :=
  match labelType with
  | compression_systolic_points => "compression_systolic_points"
  | compression_diastolic_points => "compression_diastolic_points"
  | spontaneous_systolic_points => "spontaneous_systolic_points"
  | spontaneous_diastolic_points => "spontaneous_diastolic_points"
  end.

(** [obj[key]], with [None] for [undefined]. *)
Fixpoint getArray (obj : LabelObject) (key : string) : option (list num) :=
  match obj with
  | [] => None
  | (k, arr) :: rest => if bool_decide (k = key) then Some arr else getArray rest key
  end.

(** The array under [key] replaced by [arr]; the order of the keys stays. *)
Fixpoint setArray (obj : LabelObject) (key : string) (arr : list num) : LabelObject :=
  match obj with
  | [] => []
  | (k, a) :: rest =>
      if bool_decide (k = key) then (k, arr) :: rest
      else (k, a) :: setArray rest key arr
  end.

(** The loop of lines 1366-1375 over the object:
<<
    for (const labelType in state.labels[segmentId].label_indexes) {
      const labelArray = state.labels[segmentId].label_indexes[labelType];
      const nearbyIndex = labelArray.findIndex(idx => Math.abs(idx - clickedIndex) <= TOLERANCE);
      if (nearbyIndex !== -1) { labelArray.splice(nearbyIndex, 1); foundAndRemoved = true; break; }
    }
>>
    [Some obj'] stands for [foundAndRemoved = true]. *)
Fixpoint removeNearbyIn (obj : LabelObject) (clickedIndex : num)
    : option LabelObject :=
  match obj with
  | [] => None
  | (labelType, labelArray) :: rest =>
      match findIndex (near TOLERANCE clickedIndex) labelArray with
      | Some nearbyIndex => Some ((labelType, delete nearbyIndex labelArray) :: rest)
      | None =>
          match removeNearbyIn rest clickedIndex with
          | Some rest' => Some ((labelType, labelArray) :: rest')
          | None => None
          end
      end
  end.

(** The part of a stored record that the toggle reads and writes. *)
Record StoredSegment : Type := mkStoredSegment {
  stored_labeled : bool;
  stored_label_indexes : LabelObject
}.

(** Lines 1364-1385 of [handleDirectClick] on a stored record.  The result
    is [None] when the handler throws: nothing was found nearby and the
    object has no array for the current type, so [push] is called on
    [undefined], before anything was changed.  Otherwise the second
    component is [foundAndRemoved]. *)
Definition togglePointIn (seg : StoredSegment) (clickedIndex : num)
    (currentLabelType : LabelType) : option (StoredSegment * bool) :=
  let obj := stored_label_indexes seg in
  match removeNearbyIn obj clickedIndex with
  | Some obj' => Some (mkStoredSegment true obj', true)
  | None =>
      match getArray obj (typeName currentLabelType) with
      | Some labelArray =>
          Some (mkStoredSegment true
                  (setArray obj (typeName currentLabelType)
                     (sort_asc (labelArray ++ [clickedIndex]))), false)
      | None => None
      end
  end.

(** The object of a record whose keys are in the order of the literal, as
    the window writes it: the records of [SegmentLabels] stand for these. *)
Definition objectOf (li : LabelIndexes) : LabelObject :=
  (fun labelType => (typeName labelType, points li labelType)) <$> labelTypes.

Definition storedOf (seg : SegmentLabels) : StoredSegment :=
  mkStoredSegment (labeled seg) (objectOf (label_indexes seg)).

(** No array of the object holds a point within [TOLERANCE] of [x]. *)
Definition noneNearbyIn (obj : LabelObject) (x : num) : Prop :=
  forall key arr p, (key, arr) ∈ obj -> p ∈ arr -> near TOLERANCE x p = false.

(** The body of [handleGraphRightClick] once the record exists: the same
    search, and [labeled = true] only when a point was removed. *)
Definition removePoint (seg : SegmentLabels) (clickedIndex : num)
    : SegmentLabels * bool :=
  match removeNearby labelTypes (label_indexes seg) clickedIndex with
  | Some li' => (set_labeled true (set_label_indexes li' seg), true)
  | None => (seg, false)
  end.

(** The inner loop of [eraseAtPositionNoUpdate]:
<<
    for (let i = labelArray.length - 1; i >= 0; i--) {
      const distance = Math.abs(labelArray[i] - clickedIndex);
      if (distance <= ERASER_TOLERANCE) { labelArray.splice(i, 1); anyRemoved = true; }
    }
>>
    [eraseFrom n arr x] runs it from [i = n - 1] down to [0] and returns the
    array with the flag [anyRemoved] of these iterations. *)
Fixpoint eraseFrom (n : nat) (labelArray : list num) (clickedIndex : num)
    : list num * bool :=
  match n with
  | O => (labelArray, false)
  | S i =>
      match labelArray !! i with
      | Some idx =>
          if near ERASER_TOLERANCE clickedIndex idx
          then (fst (eraseFrom i (delete i labelArray) clickedIndex), true)
          else eraseFrom i labelArray clickedIndex
      | None => eraseFrom i labelArray clickedIndex
      end
  end.

(** The outer loop over [allLabelTypes]; an empty array is skipped. *)
Fixpoint eraseTypes (types : list LabelType) (li : LabelIndexes)
    (clickedIndex : num) : LabelIndexes * bool :=
  match types with
  | [] => (li, false)
  | labelType :: rest =>
      let labelArray := points li labelType in
      if bool_decide (labelArray = []) then eraseTypes rest li clickedIndex
      else
        let '(arr, removed) :=
          eraseFrom (length labelArray) labelArray clickedIndex in
        let '(li', removed') :=
          eraseTypes rest (set_points li labelType arr) clickedIndex in
        (li', removed || removed')
  end.

(** What [eraseAtPositionNoUpdate] does to a record: the point lists after
    the sweep position [clickedIndex], and [anyRemoved]. *)
Definition eraseNear (seg : SegmentLabels) (clickedIndex : num)
    : SegmentLabels * bool :=
  let '(li', anyRemoved) :=
    eraseTypes labelTypes (label_indexes seg) clickedIndex in
  (set_label_indexes li' seg, anyRemoved).

(** ** The application state

    The object [state] of the renderer, restricted to the fields that the
    handlers below read or write. *)
Record State : Type := mkState {
  folderPath : option string;  (* [state.folderPath] *)
  currentFile : option string;
  fileData : bool;  (* whether [state.fileData] is set *)
  metadata : option num;  (* [state.metadata.sampling_rate], when [state.metadata] is set *)
  doneFiles : list string;
  reviewFiles : list string;
  segments : nat;  (* [state.segments.length] *)
  currentSegment : nat;
  labels : gmap string SegmentLabels;
  currentLabelType : LabelType;
  regionSelectionMode : bool;
  regionStart : option num;
  regionEnd : option num;
  labelsDirty : bool;
  autoSaveTimeout : option positive;  (* the id returned by [setTimeout] *)
  eraserActive : bool;
  eraserModified : bool;
  lastHoverData : option num  (* [state.lastHoverData.points[0].x] *)
}.

Definition set_folderPath (v : option string) (s : State) : State :=
  mkState v (currentFile s) (fileData s) (metadata s) (doneFiles s)
    (reviewFiles s) (segments s) (currentSegment s) (labels s)
    (currentLabelType s) (regionSelectionMode s) (regionStart s)
    (regionEnd s) (labelsDirty s) (autoSaveTimeout s) (eraserActive s)
    (eraserModified s) (lastHoverData s).

Definition set_currentFile (v : option string) (s : State) : State :=
  mkState (folderPath s) v (fileData s) (metadata s) (doneFiles s)
    (reviewFiles s) (segments s) (currentSegment s) (labels s)
    (currentLabelType s) (regionSelectionMode s) (regionStart s)
    (regionEnd s) (labelsDirty s) (autoSaveTimeout s) (eraserActive s)
    (eraserModified s) (lastHoverData s).

Definition set_fileData (v : bool) (s : State) : State :=
  mkState (folderPath s) (currentFile s) v (metadata s) (doneFiles s)
    (reviewFiles s) (segments s) (currentSegment s) (labels s)
    (currentLabelType s) (regionSelectionMode s) (regionStart s)
    (regionEnd s) (labelsDirty s) (autoSaveTimeout s) (eraserActive s)
    (eraserModified s) (lastHoverData s).

Definition set_metadata (v : option num) (s : State) : State :=
  mkState (folderPath s) (currentFile s) (fileData s) v (doneFiles s)
    (reviewFiles s) (segments s) (currentSegment s) (labels s)
    (currentLabelType s) (regionSelectionMode s) (regionStart s)
    (regionEnd s) (labelsDirty s) (autoSaveTimeout s) (eraserActive s)
    (eraserModified s) (lastHoverData s).

Definition set_doneFiles (v : list string) (s : State) : State :=
  mkState (folderPath s) (currentFile s) (fileData s) (metadata s) v
    (reviewFiles s) (segments s) (currentSegment s) (labels s)
    (currentLabelType s) (regionSelectionMode s) (regionStart s)
    (regionEnd s) (labelsDirty s) (autoSaveTimeout s) (eraserActive s)
    (eraserModified s) (lastHoverData s).

Definition set_reviewFiles (v : list string) (s : State) : State :=
  mkState (folderPath s) (currentFile s) (fileData s) (metadata s)
    (doneFiles s) v (segments s) (currentSegment s) (labels s)
    (currentLabelType s) (regionSelectionMode s) (regionStart s)
    (regionEnd s) (labelsDirty s) (autoSaveTimeout s) (eraserActive s)
    (eraserModified s) (lastHoverData s).

Definition set_segments (v : nat) (s : State) : State :=
  mkState (folderPath s) (currentFile s) (fileData s) (metadata s)
    (doneFiles s) (reviewFiles s) v (currentSegment s) (labels s)
    (currentLabelType s) (regionSelectionMode s) (regionStart s)
    (regionEnd s) (labelsDirty s) (autoSaveTimeout s) (eraserActive s)
    (eraserModified s) (lastHoverData s).

Definition set_currentSegment (v : nat) (s : State) : State :=
  mkState (folderPath s) (currentFile s) (fileData s) (metadata s)
    (doneFiles s) (reviewFiles s) (segments s) v (labels s)
    (currentLabelType s) (regionSelectionMode s) (regionStart s)
    (regionEnd s) (labelsDirty s) (autoSaveTimeout s) (eraserActive s)
    (eraserModified s) (lastHoverData s).

Definition set_labels (v : gmap string SegmentLabels) (s : State) : State :=
  mkState (folderPath s) (currentFile s) (fileData s) (metadata s)
    (doneFiles s) (reviewFiles s) (segments s) (currentSegment s) v
    (currentLabelType s) (regionSelectionMode s) (regionStart s)
    (regionEnd s) (labelsDirty s) (autoSaveTimeout s) (eraserActive s)
    (eraserModified s) (lastHoverData s).

Definition set_currentLabelType (v : LabelType) (s : State) : State :=
  mkState (folderPath s) (currentFile s) (fileData s) (metadata s)
    (doneFiles s) (reviewFiles s) (segments s) (currentSegment s) (labels s)
    v (regionSelectionMode s) (regionStart s) (regionEnd s) (labelsDirty s)
    (autoSaveTimeout s) (eraserActive s) (eraserModified s)
    (lastHoverData s).

Definition set_regionSelectionMode (v : bool) (s : State) : State :=
  mkState (folderPath s) (currentFile s) (fileData s) (metadata s)
    (doneFiles s) (reviewFiles s) (segments s) (currentSegment s) (labels s)
    (currentLabelType s) v (regionStart s) (regionEnd s) (labelsDirty s)
    (autoSaveTimeout s) (eraserActive s) (eraserModified s)
    (lastHoverData s).

Definition set_regionStart (v : option num) (s : State) : State :=
  mkState (folderPath s) (currentFile s) (fileData s) (metadata s)
    (doneFiles s) (reviewFiles s) (segments s) (currentSegment s) (labels s)
    (currentLabelType s) (regionSelectionMode s) v (regionEnd s)
    (labelsDirty s) (autoSaveTimeout s) (eraserActive s) (eraserModified s)
    (lastHoverData s).

Definition set_regionEnd (v : option num) (s : State) : State :=
  mkState (folderPath s) (currentFile s) (fileData s) (metadata s)
    (doneFiles s) (reviewFiles s) (segments s) (currentSegment s) (labels s)
    (currentLabelType s) (regionSelectionMode s) (regionStart s) v
    (labelsDirty s) (autoSaveTimeout s) (eraserActive s) (eraserModified s)
    (lastHoverData s).

Definition set_labelsDirty (v : bool) (s : State) : State :=
  mkState (folderPath s) (currentFile s) (fileData s) (metadata s)
    (doneFiles s) (reviewFiles s) (segments s) (currentSegment s) (labels s)
    (currentLabelType s) (regionSelectionMode s) (regionStart s)
    (regionEnd s) v (autoSaveTimeout s) (eraserActive s) (eraserModified s)
    (lastHoverData s).

Definition set_autoSaveTimeout (v : option positive) (s : State) : State :=
  mkState (folderPath s) (currentFile s) (fileData s) (metadata s)
    (doneFiles s) (reviewFiles s) (segments s) (currentSegment s) (labels s)
    (currentLabelType s) (regionSelectionMode s) (regionStart s)
    (regionEnd s) (labelsDirty s) v (eraserActive s) (eraserModified s)
    (lastHoverData s).

Definition set_eraserActive (v : bool) (s : State) : State :=
  mkState (folderPath s) (currentFile s) (fileData s) (metadata s)
    (doneFiles s) (reviewFiles s) (segments s) (currentSegment s) (labels s)
    (currentLabelType s) (regionSelectionMode s) (regionStart s)
    (regionEnd s) (labelsDirty s) (autoSaveTimeout s) v (eraserModified s)
    (lastHoverData s).

Definition set_eraserModified (v : bool) (s : State) : State :=
  mkState (folderPath s) (currentFile s) (fileData s) (metadata s)
    (doneFiles s) (reviewFiles s) (segments s) (currentSegment s) (labels s)
    (currentLabelType s) (regionSelectionMode s) (regionStart s)
    (regionEnd s) (labelsDirty s) (autoSaveTimeout s) (eraserActive s) v
    (lastHoverData s).

Definition set_lastHoverData (v : option num) (s : State) : State :=
  mkState (folderPath s) (currentFile s) (fileData s) (metadata s)
    (doneFiles s) (reviewFiles s) (segments s) (currentSegment s) (labels s)
    (currentLabelType s) (regionSelectionMode s) (regionStart s)
    (regionEnd s) (labelsDirty s) (autoSaveTimeout s) (eraserActive s)
    (eraserModified s) v.

(** The renderer process: [state], the armed timeouts of its window (only
    [scheduleAutoSave] arms one that touches [state]; [id |-> due time] in
    milliseconds), the window's clock and the calls made so far to
    [window.electronAPI.saveLabels] (file name and labels passed).

    A handler that awaits a reply of the main process is embedded with the
    reply as an argument, the request and the continuation forming one step. *)
Record Renderer : Type := mkRenderer {
  state : State;
  timers : gmap positive N;
  nextTimer : positive;
  clock : N;
  saveCalls : list (string * gmap string SegmentLabels)
}.

Definition on_state (f : State -> State) (r : Renderer) : Renderer :=
  mkRenderer (f (state r)) (timers r) (nextTimer r) (clock r) (saveCalls r).

(** A handler either returns or is left by an uncaught [TypeError]; the
    state keeps what the handler wrote before the throw. *)
Inductive completion : Type :=
  | Returned (r : Renderer)
  | Threw (r : Renderer).

Definition after (c : completion) : Renderer :=
  match c with Returned r | Threw r => r end.

(** [state.currentSegment.toString()] *)
Definition segmentId (s : State) : string := pretty (currentSegment s).

(** Truthiness of [state.currentFile]: neither [null] nor the empty string. *)
Definition fileOpen (s : State) : bool :=
  match currentFile s with
  | Some f => bool_decide (f <> "")
  | None => false
  end.

(** *** Auto-save *)

(** [saveLabels(false)]: the call to the persistence collaborator and the
    continuation on its reply [ok]. *)
Definition saveLabels (ok : bool) (r : Renderer) : Renderer :=
  match currentFile (state r) with
  | Some f =>
      if bool_decide (f <> "") then
        let s := if ok then set_labelsDirty false (state r) else state r in
        mkRenderer s (timers r) (nextTimer r) (clock r)
          (saveCalls r ++ [(f, labels (state r))])
      else r
  | None => r
  end.

(** [clearTimeout(id)] *)
Definition clearTimeout (id : option positive) (tm : gmap positive N)
    : gmap positive N :=
  match id with
  | Some i => delete i tm
  | None => tm
  end.

(** [scheduleAutoSave]: clear the recorded timeout, arm a new one 2000 ms
    from now. *)
Definition scheduleAutoSave (r : Renderer) : Renderer :=
  let tm := clearTimeout (autoSaveTimeout (state r)) (timers r) in
  let id := nextTimer r in
  mkRenderer (set_autoSaveTimeout (Some id) (state r))
    (<[id := (clock r + 2000)%N]> tm) (Pos.succ id) (clock r) (saveCalls r).

Definition markLabelsDirty (r : Renderer) : Renderer :=
  scheduleAutoSave (on_state (set_labelsDirty true) r).

(** The callback armed by [scheduleAutoSave]. *)
Definition autoSaveCallback (ok : bool) (r : Renderer) : Renderer :=
  if labelsDirty (state r) && fileOpen (state r) then saveLabels ok r else r.

Definition saveIfDirty (ok : bool) (r : Renderer) : Renderer :=
  if labelsDirty (state r) && fileOpen (state r) then
    let r1 :=
      match autoSaveTimeout (state r) with
      | Some id =>
          mkRenderer (set_autoSaveTimeout None (state r))
            (delete id (timers r)) (nextTimer r) (clock r) (saveCalls r)
      | None => r
      end in
    saveLabels ok r1
  else r.

(** The window runs the callback of timeout [id]: only an armed timeout
    whose delay has elapsed can run, and it runs once. *)
Definition fireTimer (id : positive) (ok : bool) (r : Renderer) : Renderer :=
  match timers r !! id with
  | Some due =>
      if (due <=? clock r)%N then
        autoSaveCallback ok
          (mkRenderer (state r) (delete id (timers r)) (nextTimer r)
             (clock r) (saveCalls r))
      else r
  | None => r
  end.

(** [dt] milliseconds pass. *)
Definition advance (dt : N) (r : Renderer) : Renderer :=
  mkRenderer (state r) (timers r) (nextTimer r) (clock r + dt)%N (saveCalls r).

(** *** Pointer geometry *)

(** [graphDiv._fullLayout.xaxis]: [_offset], [_length], [range[0]],
    [range[1]]. *)
Record Axis : Type := mkAxis {
  _offset : num;
  _length : num;
  range0 : num;
  range1 : num
}.

(** A mouse event on the graph with the layout it meets: whether the target
    is a mode-bar button, [event.shiftKey], [event.clientX], the left edge
    of [graphDiv.getBoundingClientRect()] and the x axis, if the layout has
    one. *)
Record Pointer : Type := mkPointer {
  onModebar : bool;
  shiftKey : bool;
  clientX : num;
  bboxLeft : num;
  xaxis : option Axis
}.

(** [xaxis.range[0] + (xPixelInPlotArea / xaxis._length) * (xaxis.range[1] - xaxis.range[0])] *)
Definition clickedTime (ev : Pointer) (ax : Axis) : num :=
  let xPixelInPlotArea := (clientX ev - bboxLeft ev - _offset ax)%js in
  (range0 ax + (xPixelInPlotArea / _length ax) * (range1 ax - range0 ax))%js.

(** [state.metadata ? state.metadata.sampling_rate : 250] *)
Definition samplingRate (s : State) : num :=
  match metadata s with
  | Some rate => rate
  | None => Int 250
  end.

(** [Math.round(clickedTime * samplingRate)].  The product is exact here;
    the product of two doubles is rounded, so where it lies within that
    rounding of a half the source may get the neighbouring index.  The
    statements below are about the index computed, whichever it is. *)
Definition clickedIndex (s : State) (time : num) : num :=
  JS.round (time * samplingRate s)%js.

(** *** Pointer handlers *)

Definition put_segment (id : string) (seg : SegmentLabels) (s : State) : State :=
  set_labels (<[id := seg]> (labels s)) s.

(** The end of [handleDirectClick] (lines 1349-1389), reached in Normal mode
    with the sample index of the click: create the record of the current
    segment if it is missing, toggle the point, mark the labels dirty. *)
Definition toggleAt (clickedIndex : num) (r : Renderer) : Renderer :=
  let s := state r in
  let id := segmentId s in
  let seg := default defaultSegment (labels s !! id) in
  let seg' := fst (togglePoint seg clickedIndex (currentLabelType s)) in
  markLabelsDirty (on_state (put_segment id seg') r).

(** [handleDirectClick].  The calls that only redraw ([updateDisplay],
    [updateGraph]) leave [state] alone and are omitted here and below. *)
Definition handleDirectClick (ev : Pointer) (r : Renderer) : completion :=
  let s := state r in
  if onModebar ev then Returned r
  else if shiftKey ev then Returned r
  else if regionSelectionMode s then
    match xaxis ev with
    | None => Threw r   (* [xaxis._offset] of [undefined] *)
    | Some ax =>
        let idx := clickedIndex s (clickedTime ev ax) in
        match regionStart s with
        | None => Returned (on_state (set_regionStart (Some idx)) r)
        | Some start =>
            let '(rs, re) :=
              if (start >? idx)%js then (idx, start) else (start, idx) in
            let id := segmentId s in
            let seg := default defaultRegionSegment (labels s !! id) in
            let regions := default [] (highlighted_regions seg) in
            let seg' :=
              set_highlighted_regions (Some (regions ++ [mkRegion rs re])) seg in
            Returned
              (markLabelsDirty
                 (on_state
                    (fun s => set_regionEnd None
                                (set_regionStart None (put_segment id seg' s)))
                    r))
        end
    end
  else
    match xaxis ev with
    | None => Returned r
    | Some ax =>
        let time := clickedTime ev ax in
        if JS.isNaN time then Returned r
        else Returned (toggleAt (clickedIndex s time) r)
    end.

(** The [plotly_hover] listener: remember the hovered data point. *)
Definition handleHover (x : num) (r : Renderer) : Renderer :=
  on_state (set_lastHoverData (Some x)) r.

(** [handleGraphRightClick] *)
Definition handleGraphRightClick (r : Renderer) : Renderer :=
  let s := state r in
  match lastHoverData s with
  | None => r
  | Some time =>
      let idx := clickedIndex s time in
      let id := segmentId s in
      match labels s !! id with
      | None => r
      | Some seg =>
          let '(seg', foundAndRemoved) := removePoint seg idx in
          if foundAndRemoved
          then markLabelsDirty (on_state (put_segment id seg') r)
          else r
      end
  end.

(** The end of [eraseAtPositionNoUpdate] (lines 1163-1196), reached with the
    sample index of the pointer: erase around it in the record of the
    current segment, if there is one, and remember in [eraserModified] that
    something was removed. *)
Definition eraseAt (clickedIndex : num) (r : Renderer) : Renderer :=
  let s := state r in
  let id := segmentId s in
  match labels s !! id with
  | None => r
  | Some seg =>
      let '(seg', anyRemoved) := eraseNear seg clickedIndex in
      on_state
        (fun s =>
           let s' := put_segment id seg' s in
           if anyRemoved then set_eraserModified true s' else s')
        r
  end.

(** [eraseAtPositionNoUpdate] *)
Definition eraseAtPositionNoUpdate (ev : Pointer) (r : Renderer) : Renderer :=
  let s := state r in
  if negb (fileData s) then r
  else
    match xaxis ev with
    | None => r
    | Some ax =>
        let time := clickedTime ev ax in
        if JS.isNaN time then r
        else eraseAt (clickedIndex s time) r
    end.

(** [handleEraserMouseUp], also the [mouseleave] listener. *)
Definition handleEraserMouseUp (r : Renderer) : completion :=
  let s := state r in
  if eraserActive s then
    let r1 := on_state (set_eraserActive false) r in
    if eraserModified s then
      let id := segmentId s in
      match labels s !! id with
      | None => Threw r1   (* [labeled] of [undefined] *)
      | Some seg =>
          Returned
            (markLabelsDirty
               (on_state (put_segment id (set_labeled true seg)) r1))
      end
    else Returned r1
  else Returned r.

Definition handleEraserMouseDown (ev : Pointer) (r : Renderer) : Renderer :=
  if negb (shiftKey ev) then r
  else if onModebar ev then r
  else
    eraseAtPositionNoUpdate ev
      (on_state (fun s => set_eraserModified false (set_eraserActive true s)) r).

Definition handleEraserMouseMove (ev : Pointer) (r : Renderer) : completion :=
  if negb (eraserActive (state r)) then Returned r
  else if negb (shiftKey ev) then handleEraserMouseUp r
  else Returned (eraseAtPositionNoUpdate ev r).

(** [handleEraserKeyUp] for the Shift key. *)
Definition handleEraserKeyUp (r : Renderer) : Renderer :=
  on_state (set_eraserActive false) r.

(** *** Buttons and text areas *)

Definition selectLabelType (labelType : LabelType) (r : Renderer) : Renderer :=
  on_state (set_currentLabelType labelType) r.

Definition toggleRegionMode (r : Renderer) : Renderer :=
  on_state
    (fun s => set_regionEnd None
                (set_regionStart None
                   (set_regionSelectionMode (negb (regionSelectionMode s)) s)))
    r.

Definition clearRegions (r : Renderer) : Renderer :=
  let s := state r in
  let id := segmentId s in
  match labels s !! id with
  | Some seg =>
      match highlighted_regions seg with
      | Some _ =>
          markLabelsDirty
            (on_state (put_segment id (set_highlighted_regions (Some []) seg)) r)
      | None => r
      end
  | None => r
  end.

Definition handleReviewNoteChange (text : string) (r : Renderer) : Renderer :=
  let s := state r in
  let id := segmentId s in
  let seg := default defaultSegment (labels s !! id) in
  markLabelsDirty (on_state (put_segment id (set_review_note text seg)) r).

Definition handleRegionNoteChange (text : string) (r : Renderer) : Renderer :=
  let s := state r in
  let id := segmentId s in
  let seg := default defaultSegment (labels s !! id) in
  markLabelsDirty (on_state (put_segment id (set_region_note text seg)) r).

(** [eraseCurrentTypeLabels]; [confirmed] is the answer to [confirm(...)]. *)
Definition eraseCurrentTypeLabels (confirmed : bool) (r : Renderer) : Renderer :=
  let s := state r in
  let id := segmentId s in
  match labels s !! id with
  | None => r
  | Some seg =>
      let currentType := currentLabelType s in
      if bool_decide (points (label_indexes seg) currentType = []) then r
      else if confirmed then
        markLabelsDirty
          (on_state
             (put_segment id
                (set_label_indexes
                   (set_points (label_indexes seg) currentType []) seg))
             r)
      else r
  end.

(** [eraseUpslopeLabels]; [labelType] is the value of the select box. *)
Definition eraseUpslopeLabels (labelType : LabelType) (r : Renderer) : Renderer :=
  let s := state r in
  let id := segmentId s in
  match labels s !! id with
  | None => r
  | Some seg =>
      if bool_decide (points (label_indexes seg) labelType = []) then r
      else
        markLabelsDirty
          (on_state
             (put_segment id
                (set_label_indexes
                   (set_points (label_indexes seg) labelType []) seg))
             r)
  end.

(** The three buttons that call [findPeaks]. *)
Inductive PeakTarget : Type :=
  | compression_systolic
  | spontaneous_systolic
  | spontaneous_diastolic.

(** [result.peaks] of a successful reply of the peak finder; either array
    may be missing. *)
Record Peaks : Type := mkPeaks {
  systolic : option (list num);
  diastolic : option (list num)
}.

(** [findPeaks(targetLabelType)]; [signal] tells whether the file has an
    arterial-line signal, [result] is the reply of the peak finder ([None]
    when it fails).  The array of the target type is replaced by the peaks
    found. *)
Definition findPeaks (target : PeakTarget) (signal : bool)
    (result : option Peaks) (r : Renderer) : Renderer :=
  let s := state r in
  let id := segmentId s in
  if negb (fileData s) || negb signal then r
  else
    match result with
    | None => r
    | Some peaks =>
        let seg := default defaultSegment (labels s !! id) in
        let li :=
          match target with
          | compression_systolic =>
              set_points (label_indexes seg) compression_systolic_points
                (default [] (systolic peaks))
          | spontaneous_systolic =>
              set_points (label_indexes seg) spontaneous_systolic_points
                (default [] (systolic peaks))
          | spontaneous_diastolic =>
              set_points (label_indexes seg) spontaneous_diastolic_points
                (default [] (diastolic peaks))
          end in
        markLabelsDirty
          (on_state (put_segment id (set_labeled true (set_label_indexes li seg))) r)
    end.

(** [findOnsetCompression]; [result] is the reply of the onset finder, whose
    [onsets] may be missing.  It needs compression systolic points and
    replaces the compression diastolic ones. *)
Definition findOnsetCompression (signal : bool)
    (result : option (option (list num))) (r : Renderer) : Renderer :=
  let s := state r in
  let id := segmentId s in
  if negb (fileData s) || negb signal then r
  else
    match labels s !! id with
    | None => r
    | Some seg =>
        if bool_decide (points (label_indexes seg) compression_systolic_points = [])
        then r
        else
          match result with
          | None => r
          | Some onsets =>
              let li := set_points (label_indexes seg)
                          compression_diastolic_points (default [] onsets) in
              markLabelsDirty
                (on_state
                   (put_segment id (set_labeled true (set_label_indexes li seg))) r)
          end
    end.

(** [findUpslope]; [labelType] is the value of the select box, [filtering]
    tells whether a minimal or maximal distance to the systolic peaks is
    set, [result] is the reply of the upslope finder. *)
Definition findUpslope (labelType : LabelType) (filtering signal : bool)
    (result : option (option (list num))) (r : Renderer) : Renderer :=
  let s := state r in
  let id := segmentId s in
  if negb (fileData s) || negb signal then r
  else
    let systolicType :=
      if bool_decide (labelType = compression_diastolic_points)
      then compression_systolic_points else spontaneous_systolic_points in
    let systolicPeaks :=
      if filtering then
        match labels s !! id with
        | Some seg => points (label_indexes seg) systolicType
        | None => []
        end
      else [] in
    if filtering && bool_decide (systolicPeaks = []) then r
    else
      match result with
      | None => r
      | Some upslopes =>
          let seg := default defaultSegment (labels s !! id) in
          let li := set_points (label_indexes seg) labelType (default [] upslopes) in
          markLabelsDirty
            (on_state
               (put_segment id (set_labeled true (set_label_indexes li seg))) r)
      end.

(** *** Review and done markers *)

(** [c.toLowerCase()] on an ASCII character. *)
Definition ascii_lower (c : ascii) : ascii :=
  let n := Ascii.nat_of_ascii c in
  if ((65 <=? n) && (n <=? 90))%nat then Ascii.ascii_of_nat (n + 32) else c.

Fixpoint toLowerCase (str : string) : string :=
  match str with
  | EmptyString => EmptyString
  | String c rest => String (ascii_lower c) (toLowerCase rest)
  end.

(** [str.endsWith(suffix)] *)
Definition endsWith (str suffix : string) : bool :=
  String.prefix (String.rev suffix) (String.rev str).

(** [str.slice(0, -n)] *)
Definition dropLast (n : nat) (str : string) : string :=
  String.substring 0 (String.length str - n) str.

Definition stripExtension (filename : string) : string :=
  if endsWith (toLowerCase filename) ".h5" then dropLast 3 filename
  else if endsWith (toLowerCase filename) ".hdf5" then dropLast 5 filename
  else filename.

(** [state.currentFile && state.doneFiles.includes(state.currentFile)] *)
Definition isDone (s : State) : bool :=
  match currentFile s with
  | Some f => bool_decide (f <> "") && bool_decide (f ∈ doneFiles s)
  | None => false
  end.

(** [getSegmentsWithReview]: the keys other than ["_metadata"] whose record
    has [review === true].  The source turns each key into a 1-based number
    for the alert text; the state logic only uses whether the list is
    empty. *)
Definition getSegmentsWithReview (s : State) : list string :=
  List.map fst
    (List.filter
       (fun entry => bool_decide (fst entry <> "_metadata") && review (snd entry))
       (map_to_list (labels s))).

(** The loop of [updateReviewFilesState]: does any key of [state.labels]
    (["_metadata"] included) carry [review === true]? *)
Definition hasReview (s : State) : bool :=
  List.existsb (fun entry => review (snd entry)) (map_to_list (labels s)).

(** [arr.indexOf(x)], with [None] for [-1]. *)
Fixpoint indexOf (x : string) (arr : list string) : option nat :=
  match arr with
  | [] => None
  | y :: rest =>
      if bool_decide (y = x) then Some 0%nat
      else match indexOf x rest with
           | Some i => Some (S i)
           | None => None
           end
  end.

(** [updateReviewFilesState], for an open file [f]. *)
Definition updateReviewFilesState (f : string) (s : State) : State :=
  let fileBaseName := stripExtension f in
  match indexOf fileBaseName (reviewFiles s), hasReview s with
  | None, true => set_reviewFiles (reviewFiles s ++ [fileBaseName]) s
  | Some index, false => set_reviewFiles (delete index (reviewFiles s)) s
  | _, _ => s
  end.

(** [toggleReview].  With no file open [stripExtension(null)] throws after
    the flag has been written. *)
Definition toggleReview (r : Renderer) : completion :=
  let s := state r in
  let id := segmentId s in
  let currentReviewState :=
    match labels s !! id with
    | Some seg => review seg
    | None => false
    end in
  if isDone s && negb currentReviewState then Returned r
  else
    let seg := default defaultSegment (labels s !! id) in
    let r1 := on_state (put_segment id (set_review (negb (review seg)) seg)) r in
    match currentFile s with
    | None => Threw r1
    | Some f =>
        Returned (markLabelsDirty (on_state (updateReviewFilesState f) r1))
    end.

(** The reply of [window.electronAPI.toggleDoneFile]. *)
Record DoneReply : Type := mkDoneReply {
  success : bool;
  done_files : list string
}.

(** [toggleDone] up to its [await]: is the request sent? *)
Definition toggleDone_request (s : State) : bool :=
  fileOpen s && (isDone s || bool_decide (getSegmentsWithReview s = [])).

(** [toggleDone] after its [await]. *)
Definition toggleDone_reply (result : DoneReply) (r : Renderer) : Renderer :=
  if success result then on_state (set_doneFiles (done_files result)) r else r.

(** [toggleDone] with the reply arriving before any other event. *)
Definition toggleDone (result : DoneReply) (r : Renderer) : Renderer :=
  if toggleDone_request (state r) then toggleDone_reply result r else r.

(** *** Navigation and loading *)

(** [navigateSegment(direction)]; [ok] is the reply to the save, if one is
    made.  This is one run of the handler taken as a whole, the reply
    arriving before any other event is handled: what other handlers do
    between the test and the assignment, while the handler waits, is not
    described. *)
Definition navigateSegment (direction : Z) (ok : bool) (r : Renderer) : Renderer :=
  let newSegment := (Z.of_nat (currentSegment (state r)) + direction)%Z in
  if ((0 <=? newSegment) && (newSegment <? Z.of_nat (segments (state r))))%Z
  then on_state (set_currentSegment (Z.to_nat newSegment)) (saveIfDirty ok r)
  else r.

(** [loadFilesFromFolder]: [files] tells whether listing the folder
    succeeded, [doneReply] and [reviewReply] are the lists sent back by
    [loadDoneFiles] and [loadReviewFiles] ([None] for a failure). *)
Definition loadFilesFromFolder (folder : string) (files : bool)
    (doneReply reviewReply : option (list string)) (r : Renderer) : Renderer :=
  let r1 := on_state (set_folderPath (Some folder)) r in
  if files then
    on_state
      (fun s => set_reviewFiles (default [] reviewReply)
                  (set_doneFiles (default [] doneReply) s))
      r1
  else r1.

(** [browseDataFolder] of the settings tab; [path] is the folder chosen in
    the dialog, if one is. *)
Definition browseDataFolder (path : option string) (r : Renderer) : Renderer :=
  match path with
  | Some p =>
      if bool_decide (p <> "") then on_state (set_folderPath (Some p)) r else r
  | None => r
  end.

(** What [window.electronAPI.loadFile] sends back on success: the sampling
    rate of the metadata, if there is metadata, and the number of whole
    segments of the data. *)
Record FileReply : Type := mkFileReply {
  file_metadata : option num;
  file_segments : nat
}.

(** [loadFile]: [ok] is the reply to the save of the previous file,
    [fileReply] is [None] when loading fails, [labelsReply] when loading the
    labels does.  This is one run of the handler taken as a whole, every
    reply arriving before any other event is handled: the states in which
    the handler waits are not described. *)
Definition loadFile (filename : string) (ok : bool)
    (fileReply : option FileReply)
    (labelsReply : option (gmap string SegmentLabels)) (r : Renderer)
    : Renderer :=
  if bool_decide (filename = "") then r
  else
    match folderPath (state r) with
    | None => r
    | Some folder =>
        if bool_decide (folder = "") then r
        else
          let r1 := on_state (set_currentFile (Some filename)) (saveIfDirty ok r) in
          match fileReply with
          | None => r1
          | Some data =>
              on_state
                (fun s =>
                   set_currentSegment 0%nat
                     (set_labels (default ∅ labelsReply)
                        (set_segments (file_segments data)
                           (set_metadata (file_metadata data)
                              (set_fileData true s)))))
                r1
          end
    end.

(** *** Events *)

Inductive Event : Type :=
  | EClick (ev : Pointer)
  | EHover (x : num)
  | ERightClick
  | EMouseDown (ev : Pointer)
  | EMouseMove (ev : Pointer)
  | EMouseUp
  | EShiftUp
  | ESelectLabelType (labelType : LabelType)
  | EToggleRegionMode
  | EClearRegions
  | EReviewNote (text : string)
  | ERegionNote (text : string)
  | EEraseCurrentType (confirmed : bool)
  | EEraseUpslope (labelType : LabelType)
  | EFindPeaks (target : PeakTarget) (signal : bool) (result : option Peaks)
  | EFindOnset (signal : bool) (result : option (option (list num)))
  | EFindUpslope (labelType : LabelType) (filtering signal : bool)
      (result : option (option (list num)))
  | ESave (ok : bool)
  | EToggleReview
  | EToggleDone (result : DoneReply)
  | ENavigate (direction : Z) (ok : bool)
  | ETimer (id : positive) (ok : bool)
  | EAdvance (dt : N)
  | ELoadFolder (folder : string) (files : bool)
      (doneReply reviewReply : option (list string))
  | ELoadFile (filename : string) (ok : bool) (fileReply : option FileReply)
      (labelsReply : option (gmap string SegmentLabels))
  | EBrowseDataFolder (path : option string).

Definition step (e : Event) (r : Renderer) : Renderer :=
  match e with
  | EClick ev => after (handleDirectClick ev r)
  | EHover x => handleHover x r
  | ERightClick => handleGraphRightClick r
  | EMouseDown ev => handleEraserMouseDown ev r
  | EMouseMove ev => after (handleEraserMouseMove ev r)
  | EMouseUp => after (handleEraserMouseUp r)
  | EShiftUp => handleEraserKeyUp r
  | ESelectLabelType labelType => selectLabelType labelType r
  | EToggleRegionMode => toggleRegionMode r
  | EClearRegions => clearRegions r
  | EReviewNote text => handleReviewNoteChange text r
  | ERegionNote text => handleRegionNoteChange text r
  | EEraseCurrentType confirmed => eraseCurrentTypeLabels confirmed r
  | EEraseUpslope labelType => eraseUpslopeLabels labelType r
  | EFindPeaks target signal result => findPeaks target signal result r
  | EFindOnset signal result => findOnsetCompression signal result r
  | EFindUpslope labelType filtering signal result =>
      findUpslope labelType filtering signal result r
  | ESave ok => saveLabels ok r
  | EToggleReview => after (toggleReview r)
  | EToggleDone result => toggleDone result r
  | ENavigate direction ok => navigateSegment direction ok r
  | ETimer id ok => fireTimer id ok r
  | EAdvance dt => advance dt r
  | ELoadFolder folder files doneReply reviewReply =>
      loadFilesFromFolder folder files doneReply reviewReply r
  | ELoadFile filename ok fileReply labelsReply =>
      loadFile filename ok fileReply labelsReply r
  | EBrowseDataFolder path => browseDataFolder path r
  end.

Definition run (es : list Event) (r : Renderer) : Renderer :=
  foldl (fun r e => step e r) r es.

(** The state of the renderer when the script starts. *)
Definition initialState : State :=
  mkState None None false None [] [] 0 0 ∅ compression_systolic_points
    false None None false None false false None.

Definition initialRenderer : Renderer :=
  mkRenderer initialState ∅ 1%positive 0%N [].

(** ** The bridge to the processing engine ([src/main/python-bridge.js]) *)
Module PythonBridge.

(** How a promise's [resolve] or [reject] function was invoked. *)
Inductive Settlement : Type :=
  | Resolve (result : string)
  | Reject (error : string).

(** An inbound message [{id, result, error}].  [msg_id] is [None] when the
    message has no [id] or one that is no call id (not a natural number);
    the payload of [result] is kept as text. *)
Record Message : Type := mkMessage {
  msg_id : option nat;
  msg_result : string;
  msg_error : option string
}.

(** An outbound message [{id, method, params}]. *)
Record Request : Type := mkRequest {
  req_id : nat;
  req_method : string;
  req_params : string
}.

(** The object [PythonBridge] and what it holds on to in the main process:
    [pendingCalls] maps a call id to the promise whose [{resolve, reject}]
    pair is stored there; [settlements] lists every invocation of a
    [resolve] or [reject], oldest first; [timeouts] are the armed timeouts
    of the calls ([id |-> due time], ms); [sent] are the messages handed to
    the transport. *)
Record Bridge : Type := mkBridge {
  pythonProcess : bool;
  messageId : nat;
  pendingCalls : gmap nat nat;
  nextPromise : nat;
  settlements : list (nat * Settlement);
  timeouts : gmap nat N;
  now : N;
  sent : list Request
}.

Definition initialBridge : Bridge :=
  mkBridge false 0 ∅ 0 [] ∅ 0%N [].

(** [start]: the process object is created. *)
Definition start (b : Bridge) : Bridge :=
  mkBridge true (messageId b) (pendingCalls b) (nextPromise b)
    (settlements b) (timeouts b) (now b) (sent b).

(** The [close] listener: [this.pythonProcess = null]. *)
Definition onClose (b : Bridge) : Bridge :=
  mkBridge false (messageId b) (pendingCalls b) (nextPromise b)
    (settlements b) (timeouts b) (now b) (sent b).

(** [stop] asks the process to end; the fields change when [close] fires. *)
Definition stop (b : Bridge) : Bridge := b.

(** Invoke [resolve] or [reject] of promise [p]. *)
Definition settle (p : nat) (how : Settlement) (b : Bridge) : Bridge :=
  mkBridge (pythonProcess b) (messageId b) (pendingCalls b) (nextPromise b)
    (settlements b ++ [(p, how)]) (timeouts b) (now b) (sent b).

(** The state of promise [p]: the first settlement wins, later ones are
    ignored by the promise. *)
Definition promiseState (p : nat) (b : Bridge) : option Settlement :=
  snd <$> List.find (fun entry => Nat.eqb (fst entry) p) (settlements b).

(** How often [resolve] or [reject] of promise [p] has been invoked. *)
Definition settledTimes (p : nat) (b : Bridge) : nat :=
  length (List.filter (fun entry => Nat.eqb (fst entry) p) (settlements b)).

Definition TIMEOUT_MS : N := 30000.

(** [call(method, params)]: the new state and the promise returned. *)
Definition call (method params : string) (b : Bridge) : Bridge * nat :=
  let p := nextPromise b in
  if negb (pythonProcess b) then
    (mkBridge (pythonProcess b) (messageId b) (pendingCalls b) (S p)
       (settlements b ++ [(p, Reject "Python process not started")])
       (timeouts b) (now b) (sent b), p)
  else
    let id := messageId b in
    (mkBridge (pythonProcess b) (S id) (<[id := p]> (pendingCalls b)) (S p)
       (settlements b) (<[id := (now b + TIMEOUT_MS)%N]> (timeouts b)) (now b)
       (sent b ++ [mkRequest id method params]), p).

(** [handleMessage(message)] *)
Definition handleMessage (message : Message) (b : Bridge) : Bridge :=
  match msg_id message with
  | None => b
  | Some id =>
      match pendingCalls b !! id with
      | None => b
      | Some p =>
          let b1 :=
            mkBridge (pythonProcess b) (messageId b) (delete id (pendingCalls b))
              (nextPromise b) (settlements b) (timeouts b) (now b) (sent b) in
          match msg_error message with
          | Some e =>
              if bool_decide (e <> "") then settle p (Reject e) b1
              else settle p (Resolve (msg_result message)) b1
          | None => settle p (Resolve (msg_result message)) b1
          end
      end
  end.

(** The callback given to [setTimeout] by the call with this [id]. *)
Definition timeoutCallback (id : nat) (b : Bridge) : Bridge :=
  match pendingCalls b !! id with
  | None => b
  | Some p =>
      settle p (Reject "Python call timeout")
        (mkBridge (pythonProcess b) (messageId b) (delete id (pendingCalls b))
           (nextPromise b) (settlements b) (timeouts b) (now b) (sent b))
  end.

(** The timeout of call [id] runs: it has to be armed and due, and it runs
    once. *)
Definition fireTimeout (id : nat) (b : Bridge) : Bridge :=
  match timeouts b !! id with
  | Some due =>
      if (due <=? now b)%N then
        timeoutCallback id
          (mkBridge (pythonProcess b) (messageId b) (pendingCalls b)
             (nextPromise b) (settlements b) (delete id (timeouts b)) (now b)
             (sent b))
      else b
  | None => b
  end.

Definition elapse (dt : N) (b : Bridge) : Bridge :=
  mkBridge (pythonProcess b) (messageId b) (pendingCalls b) (nextPromise b)
    (settlements b) (timeouts b) (now b + dt)%N (sent b).

Inductive BridgeEvent : Type :=
  | BStart
  | BStop
  | BClose
  | BCall (method params : string)
  | BMessage (message : Message)
  | BTimeout (id : nat)
  | BElapse (dt : N).

Definition bridge_step (e : BridgeEvent) (b : Bridge) : Bridge :=
  match e with
  | BStart => start b
  | BStop => stop b
  | BClose => onClose b
  | BCall method params => fst (call method params b)
  | BMessage message => handleMessage message b
  | BTimeout id => fireTimeout id b
  | BElapse dt => elapse dt b
  end.

Definition bridge_run (es : list BridgeEvent) (b : Bridge) : Bridge :=
  foldl (fun b e => bridge_step e b) b es.

(** No event of [es] is a response to call [id] or the run of its timeout. *)
Definition quiet (id : nat) (es : list BridgeEvent) : Prop :=
  Forall (fun e =>
            match e with
            | BMessage message => msg_id message <> Some id
            | BTimeout i => i <> id
            | _ => True
            end) es.

End PythonBridge.

(** ** Vocabulary of the statements *)

(** Position of a label type in the iteration order. *)
Definition typeOrder (labelType : LabelType) : nat :=
  match labelType with
  | compression_systolic_points => 0
  | compression_diastolic_points => 1
  | spontaneous_systolic_points => 2
  | spontaneous_diastolic_points => 3
  end.

(** Position [i] of the array of [labelType] holds a point within
    [TOLERANCE] of [x]. *)
Definition nearbyAt (li : LabelIndexes) (x : num) (labelType : LabelType)
    (i : nat) : Prop :=
  exists p, points li labelType !! i = Some p /\ near TOLERANCE x p = true.

(** [(labelType, i)] is the first such position: no earlier type has one,
    and the type itself has none at a smaller index. *)
Definition firstNearby (li : LabelIndexes) (x : num) (labelType : LabelType)
    (i : nat) : Prop :=
  nearbyAt li x labelType i /\
  forall labelType' j, nearbyAt li x labelType' j ->
    (typeOrder labelType < typeOrder labelType')%nat \/
    (labelType' = labelType /\ (i <= j)%nat).

(** No point of any type is within [TOLERANCE] of [x]. *)
Definition noneNearby (li : LabelIndexes) (x : num) : Prop :=
  forall labelType p, p ∈ points li labelType -> near TOLERANCE x p = false.

(** Ascending order of an array of numbers, by [<=]. *)
Definition ascending (arr : list num) : Prop :=
  StronglySorted (fun a b => (a <=? b)%js = true) arr.

(** Number of points of a record, all types together. *)
Definition pointCount (li : LabelIndexes) : nat :=
  (length (idx_compression_systolic li) + length (idx_compression_diastolic li)
   + length (idx_spontaneous_systolic li) + length (idx_spontaneous_diastolic li))%nat.

(** The arrays that toggles at integer sample indexes build: integers in
    strictly increasing order. *)
Definition intSorted (arr : list num) : Prop :=
  exists zs : list Z, arr = Int <$> zs /\ StronglySorted Z.lt zs.

(** A finite sequence of toggles, each at an integer sample index with the
    label type selected at that time. *)
Definition toggles (ops : list (Z * LabelType)) (seg : SegmentLabels)
    : SegmentLabels :=
  foldl (fun seg op => fst (togglePoint seg (Int (fst op)) (snd op))) seg ops.

(** The same sequence through the handlers: the label type is selected,
    then the toggle runs on the current segment. *)
Definition toggleSeq (ops : list (Z * LabelType)) (r : Renderer) : Renderer :=
  foldl (fun r op => toggleAt (Int (fst op)) (selectLabelType (snd op) r)) r ops.

(** [p] is out of reach of the eraser at [x]. *)
Definition far (x p : num) : bool := negb (near ERASER_TOLERANCE x p).

(** Every record that is labeled in [m] is still there, and labeled, in
    [m']. *)
Definition labeledKept (m m' : gmap string SegmentLabels) : Prop :=
  forall id seg, m !! id = Some seg -> labeled seg = true ->
    exists seg', m' !! id = Some seg' /\ labeled seg' = true.

(** The events that edit or save the labels of the open file, as opposed to
    loading the labels of another one. *)
Definition editing (e : Event) : Prop :=
  match e with
  | ELoadFile _ _ _ _ => False
  | _ => True
  end.

(** A drag-erase sweep: pointer down, pointer moves, pointer up (or leave),
    with no other event in between. *)
Definition sweep (down : Pointer) (moves : list Pointer) (r : Renderer)
    : Renderer :=
  after (handleEraserMouseUp
           (foldl (fun r ev => after (handleEraserMouseMove ev r))
              (handleEraserMouseDown down r) moves)).

(** What holds of the state [rk] in the course of a sweep that started in
    [r0]: the labels are as before the sweep, or the sweep is active, has
    removed something and the current record exists, or the sweep is over
    and the current record is labeled. *)
Definition sweepInv (r0 rk : Renderer) : Prop :=
  let id := segmentId (state r0) in
  segmentId (state rk) = id /\
  (labels (state rk) = labels (state r0)
   \/ (eraserActive (state rk) = true /\ eraserModified (state rk) = true /\
       is_Some (labels (state rk) !! id))
   \/ (eraserActive (state rk) = false /\
       exists seg', labels (state rk) !! id = Some seg' /\ labeled seg' = true)).

(** Every armed timeout is the one recorded in [state.autoSaveTimeout]. *)
Definition timersRecorded (r : Renderer) : Prop :=
  forall id due, timers r !! id = Some due ->
    autoSaveTimeout (state r) = Some id.

(** Time passing and timeouts running: the events that follow a flush when
    no further edit is made. *)
Definition timing (e : Event) : Prop :=
  match e with
  | ETimer _ _ | EAdvance _ => True
  | _ => False
  end.

(** The open file is marked done while one of its segments is flagged for
    review (the file is in the done set and in the review set). *)
Definition doneAndReview (s : State) : Prop :=
  isDone s = true /\ getSegmentsWithReview s <> [].

(** The events of a session on the files as loaded: everything but loading
    a folder or a file. *)
Definition inSession (e : Event) : Prop :=
  match e with
  | ELoadFolder _ _ _ _ | ELoadFile _ _ _ _ => False
  | _ => True
  end.

(** Every record flagged for review in [m'] was flagged in [m]. *)
Definition noNewReview (m m' : gmap string SegmentLabels) : Prop :=
  forall id seg', m' !! id = Some seg' -> review seg' = true ->
    exists seg, m !! id = Some seg /\ review seg = true.

(** What the review and done gates look at. *)
Definition markers (r : Renderer) : option string * list string * gmap string SegmentLabels :=
  (currentFile (state r), doneFiles (state r), labels (state r)).

(** The file and the done list are the same and no record is newly flagged
    for review. *)
Definition markersKept (r r' : Renderer) : Prop :=
  currentFile (state r') = currentFile (state r) /\
  doneFiles (state r') = doneFiles (state r) /\
  noNewReview (labels (state r)) (labels (state r')).

(** What holds of every state of the bridge: a pending call has an id and a
    promise that were handed out before, and its promise has not been
    settled; two pending calls never share a promise; a promise not yet
    handed out has not been settled; no promise has been settled twice; an
    armed timeout belongs to a call id handed out before. *)
Definition bridgeInv (b : PythonBridge.Bridge) : Prop :=
  (forall id p, PythonBridge.pendingCalls b !! id = Some p ->
     (id < PythonBridge.messageId b)%nat /\
     (p < PythonBridge.nextPromise b)%nat /\
     PythonBridge.settledTimes p b = 0%nat) /\
  (forall id1 id2 p,
     PythonBridge.pendingCalls b !! id1 = Some p ->
     PythonBridge.pendingCalls b !! id2 = Some p -> id1 = id2) /\
  (forall p, (PythonBridge.nextPromise b <= p)%nat ->
     PythonBridge.settledTimes p b = 0%nat) /\
  (forall p, (PythonBridge.settledTimes p b <= 1)%nat) /\
  (forall id due, PythonBridge.timeouts b !! id = Some due ->
     (id < PythonBridge.messageId b)%nat).

(** Every record that holds a point is labeled. *)
Definition wellLabeled (m : gmap string SegmentLabels) : Prop :=
  forall id seg, m !! id = Some seg ->
    (0 < pointCount (label_indexes seg))%nat -> labeled seg = true.

(** The session of the examples: a folder is opened and a file of three
    segments, sampled at 250 Hz, is loaded with the labels [stored]. *)
Definition openSession (stored : gmap string SegmentLabels) : Renderer :=
  run [ELoadFolder "recordings" true (Some []) (Some []);
       ELoadFile "patient01.csv" true
         (Some (mkFileReply (Some (Int 250)) 3)) (Some stored)]
    initialRenderer.

(** The plot of the examples: 1000 pixels wide from pixel 100 on, showing
    seconds 0 to 8, so that the pixel [100 + k] is the sample [2 k]. *)
Definition plot : Axis := mkAxis (Int 100) (Int 1000) (Int 0) (Int 8).

Definition pointerAt (shift : bool) (px : Z) : Pointer :=
  mkPointer false shift (Int px) (Int 0) (Some plot).

(** The sample index under the pointer, when the layout has an x axis and
    the time computed from the pixel is a number: what the guards of
    [handleDirectClick] and [eraseAtPositionNoUpdate] let through. *)
Definition pointerIndex (s : State) (ev : Pointer) : option num :=
  match xaxis ev with
  | Some ax =>
      if JS.isNaN (clickedTime ev ax) then None
      else Some (clickedIndex s (clickedTime ev ax))
  | None => None
  end.

(** [p] is out of reach of the eraser at each of the positions [xs]. *)
Definition farFromAll (xs : list num) (p : num) : bool :=
  List.forallb (fun x => far x p) xs.

(** Some point of the arrays [li] is within reach of the eraser at one of
    the positions [xs]. *)
Definition anyWithin (xs : list num) (li : LabelIndexes) : bool :=
  List.existsb
    (fun T => List.existsb (fun p => negb (farFromAll xs p)) (points li T))
    labelTypes.

(** Which segment of how many is shown. *)
Definition position (r : Renderer) : nat * nat :=
  (currentSegment (state r), segments (state r)).

(** [r'] differs from [r], in the labels, at most in the array of type [T]
    of the current segment and in its flag [labeled]; when the labels
    differ they are marked dirty. *)
Definition onlyType (T : LabelType) (r r' : Renderer) : Prop :=
  let id := segmentId (state r) in
  let seg := default defaultSegment (labels (state r) !! id) in
  (forall id', id' <> id -> labels (state r') !! id' = labels (state r) !! id') /\
  (forall seg', labels (state r') !! id = Some seg' ->
     (forall T', T' <> T ->
        points (label_indexes seg') T' = points (label_indexes seg) T') /\
     review seg' = review seg /\ review_note seg' = review_note seg /\
     region_note seg' = region_note seg /\
     highlighted_regions seg' = highlighted_regions seg) /\
  (labels (state r') <> labels (state r) -> labelsDirty (state r') = true).

(** The array that [findPeaks] replaces for each of its three buttons, and
    the peaks it takes from the reply. *)
Definition peakType (target : PeakTarget) : LabelType :=
  match target with
  | compression_systolic => compression_systolic_points
  | spontaneous_systolic => spontaneous_systolic_points
  | spontaneous_diastolic => spontaneous_diastolic_points
  end.

Definition peaksFor (target : PeakTarget) (peaks : Peaks) : list num :=
  match target with
  | compression_systolic | spontaneous_systolic => default [] (systolic peaks)
  | spontaneous_diastolic => default [] (diastolic peaks)
  end.

(** *** Keyboard shortcuts *)

(** [labelTypes.indexOf(labelType)] *)
Definition labelTypeIndex (labelType : LabelType) : Z :=
  match list_find (fun T => T = labelType) labelTypes with
  | Some (i, _) => Z.of_nat i
  | None => -1
  end.

(** [cycleLabelType(direction)]: the next or the previous label type, going
    round at both ends. *)
Definition cycleLabelType (direction : Z) (r : Renderer) : Renderer :=
  let currentIndex := labelTypeIndex (currentLabelType (state r)) in
  let newIndex := currentIndex + direction in
  let newIndex := if newIndex <? 0 then Z.of_nat (length labelTypes) - 1 else newIndex in
  let newIndex := if newIndex >=? Z.of_nat (length labelTypes) then 0 else newIndex in
  match labelTypes !! Z.to_nat newIndex with
  | Some labelType => selectLabelType labelType r
  | None => r   (* not reached: [newIndex] is an index of the array *)
  end.

(** [handleKeyboard]: [typing] tells whether the focus is in an input, a
    select box or a text area, [key] is [e.key], [ok] the reply to the save
    that a segment change may make.  The Tab key cycles the side panel tabs,
    which are not part of [state]. *)
Definition handleKeyboard (typing : bool) (key : string) (ok : bool)
    (r : Renderer) : Renderer :=
  if typing then r
  else
    let k := toLowerCase key in
    if bool_decide (k = "tab") then r
    else if bool_decide (k = "a") then navigateSegment (-1) ok r
    else if bool_decide (k = "d") then navigateSegment 1 ok r
    else if bool_decide (k = "w") then cycleLabelType (-1) r
    else if bool_decide (k = "s") then cycleLabelType 1 r
    else r.

(** *** Signal names *)

(** [c.toUpperCase()] on an ASCII character. *)
Definition ascii_upper (c : ascii) : ascii :=
  let n := Ascii.nat_of_ascii c in
  if ((97 <=? n) && (n <=? 122))%nat then Ascii.ascii_of_nat (n - 32) else c.

Fixpoint toUpperCase (str : string) : string :=
  match str with
  | EmptyString => EmptyString
  | String c rest => String (ascii_upper c) (toUpperCase rest)
  end.

(** [str.includes(sub)] *)
Fixpoint includes (str sub : string) : bool :=
  String.prefix sub str
  || match str with
     | EmptyString => false
     | String _ rest => includes rest sub
     end.

(** [sortSignalsArtFirst]: the five filters, concatenated. *)
Definition sortSignalsArtFirst (signalList : list string) : list string :=
  let abpMain := List.filter (fun s => bool_decide (toUpperCase s = "ABP")) signalList in
  let abpD1 := List.filter (fun s => bool_decide (toUpperCase s = "ABP_D1")) signalList in
  let abpD2 := List.filter (fun s => bool_decide (toUpperCase s = "ABP_D2")) signalList in
  let otherAbp :=
    List.filter
      (fun s => includes (toUpperCase s) "ABP"
                && bool_decide (toUpperCase s <> "ABP")
                && bool_decide (toUpperCase s <> "ABP_D1")
                && bool_decide (toUpperCase s <> "ABP_D2"))
      signalList in
  let otherSignals :=
    List.filter (fun s => negb (includes (toUpperCase s) "ABP")) signalList in
  abpMain ++ abpD1 ++ abpD2 ++ otherAbp ++ otherSignals.

(** The place of a signal in the display order: the arterial pressure, its
    first and second derivative, other arterial signals, the rest. *)
Definition signalRank (s : string) : nat :=
  let u := toUpperCase s in
  if bool_decide (u = "ABP") then 0
  else if bool_decide (u = "ABP_D1") then 1
  else if bool_decide (u = "ABP_D2") then 2
  else if includes u "ABP" then 3
  else 4.

(** The elements of rank 0, then those of rank 1, and so on up to rank 4,
    each group in the order of the list. *)
Definition ranked {A} (rank : A -> nat) (l : list A) : list A :=
  List.filter (fun a => Nat.eqb (rank a) 0) l
  ++ List.filter (fun a => Nat.eqb (rank a) 1) l
  ++ List.filter (fun a => Nat.eqb (rank a) 2) l
  ++ List.filter (fun a => Nat.eqb (rank a) 3) l
  ++ List.filter (fun a => Nat.eqb (rank a) 4) l.

(** How [handleMessage] settles the call that a message answers: an error
    that is not empty rejects, anything else resolves with the result. *)
Definition answer (message : PythonBridge.Message) : PythonBridge.Settlement :=
  match PythonBridge.msg_error message with
  | Some e =>
      if bool_decide (e <> "") then PythonBridge.Reject e
      else PythonBridge.Resolve (PythonBridge.msg_result message)
  | None => PythonBridge.Resolve (PythonBridge.msg_result message)
  end.

(** The requests handed to the transport carry the ids 0, 1, 2, ... in the
    order in which they were sent. *)
Definition requestsNumbered (b : PythonBridge.Bridge) : Prop :=
  PythonBridge.req_id <$> PythonBridge.sent b = seq 0 (PythonBridge.messageId b).

(** Every pending call has its timeout armed, due at most [TIMEOUT_MS] from
    now. *)
Definition pendingArmed (b : PythonBridge.Bridge) : Prop :=
  forall id p, PythonBridge.pendingCalls b !! id = Some p ->
    exists due, PythonBridge.timeouts b !! id = Some due /\
                (due <= PythonBridge.now b + PythonBridge.TIMEOUT_MS)%N.

(** *** The standard output of the bundled backend

    [startProduction] reads the standard output of the backend in chunks,
    decodes each chunk by itself and cuts the text into lines; each complete
    line that is not blank is parsed and handed to [handleMessage].  A chunk
    is the list of the bytes of its [Buffer]; text is a list of UTF-16 code
    units. *)
Module Stdout.

Definition Buffer : Type := list N.

Definition text : Type := list N.

(** The code unit of ['\n']. *)
Definition NL : N := 10.

(** U+FFFD, which the decoder puts in the place of bytes that are no
    UTF-8. *)
Definition REPLACEMENT : N := 65533.

(** The decoder inside a character: the code point read so far, the number
    of continuation bytes still to come, and the bounds of the next one. *)
Record Pending : Type := mkPending {
  code_point : N;
  bytes_needed : nat;
  lower_boundary : N;
  upper_boundary : N
}.

(** A byte read between two characters. *)
Definition lead (b : N) : option Pending * list N :=
  if (b <=? 127)%N then (None, [b])
  else if ((194 <=? b) && (b <=? 223))%N then
    (Some (mkPending (N.land b 31) 1 128 191), [])
  else if ((224 <=? b) && (b <=? 239))%N then
    (Some (mkPending (N.land b 15) 2
             (if (b =? 224)%N then 160%N else 128%N)
             (if (b =? 237)%N then 159%N else 191%N)), [])
  else if ((240 <=? b) && (b <=? 244))%N then
    (Some (mkPending (N.land b 7) 3
             (if (b =? 240)%N then 144%N else 128%N)
             (if (b =? 244)%N then 143%N else 191%N)), [])
  else (None, [REPLACEMENT]).

(** One byte through the UTF-8 decoder: the state that follows and the code
    points put out.  A byte that cannot continue the character ends it with
    a replacement character and is read again as the start of the next. *)
Definition decodeByte (st : option Pending) (b : N) : option Pending * list N :=
  match st with
  | None => lead b
  | Some p =>
      if ((lower_boundary p <=? b) && (b <=? upper_boundary p))%N then
        let cp := N.lor (N.shiftl (code_point p) 6) (N.land b 63) in
        match bytes_needed p with
        | S (S n) => (Some (mkPending cp (S n) 128 191), [])
        | _ => (None, [cp])
        end
      else
        let '(st', out) := lead b in (st', REPLACEMENT :: out)
  end.

(** The code points of a run of bytes; a character cut short by the end of
    the bytes gives a replacement character. *)
Fixpoint decode (st : option Pending) (bytes : list N) : list N :=
  match bytes with
  | [] => match st with None => [] | Some _ => [REPLACEMENT] end
  | b :: rest =>
      let '(st', out) := decodeByte st b in
      out ++ decode st' rest
  end.

(** The code units of a code point. *)
Definition utf16 (cp : N) : list N :=
  if (cp <? 65536)%N then [cp]
  else
    let c := (cp - 65536)%N in
    [(55296 + N.shiftr c 10)%N; (56320 + N.land c 1023)%N].

(** [data.toString()]: the bytes of the chunk read as UTF-8. *)
Definition toString (data : Buffer) : text :=
  flat_map utf16 (decode None data).

(** [s.split('\n')]: the pieces between the line feeds, never an empty
    array. *)
Fixpoint split (s : text) : list text :=
  match s with
  | [] => [[]]
  | c :: rest =>
      if (c =? NL)%N then [] :: split rest
      else match split rest with
           | line :: lines => (c :: line) :: lines
           | [] => [[c]]
           end
  end.

(** The white space and line terminators that [trim] removes. *)
Definition isWhiteSpace (c : N) : bool :=
  ((9 <=? c) && (c <=? 13) || (c =? 32) || (c =? 160) || (c =? 5760)
   || (8192 <=? c) && (c <=? 8202) || (c =? 8232) || (c =? 8233)
   || (c =? 8239) || (c =? 8287) || (c =? 12288) || (c =? 65279))%N.

Fixpoint trimStart (s : text) : text :=
  match s with
  | c :: rest => if isWhiteSpace c then trimStart rest else s
  | [] => []
  end.

(** [s.trim()] *)
Definition trim (s : text) : text := rev (trimStart (rev (trimStart s))).

(** The variable [buffer] of [startProduction], beside the bridge. *)
Record Reader : Type := mkReader {
  buffer : text;
  bridge : PythonBridge.Bridge
}.

Section OnData.
(** [JSON.parse] followed by the reading of the fields of a message;
    [None] where the [try] block throws: the line is no JSON text, or it
    is the text [null], which has no field [id]. *)
Variable JSON_parse : text -> option PythonBridge.Message.

(** The body of the loop over the lines. *)
Definition deliver (b : PythonBridge.Bridge) (line : text) : PythonBridge.Bridge :=
  if bool_decide (trim line <> []) then
    match JSON_parse line with
    | Some message => PythonBridge.handleMessage message b
    | None => b
    end
  else b.

(** The listener of [stdout.on('data', ...)]. *)
Definition onData (data : Buffer) (st : Reader) : Reader :=
  let buffer := buffer st ++ toString data in
  let lines := split buffer in
  let buffer := List.last lines [] in
  let lines := List.removelast lines in
  mkReader buffer (foldl deliver (bridge st) lines).
End OnData.

(** The decoder after the bytes of a chunk: [None] when the chunk ends
    between two characters. *)
Fixpoint pendingAfter (st : option Pending) (bytes : list N) : option Pending :=
  match bytes with
  | [] => st
  | b :: rest => pendingAfter (fst (decodeByte st b)) rest
  end.

End Stdout.

(** ** Numbers: facts used below *)

Lemma near_Int (t x p : Z) :
  near (Int t) (Int x) (Int p) = (Z.abs (p - x) <=? t)%Z.
Proof.
  unfold near, JS.le, JS.abs, JS.sub, JS.add, JS.opp, JS.Int, Qle_bool. simpl.
  by rewrite !Z.mul_1_r.
Qed.

Lemma near_Int_self (x : Z) : near TOLERANCE (Int x) (Int x) = true.
Proof. unfold TOLERANCE. rewrite near_Int. apply Z.leb_le. lia. Qed.

Lemma gt_sub_Int (a b : Z) : (Int a - Int b >? Int 0)%js = (b <? a)%Z.
Proof.
  unfold JS.gt, JS.sub, JS.add, JS.opp, JS.Int, Qle_bool. simpl.
  rewrite !Z.mul_1_r.
  destruct (Z.leb_spec (a + - b) 0), (Z.ltb_spec b a); simpl; try reflexivity; lia.
Qed.

Lemma le_Int (a b : Z) : (Int a <=? Int b)%js = (a <=? b)%Z.
Proof. unfold JS.le, JS.Int, Qle_bool. simpl. by rewrite !Z.mul_1_r. Qed.

(** Where [a <= b] holds the comparator [a - b] is not positive, so the sort
    keeps [a] in front of [b]. *)
Lemma le_keeps_front (a b : num) :
  (a <=? b)%js = true -> (a - b >? Int 0)%js = false.
Proof.
  unfold JS.gt, JS.le, JS.sub, JS.add, JS.opp, JS.Int.
  destruct a as [|[]|p], b as [|[]|q]; simpl; try done.
  intros H%Qle_bool_iff. apply negb_false_iff, Qle_bool_iff.
  change (inject_Z 0) with 0%Q. lra.
Qed.

Lemma gt_moves_back (a b : num) :
  JS.isNaN a = false -> JS.isNaN b = false ->
  (a - b >? Int 0)%js = true -> (b <=? a)%js = true.
Proof.
  unfold JS.gt, JS.le, JS.sub, JS.add, JS.opp, JS.Int.
  destruct a as [|[]|p], b as [|[]|q]; simpl; try done.
  intros _ _ H%negb_true_iff. change (inject_Z 0) with 0%Q in H.
  apply Qle_bool_iff. destruct (Qlt_le_dec q p) as [Hlt|Hle]; [lra|].
  assert (Qle_bool (p + - q) 0 = true) as E by (apply Qle_bool_iff; lra).
  congruence.
Qed.

Lemma not_gt_le (a b : num) :
  JS.isNaN a = false -> JS.isNaN b = false ->
  (a - b >? Int 0)%js = false -> (a <=? b)%js = true.
Proof.
  unfold JS.gt, JS.le, JS.sub, JS.add, JS.opp, JS.Int.
  destruct a as [|[]|p], b as [|[]|q]; simpl; try done.
  intros _ _ H%negb_false_iff. change (inject_Z 0) with 0%Q in H.
  apply Qle_bool_iff in H. apply Qle_bool_iff. lra.
Qed.

Lemma le_trans (a b c : num) :
  (a <=? b)%js = true -> (b <=? c)%js = true -> (a <=? c)%js = true.
Proof.
  destruct a as [|[]|p], b as [|[]|q], c as [|[]|r]; simpl; try done.
  intros H1%Qle_bool_iff H2%Qle_bool_iff. apply Qle_bool_iff. lra.
Qed.

Lemma le_not_NaN (a b : num) :
  (a <=? b)%js = true -> JS.isNaN a = false /\ JS.isNaN b = false.
Proof. by destruct a as [|[]|p], b as [|[]|q]. Qed.

(** ** Arrays: facts used below *)

Lemma findIndex_Some (p : num -> bool) (arr : list num) (i : nat) :
  findIndex p arr = Some i <->
  exists x, arr !! i = Some x /\ p x = true /\
    forall j y, (j < i)%nat -> arr !! j = Some y -> p y = false.
Proof.
  revert i. induction arr as [|a arr IH]; intros i; simpl.
  - split; [done|]. by intros (x & ? & _).
  - destruct (p a) eqn:Ha.
    + split.
      * intros [= <-]. exists a. repeat split; [done|]. intros j y Hj. lia.
      * intros (x & Hx & Hpx & Hmin). destruct i as [|i]; [done|].
        specialize (Hmin 0%nat a ltac:(lia) eq_refl). congruence.
    + destruct (findIndex p arr) as [k|].
      * split.
        -- intros [= <-]. destruct (proj1 (IH k) eq_refl) as (x & Hx & Hpx & Hmin).
           exists x. repeat split; [done..|].
           intros [|j] y Hj Hy; simplify_eq/=; [done|]. eapply Hmin; [|done]. lia.
        -- intros (x & Hx & Hpx & Hmin). destruct i as [|i]; simplify_eq/=;
             [congruence|].
           assert (Some k = Some i) as [= ->]; [|done].
           apply IH. exists x. repeat split; [done..|].
           intros j y Hj Hy. apply (Hmin (S j) y); [lia|done].
      * split; [done|]. intros (x & Hx & Hpx & Hmin).
        destruct i as [|i]; simplify_eq/=; [congruence|].
        assert (@None nat = Some i) as E; [|done].
        apply IH. exists x. repeat split; [done..|].
        intros j y Hj Hy. apply (Hmin (S j) y); [lia|done].
Qed.

Lemma findIndex_None (p : num -> bool) (arr : list num) :
  findIndex p arr = None <-> forall x, x ∈ arr -> p x = false.
Proof.
  induction arr as [|a arr IH]; simpl.
  - split; [|done]. intros _ x Hx. by apply not_elem_of_nil in Hx.
  - destruct (p a) eqn:Ha.
    + split; [done|]. intros H. rewrite H in Ha; [done|]. by left.
    + destruct (findIndex p arr) as [k|].
      * split; [done|]. intros H. exfalso.
        assert (Some k = @None nat) as E; [|done].
        apply IH. intros x Hx. apply H. by right.
      * split; [|done]. intros _ x [->|Hx]%elem_of_cons; [done|]. by apply IH.
Qed.

Lemma points_set_points_eq (li : LabelIndexes) (labelType : LabelType)
    (arr : list num) :
  points (set_points li labelType arr) labelType = arr.
Proof. by destruct labelType. Qed.

Lemma points_set_points_ne (li : LabelIndexes) (labelType labelType' : LabelType)
    (arr : list num) :
  labelType' <> labelType ->
  points (set_points li labelType arr) labelType' = points li labelType'.
Proof. by destruct labelType, labelType'. Qed.

Lemma set_points_id (li : LabelIndexes) (labelType : LabelType) :
  set_points li labelType (points li labelType) = li.
Proof. by destruct li, labelType. Qed.

Lemma set_points_twice (li : LabelIndexes) (labelType : LabelType)
    (arr arr' : list num) :
  set_points (set_points li labelType arr) labelType arr'
  = set_points li labelType arr'.
Proof. by destruct labelType. Qed.

Lemma labelTypes_complete (labelType : LabelType) : labelType ∈ labelTypes.
Proof. destruct labelType; unfold labelTypes; set_solver. Qed.

(** The search loop finds nothing exactly when no listed type has a point
    near the index. *)
Lemma removeNearby_None (types : list LabelType) (li : LabelIndexes) (x : num) :
  removeNearby types li x = None <->
  forall labelType p, labelType ∈ types -> p ∈ points li labelType ->
    near TOLERANCE x p = false.
Proof.
  induction types as [|T types IH]; simpl.
  - split; [|done]. intros _ T p HT. by apply not_elem_of_nil in HT.
  - destruct (findIndex _ (points li T)) as [i|] eqn:Hi.
    + split; [done|]. intros H.
      apply findIndex_Some in Hi as (p & Hp & Hnear & _).
      rewrite (H T p) in Hnear; [done| by left |].
      by eapply list_elem_of_lookup_2.
    + rewrite IH. rewrite findIndex_None in Hi. split.
      * intros H T' p [->|HT']%elem_of_cons Hp; [by apply Hi | by apply (H T' p)].
      * intros H T' p HT' Hp. apply (H T' p); [by right|done].
Qed.

(** When it finds something, the array it edits is the first one, in the
    order of [types], that has a nearby point, and the point it removes is
    the first nearby one of that array. *)
Lemma removeNearby_Some (types : list LabelType) (li li' : LabelIndexes) (x : num) :
  removeNearby types li x = Some li' ->
  exists pre labelType post i,
    types = pre ++ labelType :: post /\
    (forall labelType' p, labelType' ∈ pre -> p ∈ points li labelType' ->
       near TOLERANCE x p = false) /\
    findIndex (near TOLERANCE x) (points li labelType) = Some i /\
    li' = set_points li labelType (delete i (points li labelType)).
Proof.
  induction types as [|T types IH]; simpl; [done|].
  destruct (findIndex _ (points li T)) as [i|] eqn:Hi.
  - intros [= <-]. exists [], T, types, i. repeat split; [|done].
    intros T' p HT'. by apply not_elem_of_nil in HT'.
  - intros (pre & T0 & post & i & -> & Hpre & Hfind & ->)%IH.
    exists (T :: pre), T0, post, i. repeat split; [|done].
    intros T' p [->|HT']%elem_of_cons Hp; [|by apply (Hpre T' p)].
    rewrite findIndex_None in Hi. by apply Hi.
Qed.

Lemma labelTypes_split (pre post : list LabelType) (labelType : LabelType) :
  labelTypes = pre ++ labelType :: post ->
  forall labelType', labelType' ∈ pre \/
    (typeOrder labelType <= typeOrder labelType')%nat.
Proof.
  unfold labelTypes. intros H T'.
  destruct pre as [|a [|b [|c [|d pre]]]]; simplify_eq/=.
  - right. lia.
  - destruct T'; simpl; first [left; set_solver | right; lia].
  - destruct T'; simpl; first [left; set_solver | right; lia].
  - destruct T'; simpl; first [left; set_solver | right; lia].
  - by destruct pre.
Qed.

Lemma typeOrder_inj (a b : LabelType) : typeOrder a = typeOrder b -> a = b.
Proof. by destruct a, b. Qed.

(** On the four label types the loop removes the first nearby point. *)
Lemma removeNearby_first (li li' : LabelIndexes) (x : num) :
  removeNearby labelTypes li x = Some li' ->
  exists labelType i,
    firstNearby li x labelType i /\
    li' = set_points li labelType (delete i (points li labelType)).
Proof.
  intros (pre & T & post & i & Hsplit & Hpre & Hfind & ->)%removeNearby_Some.
  exists T, i. split; [|done].
  apply findIndex_Some in Hfind as (p & Hp & Hnear & Hmin).
  split; [by exists p|].
  intros T' j (q & Hq & Hqnear).
  destruct (labelTypes_split _ _ _ Hsplit T') as [Hin|Hord].
  - rewrite (Hpre T' q Hin) in Hqnear; [done|]. by eapply list_elem_of_lookup_2.
  - destruct (decide (T' = T)) as [->|Hne].
    + right. split; [done|]. destruct (decide (i <= j)%nat); [done|].
      rewrite (Hmin j q) in Hqnear; [done|lia|done].
    + left. assert (typeOrder T <> typeOrder T') by (intros ?%typeOrder_inj; done). lia.
Qed.

Lemma removeNearby_none (li : LabelIndexes) (x : num) :
  removeNearby labelTypes li x = None <-> noneNearby li x.
Proof.
  rewrite removeNearby_None. unfold noneNearby. split.
  - intros H T p. apply (H T p), labelTypes_complete.
  - intros H T p _. apply (H T p).
Qed.

Lemma firstNearby_not_none (li : LabelIndexes) (x : num) (labelType : LabelType) (i : nat) :
  firstNearby li x labelType i -> ~ noneNearby li x.
Proof.
  intros [(p & Hp & Hnear) _] Hnone.
  rewrite (Hnone labelType p) in Hnear; [done|]. by eapply list_elem_of_lookup_2.
Qed.

(** ** Sorting *)

Lemma insert_asc_perm (a : num) (arr : list num) :
  Permutation (insert_asc a arr) (a :: arr).
Proof.
  induction arr as [|b arr IH]; simpl; [done|].
  destruct (a - b >? Int 0)%js; [|done].
  rewrite IH. apply perm_swap.
Qed.

Lemma sort_asc_perm (arr : list num) : Permutation (sort_asc arr) arr.
Proof.
  induction arr as [|a arr IH]; simpl; [done|].
  unfold sort_asc in *. simpl. rewrite insert_asc_perm. by constructor.
Qed.

Lemma insert_asc_ascending (a : num) (arr : list num) :
  JS.isNaN a = false -> Forall (fun b => JS.isNaN b = false) arr ->
  ascending arr -> ascending (insert_asc a arr).
Proof.
  unfold ascending. intros Ha. induction arr as [|b arr IH]; simpl; intros Hnan Hasc.
  - repeat constructor.
  - apply Forall_cons in Hnan as [Hb Hnan].
    apply StronglySorted_inv in Hasc as [Hasc Hall].
    destruct (a - b >? Int 0)%js eqn:Hgt.
    + constructor; [by apply IH|].
      rewrite insert_asc_perm. constructor; [|done]. by apply gt_moves_back.
    + assert ((a <=? b)%js = true) as Hab by by apply not_gt_le.
      constructor; [by constructor|].
      constructor; [done|]. eapply Forall_impl; [exact Hall|].
      intros c Hc. by eapply le_trans.
Qed.

(** On an array without [NaN] the sort returns the ascending arrangement of
    its elements. *)
Lemma sort_asc_ascending (arr : list num) :
  Forall (fun b => JS.isNaN b = false) arr -> ascending (sort_asc arr).
Proof.
  induction arr as [|a arr IH]; intros Hnan; [constructor|].
  apply Forall_cons in Hnan as [Ha Hnan]. unfold sort_asc in *. simpl.
  apply insert_asc_ascending; [done| |by apply IH].
  eapply Permutation_Forall; [|exact Hnan].
  symmetry. apply (sort_asc_perm arr).
Qed.

Lemma sort_asc_snoc (arr : list num) (x : num) :
  sort_asc (arr ++ [x]) = foldr insert_asc [x] arr.
Proof. unfold sort_asc. by rewrite foldr_app. Qed.

(** Pushing [x] on an ascending array and sorting puts [x] between the
    elements that the comparator keeps in front of it and those that it
    moves behind it; nothing else moves. *)
Lemma sort_push (arr : list num) (x : num) :
  ascending arr ->
  exists front back,
    arr = front ++ back /\
    sort_asc (arr ++ [x]) = front ++ x :: back /\
    Forall (fun a => (a - x >? Int 0)%js = false) front /\
    Forall (fun a => (a - x >? Int 0)%js = true) back.
Proof.
  rewrite sort_asc_snoc. unfold ascending.
  induction arr as [|a arr IH]; intros Hasc; simpl.
  - by exists [], [].
  - apply StronglySorted_inv in Hasc as [Hasc Hall].
    destruct (IH Hasc) as (front & back & -> & -> & Hfront & Hback).
    destruct front as [|b front]; simpl in *.
    + destruct (a - x >? Int 0)%js eqn:Hgt.
      * exists [], (a :: back). repeat split; [|done|by constructor].
        destruct back as [|c back]; simpl; [done|].
        apply Forall_cons in Hall as [Hac _].
        by rewrite (le_keeps_front _ _ Hac).
      * exists [a], back. repeat split; [|done]. by constructor.
    + apply Forall_cons in Hall as [Hab _].
      rewrite (le_keeps_front _ _ Hab).
      exists (a :: b :: front), back. repeat split; [|done].
      constructor; [|done]. apply Forall_cons in Hfront as [Hbx _].
      destruct (le_not_NaN _ _ Hab) as [Ha Hb].
      destruct x as [| |]; [by destruct a as [|[]|]|..].
      * apply le_keeps_front. eapply le_trans; [exact Hab|].
        by apply not_gt_le.
      * apply le_keeps_front. eapply le_trans; [exact Hab|].
        by apply not_gt_le.
Qed.

(** ** The point toggle *)

Lemma togglePoint_found (seg : SegmentLabels) (x : num) (labelType : LabelType)
    (li' : LabelIndexes) :
  removeNearby labelTypes (label_indexes seg) x = Some li' ->
  togglePoint seg x labelType
  = (set_labeled true (set_label_indexes li' seg), true).
Proof. unfold togglePoint. by intros ->. Qed.

Lemma togglePoint_fresh (seg : SegmentLabels) (x : num) (labelType : LabelType) :
  removeNearby labelTypes (label_indexes seg) x = None ->
  togglePoint seg x labelType
  = (set_labeled true
       (set_label_indexes
          (set_points (label_indexes seg) labelType
             (sort_asc (points (label_indexes seg) labelType ++ [x]))) seg),
     false).
Proof. unfold togglePoint. by intros ->. Qed.

(** What the toggle does to a record. *)
Lemma togglePoint_spec (seg : SegmentLabels) (x : num) (labelType : LabelType) :
  let li := label_indexes seg in
  let seg' := fst (togglePoint seg x labelType) in
  let foundAndRemoved := snd (togglePoint seg x labelType) in
  labeled seg' = true /\
  ((foundAndRemoved = true /\
    exists labelType0 i,
      firstNearby li x labelType0 i /\
      label_indexes seg'
      = set_points li labelType0 (delete i (points li labelType0)))
   \/
   (foundAndRemoved = false /\
    noneNearby li x /\
    label_indexes seg'
    = set_points li labelType (sort_asc (points li labelType ++ [x])))).
Proof.
  simpl. destruct (removeNearby labelTypes (label_indexes seg) x) as [li'|] eqn:H.
  - rewrite (togglePoint_found _ _ _ _ H). simpl. split; [done|]. left.
    split; [done|]. apply removeNearby_first in H as (T0 & i & Hfirst & ->).
    by exists T0, i.
  - rewrite (togglePoint_fresh _ _ _ H). simpl. split; [done|]. right.
    split; [done|]. split; [|done]. by apply removeNearby_none.
Qed.

Lemma length_delete_lookup {A} (l : list A) (i : nat) (x : A) :
  l !! i = Some x -> S (length (delete i l)) = length l.
Proof.
  intros H. rewrite length_delete; [|by eexists].
  apply lookup_lt_Some in H. lia.
Qed.

Lemma pointCount_set_points (li : LabelIndexes) (labelType : LabelType)
    (arr : list num) :
  (pointCount (set_points li labelType arr) + length (points li labelType)
   = pointCount li + length arr)%nat.
Proof. destruct li, labelType; unfold pointCount; simpl; lia. Qed.

(** The toggle of the window's state, on a record in the order of the
    literal.  The click at sample index [x] with current label type [T]
    scans the four types in the order of [labelTypes] for a point within
    [TOLERANCE] of [x].  If there is one, exactly the first such point (by
    type order, then array order) is removed and nothing is inserted;
    otherwise [x] is pushed on the array of [T], which is sorted ascending;
    either way [labeled] of the segment becomes [true].  Records of other
    segments are not touched. *)
Lemma toggleAt_removes_first_or_inserts (r : Renderer) (x : num) :
  let s := state r in
  let id := segmentId s in
  let T := currentLabelType s in
  let li := label_indexes (default defaultSegment (labels s !! id)) in
  exists seg',
    labels (state (toggleAt x r)) = <[id := seg']> (labels s) /\
    labeled seg' = true /\
    ((exists T0 i,
        firstNearby li x T0 i /\
        points (label_indexes seg') T0 = delete i (points li T0) /\
        (forall T', T' <> T0 ->
           points (label_indexes seg') T' = points li T') /\
        S (pointCount (label_indexes seg')) = pointCount li)
     \/
     (noneNearby li x /\
      points (label_indexes seg') T = sort_asc (points li T ++ [x]) /\
      Permutation (points (label_indexes seg') T) (x :: points li T) /\
      (Forall (fun p => JS.isNaN p = false) (x :: points li T) ->
         ascending (points (label_indexes seg') T)) /\
      (forall T', T' <> T ->
         points (label_indexes seg') T' = points li T'))).
Proof.
  simpl. set (s := state r). set (id := segmentId s).
  set (seg := default defaultSegment (labels s !! id)).
  exists (fst (togglePoint seg x (currentLabelType s))).
  split; [done|].
  destruct (togglePoint_spec seg x (currentLabelType s))
    as [Hlab [(_ & T0 & i & Hfirst & Hli)|(_ & Hnone & Hli)]].
  - split; [done|]. left. exists T0, i. rewrite Hli.
    split; [done|]. split; [by rewrite points_set_points_eq|].
    split; [intros T' HT'; by rewrite points_set_points_ne|].
    destruct Hfirst as [(p & Hp & _) _].
    pose proof (pointCount_set_points (label_indexes seg) T0
                  (delete i (points (label_indexes seg) T0))) as Hc.
    pose proof (length_delete_lookup _ _ _ Hp). lia.
  - split; [done|]. right. rewrite Hli, points_set_points_eq.
    split; [done|]. split; [done|]. split.
    { rewrite sort_asc_perm. symmetry. apply Permutation_cons_append. }
    split.
    { intros Hnan. apply sort_asc_ascending.
      eapply Permutation_Forall; [|exact Hnan]. apply Permutation_cons_append. }
    intros T' HT'. by rewrite points_set_points_ne.
Qed.

(** ** The toggle on the stored object *)

Lemma removeNearbyIn_None (obj : LabelObject) (x : num) :
  removeNearbyIn obj x = None <-> noneNearbyIn obj x.
Proof.
  unfold noneNearbyIn. induction obj as [|[k arr] obj IH]; simpl.
  - split; [|done]. intros _ key a p H. by apply not_elem_of_nil in H.
  - destruct (findIndex _ arr) as [i|] eqn:Hi.
    + split; [done|]. intros H.
      apply findIndex_Some in Hi as (p & Hp & Hnear & _).
      rewrite (H k arr p) in Hnear; [done|by left|].
      by eapply list_elem_of_lookup_2.
    + rewrite findIndex_None in Hi.
      destruct (removeNearbyIn obj x) as [obj'|].
      * split; [done|]. intros H. exfalso.
        assert (Some obj' = @None LabelObject) as E; [|done].
        apply IH. intros key a p Hin. apply (H key a p). by right.
      * split; [|done]. intros _ key a p [[= -> ->]|Hin]%elem_of_cons Hp.
        -- by apply Hi.
        -- by apply (proj1 IH eq_refl key a p).
Qed.

Lemma removeNearbyIn_Some (obj obj' : LabelObject) (x : num) :
  removeNearbyIn obj x = Some obj' ->
  exists front key arr i back,
    obj = front ++ (key, arr) :: back /\
    noneNearbyIn front x /\
    findIndex (near TOLERANCE x) arr = Some i /\
    obj' = front ++ (key, delete i arr) :: back.
Proof.
  revert obj'. induction obj as [|[k arr] obj IH]; intros obj'; simpl; [done|].
  destruct (findIndex _ arr) as [i|] eqn:Hi.
  - intros [= <-]. exists [], k, arr, i, obj. repeat split; [|done].
    intros key a p H. by apply not_elem_of_nil in H.
  - destruct (removeNearbyIn obj x) as [rest'|] eqn:Hrest; [|done].
    intros [= <-].
    destruct (IH rest' eq_refl) as (front & key & a & i & back & -> & Hfront & Hfound & ->).
    exists ((k, arr) :: front), key, a, i, back. repeat split; [|done].
    rewrite findIndex_None in Hi.
    intros key' a' p [[= -> ->]|Hin]%elem_of_cons Hp; [by apply Hi|].
    by apply (Hfront key' a' p).
Qed.

Lemma getArray_None (obj : LabelObject) (key : string) :
  getArray obj key = None <-> key ∉ obj.*1.
Proof.
  induction obj as [|[k arr] obj IH]; simpl.
  - split; [|done]. intros _. apply not_elem_of_nil.
  - case_bool_decide as Hk.
    + split; [done|]. intros H. exfalso. apply H. subst. by left.
    + rewrite IH. simpl. rewrite not_elem_of_cons. split; [by split|by intros [_ ?]].
Qed.

Lemma getArray_Some (obj : LabelObject) (key : string) (arr : list num) :
  getArray obj key = Some arr ->
  exists front back,
    obj = front ++ (key, arr) :: back /\ (key ∉ front.*1) /\
    forall arr', setArray obj key arr' = front ++ (key, arr') :: back.
Proof.
  induction obj as [|[k a] obj IH]; simpl; [done|].
  case_bool_decide as Hk.
  - intros [= ->]. subst k. exists [], obj. split; [done|].
    split; [apply not_elem_of_nil|done].
  - intros H. destruct (IH H) as (front & back & -> & Hfront & Hset).
    exists ((k, a) :: front), back. split; [done|]. split.
    + simpl. apply not_elem_of_cons. split; [congruence|done].
    + intros arr'. simpl. by rewrite Hset.
Qed.

(** On the object of a record in the order of the literal, the loop is the
    search in the fixed order of [labelTypes]. *)
Lemma removeNearbyIn_objectOf (li : LabelIndexes) (x : num) :
  removeNearbyIn (objectOf li) x = objectOf <$> removeNearby labelTypes li x.
Proof.
  destruct li as [a b c d]. unfold objectOf, labelTypes. simpl.
  destruct (findIndex _ a); [done|]. destruct (findIndex _ b); [done|].
  destruct (findIndex _ c); [done|]. by destruct (findIndex _ d).
Qed.

Lemma getArray_objectOf (li : LabelIndexes) (labelType : LabelType) :
  getArray (objectOf li) (typeName labelType) = Some (points li labelType).
Proof. by destruct labelType. Qed.

Lemma setArray_objectOf (li : LabelIndexes) (labelType : LabelType) (arr : list num) :
  setArray (objectOf li) (typeName labelType) arr
  = objectOf (set_points li labelType arr).
Proof. by destruct li, labelType. Qed.

Lemma togglePointIn_storedOf (seg : SegmentLabels) (x : num) (T : LabelType) :
  togglePointIn (storedOf seg) x T
  = Some (storedOf (fst (togglePoint seg x T)), snd (togglePoint seg x T)).
Proof.
  unfold togglePointIn, togglePoint, storedOf.
  cbn [stored_label_indexes]. rewrite removeNearbyIn_objectOf.
  destruct (removeNearby labelTypes (label_indexes seg) x) as [li'|]; [done|].
  cbn [fmap option_fmap option_map]. by rewrite getArray_objectOf, setArray_objectOf.
Qed.



(** The record holds the point 20 of the first type and the point 18 of the
    second one.  A toggle at 19 with the third type selected removes 20, the
    first match in type order, and inserts nothing; a toggle at 30 finds no
    point nearby and inserts 30 in the array of the selected type. *)
Example toggle_first_in_type_order :
  let stored : gmap string SegmentLabels :=
    {[ "0" := mkSegmentLabels false false
                (mkLabelIndexes [Int 20] [Int 18] [] []) "" "" None ]} in
  let r := selectLabelType spontaneous_systolic_points (openSession stored) in
  labels (state (toggleAt (Int 19) r)) !! "0"
  = Some (mkSegmentLabels true false (mkLabelIndexes [] [Int 18] [] []) "" "" None) /\
  labels (state (toggleAt (Int 30) r)) !! "0"
  = Some (mkSegmentLabels true false
            (mkLabelIndexes [Int 20] [Int 18] [Int 30] []) "" "" None).
Proof. by vm_compute. Qed.

(** ** Toggling twice *)

Lemma firstNearby_unique (li : LabelIndexes) (x : num) (T T' : LabelType)
    (i j : nat) :
  firstNearby li x T i -> firstNearby li x T' j -> T = T' /\ i = j.
Proof.
  intros [Hn Hmin] [Hn' Hmin'].
  destruct (Hmin _ _ Hn') as [Hlt|[-> Hle]];
    destruct (Hmin' _ _ Hn) as [Hlt'|[E Hle']]; subst; try lia.
  split; [done|lia].
Qed.

(** After [x] was pushed on the ascending array of [T], with no point near
    it, the first nearby point is [x] itself. *)
Lemma firstNearby_pushed (li : LabelIndexes) (x : num) (T : LabelType)
    (front back : list num) :
  noneNearby li x -> near TOLERANCE x x = true ->
  points li T = front ++ back ->
  firstNearby (set_points li T (front ++ x :: back)) x T (length front).
Proof.
  intros Hnone Hself Hsplit. split.
  - exists x. rewrite points_set_points_eq. split; [|done].
    by rewrite list_lookup_middle.
  - intros T' j (p & Hp & Hnear).
    destruct (decide (T' = T)) as [->|Hne].
    + right. split; [done|]. rewrite points_set_points_eq in Hp.
      destruct (decide (length front <= j)%nat); [done|].
      rewrite lookup_app_l in Hp by lia.
      rewrite (Hnone T p) in Hnear; [done|]. rewrite Hsplit.
      apply elem_of_app. left. by eapply list_elem_of_lookup_2.
    + rewrite points_set_points_ne in Hp by done.
      rewrite (Hnone T' p) in Hnear; [done|]. by eapply list_elem_of_lookup_2.
Qed.

Lemma toggle_twice (seg : SegmentLabels) (x : num) (T : LabelType) :
  noneNearby (label_indexes seg) x -> near TOLERANCE x x = true ->
  ascending (points (label_indexes seg) T) ->
  snd (togglePoint seg x T) = false /\
  snd (togglePoint (fst (togglePoint seg x T)) x T) = true /\
  label_indexes (fst (togglePoint (fst (togglePoint seg x T)) x T))
  = label_indexes seg.
Proof.
  intros Hnone Hself Hasc.
  rewrite (togglePoint_fresh seg x T) by by apply removeNearby_none.
  simpl. split; [done|].
  destruct (sort_push _ x Hasc) as (front & back & Hsplit & -> & _ & _).
  set (seg1 := set_labeled true (set_label_indexes _ seg)).
  pose proof (firstNearby_pushed _ x T front back Hnone Hself Hsplit) as Hfirst.
  destruct (togglePoint_spec seg1 x T)
    as [_ [(-> & T0 & i & Hfirst' & ->)|(_ & Hnone' & _)]].
  - split; [done|].
    destruct (firstNearby_unique _ _ _ _ _ _ Hfirst Hfirst') as [<- <-].
    subst seg1. simpl. rewrite points_set_points_eq, delete_middle.
    rewrite set_points_twice, <- Hsplit. apply set_points_id.
  - by destruct (firstNearby_not_none _ _ _ _ Hfirst).
Qed.

Lemma toggleAt_state (x : num) (r : Renderer) :
  let s := state r in
  let id := segmentId s in
  let seg := default defaultSegment (labels s !! id) in
  segmentId (state (toggleAt x r)) = id /\
  currentLabelType (state (toggleAt x r)) = currentLabelType s /\
  labels (state (toggleAt x r))
  = <[id := fst (togglePoint seg x (currentLabelType s))]> (labels s).
Proof. done. Qed.

(** C5, as the code has it.  When no point of any type lies within
    [TOLERANCE] of the sample index [x] and the array of the current type
    [T] is ascending, two consecutive toggles at [x] first add the point,
    with [foundAndRemoved = false], and then remove it, with
    [foundAndRemoved = true]; the four point lists of the segment are then
    what they were before the first toggle.  The order of the array is
    needed: the first toggle sorts it, and an array that a detection stored
    unsorted comes back sorted. *)
Theorem C5_toggle_twice_restores (r : Renderer) (x : Z) :
  let s := state r in
  let id := segmentId s in
  let T := currentLabelType s in
  let seg := default defaultSegment (labels s !! id) in
  let first := togglePoint seg (Int x) T in
  let second := togglePoint (fst first) (Int x) T in
  noneNearby (label_indexes seg) (Int x) ->
  ascending (points (label_indexes seg) T) ->
  snd first = false /\
  snd second = true /\
  label_indexes <$> (labels (state (toggleAt (Int x) (toggleAt (Int x) r))) !! id)
  = Some (label_indexes seg).
Proof.
  intros s id T seg first second Hnone Hasc.
  destruct (toggle_twice _ _ _ Hnone (near_Int_self x) Hasc) as (H1 & H2 & H3).
  split; [done|]. split; [done|].
  change (labels (state (toggleAt (Int x) (toggleAt (Int x) r))))
    with (<[id := fst (togglePoint
                         (default defaultSegment (<[id := fst first]> (labels s) !! id))
                         (Int x) T)]> (<[id := fst first]> (labels s))).
  rewrite !lookup_insert_eq.
  change (Some (label_indexes (fst second)) = Some (label_indexes seg)).
  f_equal. exact H3.
Qed.

(** A file is open and a click has put a point at sample 100; two toggles
    at sample 40 leave that point alone. *)
Lemma C5_toggle_twice_restores_witness :
  let r := run [EClick (pointerAt false 150)] (openSession ∅) in
  label_indexes <$> (labels (state r) !! "0")
  = Some (mkLabelIndexes [Int 100] [] [] []) /\
  noneNearby (mkLabelIndexes [Int 100] [] [] []) (Int 40) /\
  label_indexes <$> (labels (state (toggleAt (Int 40) (toggleAt (Int 40) r))) !! "0")
  = Some (mkLabelIndexes [Int 100] [] [] []).
Proof.
  intros r.
  assert (noneNearby (mkLabelIndexes [Int 100] [] [] []) (Int 40)) as Hnone.
  { intros T p Hp. destruct T; simpl in Hp;
      repeat (apply elem_of_cons in Hp as [->|Hp]; [reflexivity|]);
      by apply not_elem_of_nil in Hp. }
  split; [by vm_compute|]. split; [exact Hnone|].
  pose proof (C5_toggle_twice_restores r 40) as H. cbv zeta in H.
  assert (default defaultSegment (labels (state r) !! segmentId (state r))
          = mkSegmentLabels true false (mkLabelIndexes [Int 100] [] [] []) "" "" None)
    as E by (by vm_compute).
  assert (segmentId (state r) = "0") as E1 by (by vm_compute).
  assert (currentLabelType (state r) = compression_systolic_points) as E2
    by (by vm_compute).
  rewrite E, E1, E2 in H.
  destruct H as (_ & _ & H); [exact Hnone | simpl; repeat constructor | exact H].
Defined.

(** Without the ascending order.  A file is open and the peak
    finder replies with the peaks 50 and 10, in that order: [findPeaks]
    stores the reply as it is.  No point lies within [TOLERANCE] of 30.  The
    first toggle at 30 adds the point and sorts the array; the second
    removes it again; the array is then 10, 50 and not 50, 10 as it was
    before the first toggle. *)
Lemma C5_unsorted_array_is_reordered :
  let reply := mkPeaks (Some [Int 50; Int 10]) None in
  let r := run [EFindPeaks compression_systolic true (Some reply)] (openSession ∅) in
  let seg := default defaultSegment (labels (state r) !! "0") in
  let first := togglePoint seg (Int 30) compression_systolic_points in
  let second := togglePoint (fst first) (Int 30) compression_systolic_points in
  segmentId (state r) = "0" /\
  currentLabelType (state r) = compression_systolic_points /\
  label_indexes seg = mkLabelIndexes [Int 50; Int 10] [] [] [] /\
  noneNearby (label_indexes seg) (Int 30) /\
  snd first = false /\
  snd second = true /\
  label_indexes <$> (labels (state (toggleAt (Int 30) (toggleAt (Int 30) r))) !! "0")
  = Some (mkLabelIndexes [Int 10; Int 50] [] [] []).
Proof.
  intros reply r seg first second.
  assert (label_indexes seg = mkLabelIndexes [Int 50; Int 10] [] [] []) as Hli
    by (by vm_compute).
  split; [by vm_compute|]. split; [by vm_compute|]. split; [exact Hli|].
  split.
  { rewrite Hli. intros T p Hp. destruct T; simpl in Hp;
      repeat (apply elem_of_cons in Hp as [->|Hp]; [reflexivity|]);
      by apply not_elem_of_nil in Hp. }
  split; [by vm_compute|]. split; by vm_compute.
Qed.

(** ** Toggles from a fresh record *)

Global Instance Int_inj : Inj (=) (=) JS.Int.
Proof. intros a b [= H]. exact H. Qed.

Lemma StronglySorted_delete {A} (R : relation A) (l : list A) (i : nat) :
  StronglySorted R l -> StronglySorted R (delete i l).
Proof.
  intros Hs. revert i. induction Hs as [|a l Hs IH Hall]; intros [|i]; simpl;
    try done; try constructor; [apply IH | by apply Forall_delete].
Qed.

Lemma intSorted_delete (arr : list num) (i : nat) :
  intSorted arr -> intSorted (delete i arr).
Proof.
  intros (zs & -> & Hs). exists (delete i zs). split.
  - by rewrite list_fmap_delete.
  - by apply StronglySorted_delete.
Qed.

Lemma ascending_Int (zs : list Z) :
  StronglySorted Z.lt zs -> ascending (Int <$> zs).
Proof.
  intros Hs. unfold ascending.
  eapply (StronglySorted_fmap _ Z.lt); [|exact Hs].
  intros a b Hab. rewrite le_Int. apply Z.leb_le. lia.
Qed.

Lemma intSorted_push (arr : list num) (x : Z) :
  intSorted arr ->
  (forall p, p ∈ arr -> near TOLERANCE (Int x) p = false) ->
  intSorted (sort_asc (arr ++ [Int x])).
Proof.
  intros (zs & -> & Hs) Hfar.
  pose proof (ascending_Int zs Hs) as Hasc.
  destruct (sort_push _ (Int x) Hasc) as (front & back & Hsplit & -> & Hf & Hb).
  apply fmap_app_inv in Hsplit as (zf & zb & -> & -> & ->).
  exists (zf ++ x :: zb). split; [rewrite fmap_app; reflexivity|].
  apply StronglySorted_app in Hs as (Hfb & Hsf & Hsb).
  assert (Forall (Z.lt x) zb) as Hxb.
  { apply Forall_forall. intros z Hz.
    rewrite Forall_fmap, Forall_forall in Hb.
    specialize (Hb z Hz). change ((Int z - Int x >? Int 0)%js = true) in Hb.
    rewrite gt_sub_Int in Hb. by apply Z.ltb_lt. }
  apply StronglySorted_app. split; [|split; [done|by constructor]].
  intros a b Ha [->|Hb']%elem_of_cons; [|by apply Hfb].
  rewrite Forall_fmap, Forall_forall in Hf.
  specialize (Hf a Ha). change ((Int a - Int x >? Int 0)%js = false) in Hf.
  rewrite gt_sub_Int in Hf.
  apply Z.ltb_ge in Hf.
  assert (near TOLERANCE (Int x) (Int a) = false) as Hn.
  { apply Hfar. rewrite fmap_app. apply elem_of_app. left.
    by apply list_elem_of_fmap_2. }
  unfold TOLERANCE in Hn. rewrite near_Int in Hn. apply Z.leb_gt in Hn. lia.
Qed.

Lemma intSorted_ascending_NoDup (arr : list num) :
  intSorted arr -> ascending arr /\ NoDup arr.
Proof.
  intros (zs & -> & Hs). split.
  - by apply ascending_Int.
  - apply NoDup_fmap_2; [apply _|].
    induction Hs as [|z zs Hs IH Hall]; constructor; [|done].
    intros Hin. rewrite Forall_forall in Hall. specialize (Hall z Hin). lia.
Qed.

Lemma togglePoint_intSorted (seg : SegmentLabels) (x : Z) (T : LabelType) :
  (forall T', intSorted (points (label_indexes seg) T')) ->
  forall T', intSorted (points (label_indexes (fst (togglePoint seg (Int x) T))) T').
Proof.
  intros Hinv T'.
  destruct (togglePoint_spec seg (Int x) T)
    as [_ [(_ & T0 & i & _ & ->)|(_ & Hnone & ->)]].
  - destruct (decide (T' = T0)) as [->|Hne].
    + rewrite points_set_points_eq. by apply intSorted_delete.
    + by rewrite points_set_points_ne.
  - destruct (decide (T' = T)) as [->|Hne].
    + rewrite points_set_points_eq. apply intSorted_push; [done|].
      intros p Hp. by apply (Hnone T p).
    + by rewrite points_set_points_ne.
Qed.

Lemma toggles_intSorted (ops : list (Z * LabelType)) (seg : SegmentLabels) :
  (forall T', intSorted (points (label_indexes seg) T')) ->
  forall T', intSorted (points (label_indexes (toggles ops seg)) T').
Proof.
  revert seg. induction ops as [|[x T] ops IH]; intros seg Hinv; [done|].
  simpl. apply IH. by apply togglePoint_intSorted.
Qed.

(** The handlers build, in the record of the current segment, what
    [toggles] builds. *)
Lemma toggleSeq_labels (ops : list (Z * LabelType)) (r : Renderer) :
  let id := segmentId (state r) in
  segmentId (state (toggleSeq ops r)) = id /\
  labels (state (toggleSeq ops r)) !! id
  = match ops with
    | [] => labels (state r) !! id
    | _ => Some (toggles ops (default defaultSegment (labels (state r) !! id)))
    end.
Proof.
  simpl. revert r. induction ops as [|[x T] ops IH]; intros r; [done|].
  set (r1 := toggleAt (Int x) (selectLabelType T r)).
  assert (segmentId (state r1) = segmentId (state r)) as Hid by done.
  assert (labels (state r1) !! segmentId (state r)
          = Some (fst (togglePoint
                         (default defaultSegment
                            (labels (state r) !! segmentId (state r)))
                         (Int x) T))) as Hl
    by apply lookup_insert_eq.
  destruct (IH r1) as [IH1 IH2]. rewrite Hid in IH1, IH2.
  change (toggleSeq ((x, T) :: ops) r) with (toggleSeq ops r1).
  split; [done|]. rewrite IH2, Hl. by destruct ops.
Qed.

(** C2.  Take a segment that has no record yet.  Any finite sequence of
    point toggles at sample indexes, each with the label type selected at
    the time, leaves in the record of the segment what [toggles] builds
    from the record created by the first toggle, and each of the four
    arrays of [label_indexes] is then sorted ascending and without
    duplicate values. *)
Theorem C2_toggles_keep_sorted_unique (r : Renderer)
    (ops : list (Z * LabelType)) (T : LabelType) :
  let id := segmentId (state r) in
  let seg := toggles ops defaultSegment in
  labels (state r) !! id = None ->
  (ops <> [] -> labels (state (toggleSeq ops r)) !! id = Some seg) /\
  ascending (points (label_indexes seg) T) /\
  NoDup (points (label_indexes seg) T).
Proof.
  simpl. intros Hfresh. split.
  - intros Hops. destruct (toggleSeq_labels ops r) as [_ H].
    rewrite H, Hfresh. by destruct ops.
  - apply intSorted_ascending_NoDup, toggles_intSorted.
    intros T'. exists []. split; [by destruct T'|constructor].
Qed.

(** A file is open with no labels: toggles at 30, 10, 20, at 12 (which
    removes 10) and at 40 leave [20; 30; 40]. *)
Lemma C2_toggles_keep_sorted_unique_witness :
  let ops := [(30, compression_systolic_points); (10, compression_systolic_points);
              (20, compression_systolic_points); (12, spontaneous_systolic_points);
              (40, compression_systolic_points)] in
  label_indexes <$> (labels (state (toggleSeq ops (openSession ∅))) !! "0")
  = Some (mkLabelIndexes [Int 20; Int 30; Int 40] [] [] []) /\
  ascending [Int 20; Int 30; Int 40] /\ NoDup [Int 20; Int 30; Int 40].
Proof.
  intros ops.
  destruct (C2_toggles_keep_sorted_unique (openSession ∅) ops
              compression_systolic_points) as (H1 & H2 & H3);
    [by vm_compute|].
  split; [|split].
  - change (segmentId (state (openSession ∅))) with "0" in H1.
    rewrite H1 by done. by vm_compute.
  - exact H2.
  - exact H3.
Defined.

(** ** Erasing *)

Lemma eraseFrom_spec (n : nat) (arr : list num) (x : num) :
  (n <= length arr)%nat ->
  eraseFrom n arr x
  = (List.filter (far x) (take n arr) ++ drop n arr,
     List.existsb (near ERASER_TOLERANCE x) (take n arr)).
Proof.
  revert arr. induction n as [|i IH]; intros arr Hn; simpl.
  - done.
  - destruct (lookup_lt_is_Some_2 arr i ltac:(lia)) as [idx Hidx].
    rewrite Hidx, (take_S_r _ _ _ Hidx), List.filter_app, List.existsb_app.
    simpl. unfold far at 2. destruct (near ERASER_TOLERANCE x idx) eqn:Hnear; simpl.
    + rewrite IH by (rewrite length_delete by (by eexists); lia). simpl.
      rewrite orb_true_r, app_nil_r. f_equal. f_equal.
      * f_equal. rewrite delete_take_drop, take_app_le by (rewrite length_take; lia).
        rewrite take_take. f_equal. lia.
      * rewrite delete_take_drop, drop_app_ge by (rewrite length_take; lia).
        rewrite length_take, drop_drop. f_equal. lia.
    + rewrite IH by lia. rewrite orb_false_r. f_equal.
      rewrite <- app_assoc. simpl. f_equal. by rewrite (drop_S _ _ _ Hidx).
Qed.

Lemma eraseFrom_all (arr : list num) (x : num) :
  eraseFrom (length arr) arr x
  = (List.filter (far x) arr, List.existsb (near ERASER_TOLERANCE x) arr).
Proof.
  rewrite eraseFrom_spec by done.
  by rewrite firstn_all, drop_all, app_nil_r.
Qed.

Lemma existsb_agree {A} (f g : A -> bool) (l : list A) :
  (forall a, a ∈ l -> f a = g a) -> List.existsb f l = List.existsb g l.
Proof.
  induction l as [|a l IH]; intros H; simpl; [done|].
  rewrite (H a) by by left. f_equal. apply IH. intros b Hb. apply H. by right.
Qed.

Lemma eraseTypes_spec (types : list LabelType) (li : LabelIndexes) (x : num) :
  NoDup types ->
  (forall T, points (fst (eraseTypes types li x)) T
             = if bool_decide (T ∈ types) then List.filter (far x) (points li T)
               else points li T) /\
  snd (eraseTypes types li x)
  = List.existsb (fun T => List.existsb (near ERASER_TOLERANCE x) (points li T)) types.
Proof.
  revert li. induction types as [|T0 types IH]; intros li Hnd;
    cbn [eraseTypes fst snd List.existsb].
  - split; [|done]. intros T. by rewrite bool_decide_eq_false_2 by apply not_elem_of_nil.
  - apply NoDup_cons in Hnd as [Hnotin Hnd].
    case_bool_decide as Hempty.
    + destruct (IH li Hnd) as [Hp Hf]. rewrite Hf, Hempty. simpl. split; [|done].
      intros T. rewrite Hp. destruct (decide (T = T0)) as [->|Hne].
      * rewrite bool_decide_eq_false_2 by done.
        rewrite bool_decide_eq_true_2 by by left. by rewrite Hempty.
      * case_bool_decide as Hin.
        -- rewrite bool_decide_eq_true_2; [done|]. by right.
        -- rewrite bool_decide_eq_false_2; [done|].
           by intros [?|?]%elem_of_cons.
    + rewrite eraseFrom_all.
      set (li1 := set_points li T0 (List.filter (far x) (points li T0))).
      destruct (IH li1 Hnd) as [Hp Hf].
      destruct (eraseTypes types li1 x) as [li2 removed] eqn:E. simpl in *.
      split.
      * intros T. rewrite Hp. destruct (decide (T = T0)) as [->|Hne].
        -- rewrite bool_decide_eq_false_2 by done.
           rewrite bool_decide_eq_true_2 by by left.
           subst li1. by rewrite points_set_points_eq.
        -- subst li1. rewrite points_set_points_ne by done.
           case_bool_decide as Hin.
           ++ rewrite bool_decide_eq_true_2; [done|]. by right.
           ++ rewrite bool_decide_eq_false_2; [done|].
              by intros [?|?]%elem_of_cons.
      * rewrite Hf. f_equal. apply existsb_agree. intros T HT.
        subst li1. rewrite points_set_points_ne; [done|]. by intros ->.
Qed.

Lemma labelTypes_NoDup : NoDup labelTypes.
Proof. apply (bool_decide_unpack _). by vm_compute. Qed.

Lemma eraseNear_spec (seg : SegmentLabels) (x : num) :
  (forall T, points (label_indexes (fst (eraseNear seg x))) T
             = List.filter (far x) (points (label_indexes seg) T)) /\
  snd (eraseNear seg x)
  = List.existsb
      (fun T => List.existsb (near ERASER_TOLERANCE x) (points (label_indexes seg) T))
      labelTypes /\
  fst (eraseNear seg x)
  = set_label_indexes (label_indexes (fst (eraseNear seg x))) seg.
Proof.
  unfold eraseNear.
  destruct (eraseTypes_spec labelTypes (label_indexes seg) x labelTypes_NoDup)
    as [Hp Hf].
  destruct (eraseTypes labelTypes (label_indexes seg) x) as [li' any]; simpl in *.
  split; [|done]. intros T. rewrite Hp.
  by rewrite bool_decide_eq_true_2 by apply labelTypes_complete.
Qed.

Lemma LabelIndexes_ext (li li' : LabelIndexes) :
  (forall T, points li T = points li' T) -> li = li'.
Proof.
  intros H. destruct li, li'.
  pose proof (H compression_systolic_points).
  pose proof (H compression_diastolic_points).
  pose proof (H spontaneous_systolic_points).
  pose proof (H spontaneous_diastolic_points). simpl in *. congruence.
Qed.

Lemma filter_far_twice (x : num) (arr : list num) :
  List.filter (far x) (List.filter (far x) arr) = List.filter (far x) arr.
Proof.
  induction arr as [|a arr IH]; simpl; [done|].
  destruct (far x a) eqn:E; simpl; [by rewrite E, IH|done].
Qed.

Lemma existsb_near_filter_far (x : num) (arr : list num) :
  List.existsb (near ERASER_TOLERANCE x) (List.filter (far x) arr) = false.
Proof.
  induction arr as [|a arr IH]; simpl; [done|].
  destruct (far x a) eqn:E; simpl; [|done].
  unfold far in E. apply negb_true_iff in E. by rewrite E, IH.
Qed.

Lemma set_label_indexes_id (seg : SegmentLabels) :
  set_label_indexes (label_indexes seg) seg = seg.
Proof. by destruct seg. Qed.

(** An erase right after an erase at the same index finds nothing. *)
Lemma eraseNear_twice (seg : SegmentLabels) (x : num) :
  eraseNear (fst (eraseNear seg x)) x = (fst (eraseNear seg x), false).
Proof.
  destruct (eraseNear_spec seg x) as (Hp & _ & _).
  destruct (eraseNear_spec (fst (eraseNear seg x)) x) as (Hp' & Hf' & Hseg').
  set (seg1 := fst (eraseNear seg x)) in *.
  rewrite (surjective_pairing (eraseNear seg1 x)). f_equal.
  - rewrite Hseg'.
    assert (label_indexes (fst (eraseNear seg1 x)) = label_indexes seg1) as ->.
    { apply LabelIndexes_ext. intros T. by rewrite Hp', Hp, filter_far_twice. }
    apply set_label_indexes_id.
  - rewrite Hf'.
    rewrite (existsb_agree _ (fun _ => false)); [done|].
    intros T _. by rewrite Hp, existsb_near_filter_far.
Qed.

Lemma eraser_wider (x p : num) :
  near TOLERANCE x p = true -> near ERASER_TOLERANCE x p = true.
Proof. unfold near. intros H. eapply le_trans; [exact H|done]. Qed.

Lemma eraser_wider_tolerance : (ERASER_TOLERANCE >? TOLERANCE)%js = true.
Proof. reflexivity. Qed.

Lemma anyRemoved_iff (seg : SegmentLabels) (x : num) :
  snd (eraseNear seg x) = true <->
  exists T p, p ∈ points (label_indexes seg) T /\ near ERASER_TOLERANCE x p = true.
Proof.
  destruct (eraseNear_spec seg x) as (_ & -> & _).
  rewrite List.existsb_exists. split.
  - intros (T & _ & (p & Hp & Hnear)%List.existsb_exists).
    exists T, p. split; [|done]. by apply list_elem_of_In.
  - intros (T & p & Hp & Hnear). exists T. split.
    + apply list_elem_of_In, labelTypes_complete.
    + apply List.existsb_exists. exists p. split; [|done]. by apply list_elem_of_In.
Qed.

Lemma put_segment_same (id : string) (seg : SegmentLabels) (s : State) :
  labels s !! id = Some seg -> put_segment id seg s = s.
Proof.
  intros H. unfold put_segment. rewrite insert_id by done. by destruct s.
Qed.

Lemma on_state_same (f : State -> State) (r : Renderer) :
  f (state r) = state r -> on_state f r = r.
Proof. intros H. unfold on_state. rewrite H. by destruct r. Qed.

Lemma eraseAt_spec (r : Renderer) (x : num) (seg : SegmentLabels) :
  labels (state r) !! segmentId (state r) = Some seg ->
  segmentId (state (eraseAt x r)) = segmentId (state r) /\
  labels (state (eraseAt x r))
  = <[segmentId (state r) := fst (eraseNear seg x)]> (labels (state r)) /\
  eraserModified (state (eraseAt x r))
  = eraserModified (state r) || snd (eraseNear seg x).
Proof.
  intros H. unfold eraseAt. rewrite H.
  destruct (eraseNear seg x) as [seg' [|]]; simpl; [|by rewrite orb_false_r].
  by rewrite orb_true_r.
Qed.

Lemma eraseAt_unchanged (r : Renderer) (x : num) (seg : SegmentLabels) :
  labels (state r) !! segmentId (state r) = Some seg ->
  eraseNear seg x = (seg, false) -> eraseAt x r = r.
Proof.
  intros H E. unfold eraseAt. rewrite H, E.
  apply on_state_same. by apply put_segment_same.
Qed.

(** C4, as the code has it.  For the record of the current segment and a
    sample index [x], the erase removes every point, of all four types,
    whose distance from [x] is at most [ERASER_TOLERANCE] and keeps the
    others in place; what it reports is not a count but the flag
    [anyRemoved], true exactly when a point was removed, which it also
    accumulates in [eraserModified]; an erase repeated right away at the
    same [x] changes nothing and reports no removal; and
    [ERASER_TOLERANCE] is strictly larger than [TOLERANCE], so every point
    that the toggle would find is within reach of the eraser. *)
Theorem C4_erase_removes_all_within_reach (r : Renderer) (x : num)
    (seg : SegmentLabels) :
  let s := state r in
  let id := segmentId s in
  let r' := eraseAt x r in
  let anyRemoved := snd (eraseNear seg x) in
  labels s !! id = Some seg ->
  (exists seg',
     labels (state r') = <[id := seg']> (labels s) /\
     (forall T, points (label_indexes seg') T
                = List.filter (far x) (points (label_indexes seg) T)) /\
     eraseNear seg' x = (seg', false)) /\
  (anyRemoved = true <->
   exists T p, p ∈ points (label_indexes seg) T /\
               near ERASER_TOLERANCE x p = true) /\
  eraserModified (state r') = eraserModified s || anyRemoved /\
  eraseAt x r' = r' /\
  (ERASER_TOLERANCE >? TOLERANCE)%js = true /\
  (forall y p, near TOLERANCE y p = true -> near ERASER_TOLERANCE y p = true).
Proof.
  intros s id r' anyRemoved Hseg.
  destruct (eraseAt_spec r x seg Hseg) as (Hid & Hl & Hm).
  destruct (eraseNear_spec seg x) as (Hp & _ & _).
  split.
  { exists (fst (eraseNear seg x)). split; [done|]. split; [done|].
    apply eraseNear_twice. }
  split; [apply anyRemoved_iff|]. split; [done|]. split.
  { apply (eraseAt_unchanged r' x (fst (eraseNear seg x))).
    - subst r'. rewrite Hid, Hl. apply lookup_insert_eq.
    - apply eraseNear_twice. }
  split; [apply eraser_wider_tolerance | apply eraser_wider].
Qed.

(** The record of segment 0 is loaded with the points 10 and 30 of one type
    and 14 of another; an erase at 12 removes 10 and 14. *)
Lemma C4_erase_removes_all_within_reach_witness :
  let seg := mkSegmentLabels true false
               (mkLabelIndexes [Int 10; Int 30] [Int 14] [] []) "" "" None in
  let r := openSession {[ "0" := seg ]} in
  labels (state (eraseAt (Int 12) r))
  = {[ "0" := mkSegmentLabels true false (mkLabelIndexes [Int 30] [] [] []) "" "" None ]}
  /\ eraserModified (state (eraseAt (Int 12) r)) = true.
Proof.
  intros seg r.
  destruct (C4_erase_removes_all_within_reach r (Int 12) seg)
    as (_ & _ & Hm & _); [by vm_compute|].
  split; [by vm_compute|]. rewrite Hm. by vm_compute.
Defined.

(** The erase reports a flag, which does not determine how many points it
    removed: no count can be read off what it returns. *)
Lemma C4_erase_reports_no_count :
  ~ exists count : bool -> nat,
      forall (seg : SegmentLabels) (x : num),
        count (snd (eraseNear seg x))
        = (pointCount (label_indexes seg)
           - pointCount (label_indexes (fst (eraseNear seg x))))%nat.
Proof.
  intros [count H].
  pose proof (H (mkSegmentLabels true false
                   (mkLabelIndexes [Int 10] [] [] []) "" "" None) (Int 12)) as H1.
  pose proof (H (mkSegmentLabels true false
                   (mkLabelIndexes [Int 10] [Int 14] [] []) "" "" None) (Int 12)) as H2.
  vm_compute in H1, H2. congruence.
Qed.

(** ** The right click *)

Lemma removePoint_spec (seg : SegmentLabels) (x : num) :
  let li := label_indexes seg in
  (noneNearby li x /\ removePoint seg x = (seg, false)) \/
  (exists T0 i,
     firstNearby li x T0 i /\
     removePoint seg x
     = (set_labeled true
          (set_label_indexes (set_points li T0 (delete i (points li T0))) seg),
        true)).
Proof.
  simpl. unfold removePoint.
  destruct (removeNearby labelTypes (label_indexes seg) x) as [li'|] eqn:H.
  - right. apply removeNearby_first in H as (T0 & i & Hfirst & ->). by exists T0, i.
  - left. split; [|done]. by apply removeNearby_none.
Qed.

(** C8, as the code has it.  Whatever the mode, the right click leaves the
    eraser flags and the region-selection state alone.  It acts on the data
    point last hovered and on the record of the current segment, and does
    nothing when either is missing or when no point of any type lies within
    [TOLERANCE] of that sample index; otherwise it removes one point, the
    first one within [TOLERANCE] in type order and then array order (not
    necessarily the nearest), and sets [labeled]. *)
Theorem C8_right_click_removes_first_nearby (r : Renderer) :
  let s := state r in
  let r' := handleGraphRightClick r in
  let s' := state r' in
  let id := segmentId s in
  (eraserActive s' = eraserActive s /\
   eraserModified s' = eraserModified s /\
   regionSelectionMode s' = regionSelectionMode s /\
   regionStart s' = regionStart s /\
   regionEnd s' = regionEnd s) /\
  match lastHoverData s, labels s !! id with
  | Some time, Some seg =>
      let x := clickedIndex s time in
      let li := label_indexes seg in
      (noneNearby li x /\ r' = r) \/
      (exists T0 i seg',
         firstNearby li x T0 i /\
         labels s' = <[id := seg']> (labels s) /\
         points (label_indexes seg') T0 = delete i (points li T0) /\
         (forall T', T' <> T0 ->
            points (label_indexes seg') T' = points li T') /\
         S (pointCount (label_indexes seg')) = pointCount li /\
         labeled seg' = true)
  | _, _ => r' = r
  end.
Proof.
  intros s r' s' id. subst r' s'. unfold handleGraphRightClick. fold s. fold id.
  destruct (lastHoverData s) as [time|] eqn:Hhover; [|done].
  destruct (labels s !! id) as [seg|] eqn:Hseg; [|done].
  destruct (removePoint_spec seg (clickedIndex s time))
    as [[Hnone ->]|(T0 & i & Hfirst & ->)].
  - split; [done|]. by left.
  - split; [done|]. right.
    exists T0, i. eexists. split; [done|]. split; [reflexivity|]. simpl.
    split; [by rewrite points_set_points_eq|].
    split; [intros T' HT'; by rewrite points_set_points_ne|].
    split; [|done].
    destruct Hfirst as [(p & Hp & _) _].
    pose proof (pointCount_set_points (label_indexes seg) T0
                  (delete i (points (label_indexes seg) T0))) as Hc.
    pose proof (length_delete_lookup _ _ _ Hp). lia.
Qed.

(** A file is open; clicks at the pixels of samples 10 and 16 add two
    points.  A right click while the data point of sample 14 is hovered
    removes the point 10, at distance 4, and keeps the point 16, at distance
    2: the point removed is not the nearest one. *)
Lemma C8_right_click_not_nearest :
  let r := run [EClick (pointerAt false 105); EClick (pointerAt false 108);
                EHover (Finite (14 # 250))] (openSession ∅) in
  clickedIndex (state r) (Finite (14 # 250)) = Int 14 /\
  label_indexes <$> (labels (state r) !! "0")
  = Some (mkLabelIndexes [Int 10; Int 16] [] [] []) /\
  label_indexes <$> (labels (state (run [ERightClick] r)) !! "0")
  = Some (mkLabelIndexes [Int 16] [] [] []) /\
  (JS.abs (Int 10 - Int 14) <=? JS.abs (Int 16 - Int 14))%js = false.
Proof. by vm_compute. Qed.

(** ** Invalid pointer geometry *)

(** A zero width under a zero offset gives [0 / 0]: the time is [NaN]. *)
Lemma clickedTime_zero_by_zero (ev : Pointer) (ax : Axis) (p q : Q) :
  (clientX ev - bboxLeft ev - _offset ax)%js = Finite p -> JS.Qzero p = true ->
  _length ax = Finite q -> JS.Qzero q = true ->
  clickedTime ev ax = NaN.
Proof.
  intros Hx Hp Hl Hq. unfold clickedTime. rewrite Hx, Hl. simpl.
  rewrite Hq, Hp. simpl. by destruct (range0 ax).
Qed.

(** C9, as the code has it.  Outside region selection the click handler
    always returns (no exception).  The guard of the click handler and of
    the eraser is [isNaN] on the computed time: whenever that time is [NaN]
    (or the layout has no x axis) both handlers return with the state
    untouched. *)
Theorem C9_NaN_time_is_no_op (r : Renderer) (ev : Pointer) :
  regionSelectionMode (state r) = false ->
  (exists r', handleDirectClick ev r = Returned r') /\
  (forall ax, xaxis ev = Some ax -> JS.isNaN (clickedTime ev ax) = true ->
     handleDirectClick ev r = Returned r /\ eraseAtPositionNoUpdate ev r = r) /\
  (xaxis ev = None ->
     handleDirectClick ev r = Returned r /\ eraseAtPositionNoUpdate ev r = r).
Proof.
  intros Hmode. unfold handleDirectClick, eraseAtPositionNoUpdate. rewrite Hmode.
  split; [|split].
  - destruct (onModebar ev), (shiftKey ev); try by eexists.
    destruct (xaxis ev) as [ax|]; [|by eexists].
    destruct (JS.isNaN (clickedTime ev ax)); by eexists.
  - intros ax -> ->. split.
    + by destruct (onModebar ev), (shiftKey ev).
    + by destruct (fileData (state r)).
  - intros ->. split.
    + by destruct (onModebar ev), (shiftKey ev).
    + by destruct (fileData (state r)).
Qed.

Lemma C9_NaN_time_is_no_op_witness :
  let r := openSession ∅ in
  let ax := mkAxis (Int 100) (Int 0) (Int 0) (Int 8) in
  let ev := mkPointer false false (Int 100) (Int 0) (Some ax) in
  clickedTime ev ax = NaN /\
  handleDirectClick ev r = Returned r /\
  eraseAtPositionNoUpdate ev r = r.
Proof.
  split; [reflexivity|].
  destruct (C9_NaN_time_is_no_op (openSession ∅)
              (mkPointer false false (Int 100) (Int 0)
                 (Some (mkAxis (Int 100) (Int 0) (Int 0) (Int 8)))))
    as (_ & H & _); [reflexivity|].
  apply (H (mkAxis (Int 100) (Int 0) (Int 0) (Int 8))); reflexivity.
Defined.

(** A file is open with no labels.  On a plot of width 0 with the pointer 5
    pixels right of its origin the time is [Infinity], which [isNaN] lets
    through: the click pushes [Infinity] on the array of the current type
    and a second click pushes it again.  On a plot of width -100 the time
    is finite and the click inserts sample -100.  In both cases the width
    is not positive, and in the first the time is not finite, and the
    labels are changed. *)
Lemma C9_nonpositive_width_mutates :
  let r := openSession ∅ in
  let zero := mkAxis (Int 100) (Int 0) (Int 0) (Int 8) in
  let negative := mkAxis (Int 100) (Int (-100)) (Int 0) (Int 8) in
  let click ax := EClick (mkPointer false false (Int 105) (Int 0) (Some ax)) in
  (clickedTime (mkPointer false false (Int 105) (Int 0) (Some zero)) zero
   = Infinity false /\
   label_indexes <$> (labels (state (run [click zero] r)) !! "0")
   = Some (mkLabelIndexes [Infinity false] [] [] []) /\
   label_indexes <$> (labels (state (run [click zero; click zero] r)) !! "0")
   = Some (mkLabelIndexes [Infinity false; Infinity false] [] [] [])) /\
  (clickedTime (mkPointer false false (Int 105) (Int 0) (Some negative)) negative
   = Finite (- 40 # 100) /\
   label_indexes <$> (labels (state (run [click negative] r)) !! "0")
   = Some (mkLabelIndexes [Int (-100)] [] [] [])).
Proof. by vm_compute. Qed.

(** ** The labeled flag *)

Lemma labeledKept_refl (m : gmap string SegmentLabels) : labeledKept m m.
Proof. intros id seg H1 H2. by exists seg. Qed.

Lemma labeledKept_trans (m1 m2 m3 : gmap string SegmentLabels) :
  labeledKept m1 m2 -> labeledKept m2 m3 -> labeledKept m1 m3.
Proof.
  intros H12 H23 id seg H1 H2.
  destruct (H12 id seg H1 H2) as (seg' & H1' & H2'). by apply (H23 id seg').
Qed.

Lemma labeledKept_put (m : gmap string SegmentLabels) (id : string)
    (seg' : SegmentLabels) :
  (forall seg, m !! id = Some seg -> labeled seg = true -> labeled seg' = true) ->
  labeledKept m (<[id := seg']> m).
Proof.
  intros H id' seg H1 H2. destruct (decide (id = id')) as [<-|Hne].
  - exists seg'. rewrite lookup_insert_eq. split; [done|]. by apply (H seg).
  - exists seg. by rewrite lookup_insert_ne.
Qed.

Lemma labels_markLabelsDirty (r : Renderer) :
  labels (state (markLabelsDirty r)) = labels (state r).
Proof. done. Qed.

Lemma labels_saveLabels (ok : bool) (r : Renderer) :
  labels (state (saveLabels ok r)) = labels (state r).
Proof.
  unfold saveLabels. destruct (currentFile (state r)); [|done].
  case_bool_decide; [|done]. by destruct ok.
Qed.

Lemma labels_saveIfDirty (ok : bool) (r : Renderer) :
  labels (state (saveIfDirty ok r)) = labels (state r).
Proof.
  unfold saveIfDirty. destruct (labelsDirty (state r) && fileOpen (state r)); [|done].
  rewrite labels_saveLabels. by destruct (autoSaveTimeout (state r)).
Qed.

Lemma labels_fireTimer (id : positive) (ok : bool) (r : Renderer) :
  labels (state (fireTimer id ok r)) = labels (state r).
Proof.
  unfold fireTimer. destruct (timers r !! id); [|done].
  destruct (_ <=? _)%N; [|done]. unfold autoSaveCallback. simpl.
  destruct (labelsDirty (state r) && fileOpen (state r)); [|done].
  by rewrite labels_saveLabels.
Qed.

Lemma labeled_togglePoint (seg : SegmentLabels) (x : num) (T : LabelType) :
  labeled (fst (togglePoint seg x T)) = true.
Proof. apply togglePoint_spec. Qed.

Lemma labeled_eraseNear (seg : SegmentLabels) (x : num) :
  labeled (fst (eraseNear seg x)) = labeled seg.
Proof. destruct (eraseNear_spec seg x) as (_ & _ & ->). done. Qed.

Lemma labeled_removePoint (seg : SegmentLabels) (x : num) :
  labeled seg = true -> labeled (fst (removePoint seg x)) = true.
Proof.
  intros H. destruct (removePoint_spec seg x) as [[_ ->]|(T0 & i & _ & ->)]; done.
Qed.

Lemma labeledKept_toggleAt (x : num) (r : Renderer) :
  labeledKept (labels (state r)) (labels (state (toggleAt x r))).
Proof.
  apply labeledKept_put. intros _ _ _. apply labeled_togglePoint.
Qed.

Lemma labeledKept_handleDirectClick (ev : Pointer) (r : Renderer) :
  labeledKept (labels (state r)) (labels (state (after (handleDirectClick ev r)))).
Proof.
  unfold handleDirectClick.
  destruct (onModebar ev); [apply labeledKept_refl|].
  destruct (shiftKey ev); [apply labeledKept_refl|].
  destruct (regionSelectionMode (state r)).
  - destruct (xaxis ev) as [ax|]; [|apply labeledKept_refl].
    destruct (regionStart (state r)) as [start|]; [|apply labeledKept_refl].
    destruct (start >? _)%js; simpl; apply labeledKept_put; intros seg -> H; done.
  - destruct (xaxis ev) as [ax|]; [|apply labeledKept_refl].
    destruct (JS.isNaN _); [apply labeledKept_refl|]. apply labeledKept_toggleAt.
Qed.

Lemma labeledKept_handleGraphRightClick (r : Renderer) :
  labeledKept (labels (state r)) (labels (state (handleGraphRightClick r))).
Proof.
  unfold handleGraphRightClick.
  destruct (lastHoverData (state r)) as [time|]; [|apply labeledKept_refl].
  destruct (labels (state r) !! _) as [seg|] eqn:Hseg; [|apply labeledKept_refl].
  pose proof (labeled_removePoint seg (clickedIndex (state r) time)) as H.
  destruct (removePoint seg _) as [seg' [|]]; [|apply labeledKept_refl].
  apply labeledKept_put. intros seg0 Hseg0 Hl. simplify_eq. by apply H.
Qed.

Lemma labeledKept_eraseAt (x : num) (r : Renderer) :
  labeledKept (labels (state r)) (labels (state (eraseAt x r))).
Proof.
  unfold eraseAt.
  destruct (labels (state r) !! _) as [seg|] eqn:Hseg; [|apply labeledKept_refl].
  pose proof (labeled_eraseNear seg x) as H.
  destruct (eraseNear seg x) as [seg' any]. simpl in H.
  assert (labeledKept (labels (state r))
            (<[segmentId (state r) := seg']> (labels (state r)))) as Hk.
  { apply labeledKept_put. intros seg0 Hseg0 Hl. simplify_eq. congruence. }
  by destruct any.
Qed.

Lemma labeledKept_eraseAtPositionNoUpdate (ev : Pointer) (r : Renderer) :
  labeledKept (labels (state r)) (labels (state (eraseAtPositionNoUpdate ev r))).
Proof.
  unfold eraseAtPositionNoUpdate.
  destruct (negb _); [apply labeledKept_refl|].
  destruct (xaxis ev) as [ax|]; [|apply labeledKept_refl].
  destruct (JS.isNaN _); [apply labeledKept_refl|]. apply labeledKept_eraseAt.
Qed.

Lemma labeledKept_handleEraserMouseUp (r : Renderer) :
  labeledKept (labels (state r)) (labels (state (after (handleEraserMouseUp r)))).
Proof.
  unfold handleEraserMouseUp.
  destruct (eraserActive (state r)); [|apply labeledKept_refl].
  destruct (eraserModified (state r)); [|apply labeledKept_refl].
  destruct (labels (state r) !! _) as [seg|]; [|apply labeledKept_refl].
  by apply labeledKept_put.
Qed.

Lemma labeledKept_step (e : Event) (r : Renderer) :
  editing e -> labeledKept (labels (state r)) (labels (state (step e r))).
Proof.
  intros He. destruct e; simpl; try done; try apply labeledKept_refl.
  - apply labeledKept_handleDirectClick.
  - apply labeledKept_handleGraphRightClick.
  - unfold handleEraserMouseDown.
    destruct (negb _); [apply labeledKept_refl|].
    destruct (onModebar ev); [apply labeledKept_refl|].
    apply (labeledKept_eraseAtPositionNoUpdate ev
             (on_state (fun s => set_eraserModified false (set_eraserActive true s)) r)).
  - unfold handleEraserMouseMove.
    destruct (negb (eraserActive _)); [apply labeledKept_refl|].
    destruct (negb (shiftKey ev)); [apply labeledKept_handleEraserMouseUp|].
    apply labeledKept_eraseAtPositionNoUpdate.
  - apply labeledKept_handleEraserMouseUp.
  - unfold clearRegions.
    destruct (labels (state r) !! _) as [seg|] eqn:Hseg; [|apply labeledKept_refl].
    destruct (highlighted_regions seg); [|apply labeledKept_refl].
    apply labeledKept_put. intros seg0 Hseg0 Hl. by simplify_eq.
  - apply labeledKept_put. intros seg0 -> Hl. done.
  - apply labeledKept_put. intros seg0 -> Hl. done.
  - unfold eraseCurrentTypeLabels.
    destruct (labels (state r) !! _) as [seg|] eqn:Hseg; [|apply labeledKept_refl].
    case_bool_decide; [apply labeledKept_refl|].
    destruct confirmed; [|apply labeledKept_refl].
    apply labeledKept_put. intros seg0 Hseg0 Hl. by simplify_eq.
  - unfold eraseUpslopeLabels.
    destruct (labels (state r) !! _) as [seg|] eqn:Hseg; [|apply labeledKept_refl].
    case_bool_decide; [apply labeledKept_refl|].
    apply labeledKept_put. intros seg0 Hseg0 Hl. by simplify_eq.
  - unfold findPeaks. destruct (_ || _); [apply labeledKept_refl|].
    destruct result as [peaks|]; [|apply labeledKept_refl].
    by apply labeledKept_put.
  - unfold findOnsetCompression. destruct (_ || _); [apply labeledKept_refl|].
    destruct (labels (state r) !! _) as [seg|] eqn:Hseg; [|apply labeledKept_refl].
    case_bool_decide; [apply labeledKept_refl|].
    destruct result as [onsets|]; [|apply labeledKept_refl].
    by apply labeledKept_put.
  - unfold findUpslope. destruct (_ || _); [apply labeledKept_refl|].
    destruct (_ && _); [apply labeledKept_refl|].
    destruct result as [upslopes|]; [|apply labeledKept_refl].
    by apply labeledKept_put.
  - rewrite labels_saveLabels. apply labeledKept_refl.
  - unfold toggleReview.
    destruct (isDone _ && _); [apply labeledKept_refl|].
    destruct (currentFile (state r)) as [f|]; simpl.
    + assert (forall s, labels (updateReviewFilesState f s) = labels s) as E.
      { intros s. unfold updateReviewFilesState.
        by destruct (indexOf _ _), (hasReview s). }
      rewrite E. apply labeledKept_put. intros seg0 -> Hl. done.
    + apply labeledKept_put. intros seg0 -> Hl. done.
  - unfold toggleDone, toggleDone_reply.
    destruct (toggleDone_request _); [|apply labeledKept_refl].
    destruct (success result); apply labeledKept_refl.
  - unfold navigateSegment. destruct (_ && _); [|apply labeledKept_refl].
    simpl. rewrite labels_saveIfDirty. apply labeledKept_refl.
  - rewrite labels_fireTimer. apply labeledKept_refl.
  - unfold loadFilesFromFolder. destruct files; apply labeledKept_refl.
  - unfold browseDataFolder. destruct path as [p|]; [|apply labeledKept_refl].
    case_bool_decide; apply labeledKept_refl.
Qed.

Lemma labeledKept_run (es : list Event) (r : Renderer) :
  Forall editing es -> labeledKept (labels (state r)) (labels (state (run es r))).
Proof.
  revert r. induction es as [|e es IH]; intros r Hes; [apply labeledKept_refl|].
  apply Forall_cons in Hes as [He Hes]. simpl.
  eapply labeledKept_trans; [by apply labeledKept_step|]. by apply IH.
Qed.

Lemma filter_far_id (x : num) (arr : list num) :
  List.existsb (near ERASER_TOLERANCE x) arr = false ->
  List.filter (far x) arr = arr.
Proof.
  induction arr as [|a arr IH]; simpl; [done|].
  intros [Ha Harr]%orb_false_iff. unfold far at 1. rewrite Ha. simpl.
  by rewrite IH.
Qed.

Lemma existsb_false_elem {A} (f : A -> bool) (l : list A) (a : A) :
  List.existsb f l = false -> a ∈ l -> f a = false.
Proof.
  induction l as [|b l IH]; simpl; intros H Ha.
  - by apply not_elem_of_nil in Ha.
  - apply orb_false_iff in H as [Hb Hl].
    apply elem_of_cons in Ha as [->|Ha]; [done|by apply IH].
Qed.

(** An erase that reports no removal leaves the record as it is. *)
Lemma eraseNear_false (seg : SegmentLabels) (x : num) :
  snd (eraseNear seg x) = false -> fst (eraseNear seg x) = seg.
Proof.
  destruct (eraseNear_spec seg x) as (Hp & -> & ->). intros Hf.
  assert (label_indexes (fst (eraseNear seg x)) = label_indexes seg) as ->;
    [|apply set_label_indexes_id].
  apply LabelIndexes_ext. intros T. rewrite Hp. apply filter_far_id.
  apply (existsb_false_elem _ _ T Hf), labelTypes_complete.
Qed.

(** What an erase does to the fields that the sweep looks at. *)
Lemma eraseAt_cases (x : num) (r : Renderer) :
  let id := segmentId (state r) in
  let r' := eraseAt x r in
  segmentId (state r') = id /\
  eraserActive (state r') = eraserActive (state r) /\
  ((labels (state r') = labels (state r) /\
    eraserModified (state r') = eraserModified (state r))
   \/ (eraserModified (state r') = true /\ is_Some (labels (state r') !! id))) /\
  (is_Some (labels (state r) !! id) -> is_Some (labels (state r') !! id)).
Proof.
  simpl. unfold eraseAt.
  destruct (labels (state r) !! segmentId (state r)) as [seg|] eqn:Hseg.
  - pose proof (eraseNear_false seg x) as Hfalse.
    destruct (eraseNear seg x) as [seg' [|]]; simpl in *.
    + split; [done|]. split; [done|]. split.
      * right. by rewrite lookup_insert_eq.
      * by rewrite lookup_insert_eq.
    + rewrite Hfalse by done. split; [done|]. split; [done|]. split.
      * left. by rewrite insert_id.
      * by rewrite lookup_insert_eq.
  - split; [done|]. split; [done|]. split; [by left|]. by intros [? ?].
Qed.

Lemma eraseAtPositionNoUpdate_cases (ev : Pointer) (r : Renderer) :
  let id := segmentId (state r) in
  let r' := eraseAtPositionNoUpdate ev r in
  segmentId (state r') = id /\
  eraserActive (state r') = eraserActive (state r) /\
  ((labels (state r') = labels (state r) /\
    eraserModified (state r') = eraserModified (state r))
   \/ (eraserModified (state r') = true /\ is_Some (labels (state r') !! id))) /\
  (is_Some (labels (state r) !! id) -> is_Some (labels (state r') !! id)).
Proof.
  simpl. unfold eraseAtPositionNoUpdate.
  assert (forall r0 : Renderer,
            segmentId (state r0) = segmentId (state r0) /\
            eraserActive (state r0) = eraserActive (state r0) /\
            ((labels (state r0) = labels (state r0) /\
              eraserModified (state r0) = eraserModified (state r0))
             \/ (eraserModified (state r0) = true /\
                 is_Some (labels (state r0) !! segmentId (state r0)))) /\
            (is_Some (labels (state r0) !! segmentId (state r0)) ->
             is_Some (labels (state r0) !! segmentId (state r0)))) as Hsame.
  { intros r0. split; [done|]. split; [done|]. split; [by left|done]. }
  destruct (negb _); [apply Hsame|].
  destruct (xaxis ev) as [ax|]; [|apply Hsame].
  destruct (JS.isNaN _); [apply Hsame|].
  apply eraseAt_cases.
Qed.

(** The pointer-up handler ends the sweep; when the sweep was active and had
    removed something it sets [labeled] of the current record. *)
Lemma handleEraserMouseUp_cases (r : Renderer) :
  let id := segmentId (state r) in
  let r' := after (handleEraserMouseUp r) in
  segmentId (state r') = id /\
  (eraserActive (state r) = true -> eraserActive (state r') = false) /\
  (eraserActive (state r) = false -> r' = r) /\
  (labels (state r') = labels (state r) \/
   exists seg', labels (state r') !! id = Some seg' /\ labeled seg' = true) /\
  (eraserActive (state r) = true -> eraserModified (state r) = true ->
   is_Some (labels (state r) !! id) ->
   exists seg', labels (state r') !! id = Some seg' /\ labeled seg' = true).
Proof.
  simpl. unfold handleEraserMouseUp.
  destruct (eraserActive (state r)).
  - destruct (eraserModified (state r)).
    + destruct (labels (state r) !! segmentId (state r)) as [seg|] eqn:Hseg; simpl.
      * split; [done|]. split; [done|]. split; [done|]. split.
        -- right. eexists. by rewrite lookup_insert_eq.
        -- intros _ _ _. eexists. by rewrite lookup_insert_eq.
      * split; [done|]. split; [done|]. split; [done|]. split; [by left|].
        by intros _ _ [? ?].
    + simpl. split; [done|]. split; [done|]. split; [done|]. split; [by left|done].
  - split; [done|]. split; [done|]. split; [done|]. split; [by left|done].
Qed.

Lemma sweepInv_erase (r0 rk : Renderer) (ev : Pointer) :
  sweepInv r0 rk -> eraserActive (state rk) = true ->
  sweepInv r0 (eraseAtPositionNoUpdate ev rk).
Proof.
  intros [Hid Hcases] Hactive.
  destruct (eraseAtPositionNoUpdate_cases ev rk) as (Hid' & Hact' & Hch & Hex).
  rewrite Hid in Hid', Hch, Hex. split; [done|].
  destruct Hch as [[Hl Hm]|[Hm Hsome]].
  - destruct Hcases as [HU|[(_ & HM & Hsome)|(Hinactive & _)]].
    + left. congruence.
    + right. left. rewrite Hact', Hm. split; [done|]. split; [done|]. by apply Hex.
    + congruence.
  - right. left. rewrite Hact'. done.
Qed.

Lemma sweepInv_up (r0 rk : Renderer) :
  sweepInv r0 rk -> sweepInv r0 (after (handleEraserMouseUp rk)).
Proof.
  intros [Hid Hcases].
  destruct (handleEraserMouseUp_cases rk) as (Hid' & Hoff & Hsame & Hch & Hset).
  rewrite Hid in Hid', Hch, Hset. split; [done|].
  destruct (eraserActive (state rk)) eqn:Hactive.
  - destruct Hcases as [HU|[(_ & HM & Hsome)|(Hinactive & _)]]; [| |done].
    + destruct Hch as [Hl|Hlab]; [left; congruence|].
      right. right. split; [by apply Hoff|done].
    + right. right. split; [by apply Hoff|]. by apply Hset.
  - rewrite Hsame by done.
    destruct Hcases as [HU|[(Hact & _)|HL]]; [by left|congruence|].
    right. right. by rewrite Hactive.
Qed.

Lemma sweepInv_down (r0 : Renderer) (down : Pointer) :
  sweepInv r0 (handleEraserMouseDown down r0).
Proof.
  unfold handleEraserMouseDown.
  destruct (negb _); [by split; [|left]|].
  destruct (onModebar down); [by split; [|left]|].
  set (r1 := on_state _ r0).
  apply (sweepInv_erase r0 r1); [|done]. by split; [|left].
Qed.

Lemma sweepInv_move (r0 rk : Renderer) (ev : Pointer) :
  sweepInv r0 rk -> sweepInv r0 (after (handleEraserMouseMove ev rk)).
Proof.
  intros Hinv. unfold handleEraserMouseMove.
  destruct (eraserActive (state rk)) eqn:Hactive; simpl; [|done].
  destruct (shiftKey ev); simpl; [by apply sweepInv_erase|].
  by apply sweepInv_up.
Qed.

(** After a whole sweep the labels are as before, or the record of the
    current segment is labeled. *)
Lemma sweep_labeled (down : Pointer) (moves : list Pointer) (r : Renderer) :
  let id := segmentId (state r) in
  labels (state (sweep down moves r)) = labels (state r) \/
  exists seg', labels (state (sweep down moves r)) !! id = Some seg' /\
               labeled seg' = true.
Proof.
  simpl. unfold sweep.
  assert (sweepInv r (foldl (fun r ev => after (handleEraserMouseMove ev r))
                        (handleEraserMouseDown down r) moves)) as Hinv.
  { generalize (sweepInv_down r down).
    generalize (handleEraserMouseDown down r) as rk.
    induction moves as [|ev moves IH]; intros rk Hrk; [done|].
    simpl. apply IH. by apply sweepInv_move. }
  set (rk := foldl _ _ moves) in *. destruct Hinv as [Hid Hcases].
  destruct (handleEraserMouseUp_cases rk) as (_ & _ & Hsame & Hch & Hset).
  rewrite Hid in Hch, Hset.
  destruct Hcases as [HU|[(Hact & HM & Hsome)|(Hinactive & HL)]].
  - destruct Hch as [Hl|Hlab]; [left; congruence|by right].
  - right. by apply Hset.
  - right. by rewrite Hsame.
Qed.

Lemma rightClick_labeled (r : Renderer) :
  let id := segmentId (state r) in
  labels (state (handleGraphRightClick r)) = labels (state r) \/
  exists seg', labels (state (handleGraphRightClick r)) !! id = Some seg' /\
               labeled seg' = true.
Proof.
  simpl. unfold handleGraphRightClick.
  destruct (lastHoverData (state r)) as [time|]; [|by left].
  destruct (labels (state r) !! _) as [seg|] eqn:Hseg; [|by left].
  destruct (removePoint_spec seg (clickedIndex (state r) time))
    as [[_ ->]|(T0 & i & _ & ->)]; [by left|].
  right. eexists. simpl. by rewrite lookup_insert_eq.
Qed.

(** *** Records with points are labeled *)

Lemma pointCount_set_points_nil (li : LabelIndexes) (T : LabelType) :
  (pointCount (set_points li T []) <= pointCount li)%nat.
Proof. destruct T; unfold pointCount; simpl; lia. Qed.

Lemma pointCount_eraseNear (seg : SegmentLabels) (x : num) :
  (pointCount (label_indexes (fst (eraseNear seg x)))
   <= pointCount (label_indexes seg))%nat.
Proof.
  destruct (eraseNear_spec seg x) as (Hp & _ & _).
  pose proof (Hp compression_systolic_points) as H1.
  pose proof (Hp compression_diastolic_points) as H2.
  pose proof (Hp spontaneous_systolic_points) as H3.
  pose proof (Hp spontaneous_diastolic_points) as H4.
  simpl in H1, H2, H3, H4. unfold pointCount. rewrite H1, H2, H3, H4.
  pose proof (List.filter_length_le (far x) (idx_compression_systolic (label_indexes seg))).
  pose proof (List.filter_length_le (far x) (idx_compression_diastolic (label_indexes seg))).
  pose proof (List.filter_length_le (far x) (idx_spontaneous_systolic (label_indexes seg))).
  pose proof (List.filter_length_le (far x) (idx_spontaneous_diastolic (label_indexes seg))).
  lia.
Qed.

Lemma wellLabeled_put (m : gmap string SegmentLabels) (id : string)
    (seg' : SegmentLabels) :
  ((0 < pointCount (label_indexes seg'))%nat -> labeled seg' = true) ->
  wellLabeled m -> wellLabeled (<[id := seg']> m).
Proof.
  intros H Hm id' seg Hseg Hc. destruct (decide (id = id')) as [<-|Hne].
  - rewrite lookup_insert_eq in Hseg. simplify_eq. by apply H.
  - rewrite lookup_insert_ne in Hseg by done. by apply (Hm id' seg).
Qed.

(** A record whose arrays are those of a well-labeled one, or fewer. *)
Lemma wellLabeled_shrink (m : gmap string SegmentLabels) (id : string)
    (seg seg' : SegmentLabels) :
  m !! id = Some seg -> labeled seg' = labeled seg ->
  (pointCount (label_indexes seg') <= pointCount (label_indexes seg))%nat ->
  wellLabeled m -> wellLabeled (<[id := seg']> m).
Proof.
  intros Hseg Hl Hc Hm. apply wellLabeled_put; [|done].
  intros Hpos. rewrite Hl. apply (Hm id seg Hseg). lia.
Qed.

Lemma wellLabeled_default (m : gmap string SegmentLabels) (id : string)
    (d seg' : SegmentLabels) :
  label_indexes d = empty_indexes ->
  labeled seg' = labeled (default d (m !! id)) ->
  label_indexes seg' = label_indexes (default d (m !! id)) ->
  wellLabeled m -> wellLabeled (<[id := seg']> m).
Proof.
  intros Hd Hl Hli Hm. destruct (m !! id) as [seg|] eqn:Hseg; simpl in *.
  - apply (wellLabeled_shrink m id seg); [done|done| |done]. by rewrite Hli.
  - apply wellLabeled_put; [|done]. rewrite Hli, Hd. unfold pointCount. simpl. lia.
Qed.

Lemma wellLabeled_eraseAtPositionNoUpdate (ev : Pointer) (r : Renderer) :
  wellLabeled (labels (state r)) ->
  wellLabeled (labels (state (eraseAtPositionNoUpdate ev r))).
Proof.
  intros H. unfold eraseAtPositionNoUpdate, eraseAt.
  destruct (negb _); [done|]. destruct (xaxis ev) as [ax|]; [|done].
  destruct (JS.isNaN _); [done|].
  destruct (labels (state r) !! _) as [seg|] eqn:Hseg; [|done].
  pose proof (labeled_eraseNear seg (clickedIndex (state r) (clickedTime ev ax))) as Hl.
  pose proof (pointCount_eraseNear seg (clickedIndex (state r) (clickedTime ev ax))) as Hc.
  destruct (eraseNear seg _) as [seg' any]. simpl in Hl, Hc.
  assert (wellLabeled (<[segmentId (state r) := seg']> (labels (state r)))) as Hw
    by by apply (wellLabeled_shrink _ _ seg).
  by destruct any.
Qed.

Lemma wellLabeled_handleEraserMouseUp (r : Renderer) :
  wellLabeled (labels (state r)) ->
  wellLabeled (labels (state (after (handleEraserMouseUp r)))).
Proof.
  intros H. unfold handleEraserMouseUp.
  destruct (eraserActive (state r)); [|done].
  destruct (eraserModified (state r)); [|done].
  destruct (labels (state r) !! _) as [seg|]; [|done].
  by apply wellLabeled_put.
Qed.

Lemma wellLabeled_step (e : Event) (r : Renderer) :
  editing e -> wellLabeled (labels (state r)) ->
  wellLabeled (labels (state (step e r))).
Proof.
  intros He H. destruct e; simpl; try done.
  - unfold handleDirectClick.
    destruct (onModebar ev); [done|]. destruct (shiftKey ev); [done|].
    destruct (regionSelectionMode (state r)).
    + destruct (xaxis ev) as [ax|]; [|done].
      destruct (regionStart (state r)) as [start|]; [|done].
      destruct (start >? _)%js; simpl; by apply (wellLabeled_default _ _ defaultRegionSegment).
    + destruct (xaxis ev) as [ax|]; [|done].
      destruct (JS.isNaN _); [done|].
      apply wellLabeled_put; [|done]. intros _. apply labeled_togglePoint.
  - unfold handleGraphRightClick.
    destruct (lastHoverData (state r)) as [time|]; [|done].
    destruct (labels (state r) !! _) as [seg|] eqn:Hseg; [|done].
    destruct (removePoint_spec seg (clickedIndex (state r) time))
      as [[_ ->]|(T0 & i & _ & ->)]; [done|].
    by apply wellLabeled_put.
  - unfold handleEraserMouseDown.
    destruct (negb _); [done|]. destruct (onModebar ev); [done|].
    by apply wellLabeled_eraseAtPositionNoUpdate.
  - unfold handleEraserMouseMove.
    destruct (negb (eraserActive _)); [done|].
    destruct (negb (shiftKey ev)); [by apply wellLabeled_handleEraserMouseUp|].
    by apply wellLabeled_eraseAtPositionNoUpdate.
  - by apply wellLabeled_handleEraserMouseUp.
  - unfold clearRegions.
    destruct (labels (state r) !! _) as [seg|] eqn:Hseg; [|done].
    destruct (highlighted_regions seg); [|done].
    by apply (wellLabeled_shrink _ _ seg).
  - by apply (wellLabeled_default _ _ defaultSegment).
  - by apply (wellLabeled_default _ _ defaultSegment).
  - unfold eraseCurrentTypeLabels.
    destruct (labels (state r) !! _) as [seg|] eqn:Hseg; [|done].
    case_bool_decide; [done|]. destruct confirmed; [|done].
    apply (wellLabeled_shrink _ _ seg); [done|done| |done].
    apply pointCount_set_points_nil.
  - unfold eraseUpslopeLabels.
    destruct (labels (state r) !! _) as [seg|] eqn:Hseg; [|done].
    case_bool_decide; [done|].
    apply (wellLabeled_shrink _ _ seg); [done|done| |done].
    apply pointCount_set_points_nil.
  - unfold findPeaks. destruct (_ || _); [done|].
    destruct result as [peaks|]; [|done]. by apply wellLabeled_put.
  - unfold findOnsetCompression. destruct (_ || _); [done|].
    destruct (labels (state r) !! _) as [seg|] eqn:Hseg; [|done].
    case_bool_decide; [done|]. destruct result as [onsets|]; [|done].
    by apply wellLabeled_put.
  - unfold findUpslope. destruct (_ || _); [done|]. destruct (_ && _); [done|].
    destruct result as [upslopes|]; [|done]. by apply wellLabeled_put.
  - by rewrite labels_saveLabels.
  - unfold toggleReview. destruct (isDone _ && _); [done|].
    destruct (currentFile (state r)) as [f|]; simpl.
    + assert (forall s, labels (updateReviewFilesState f s) = labels s) as E.
      { intros s. unfold updateReviewFilesState.
        by destruct (indexOf _ _), (hasReview s). }
      rewrite E. by apply (wellLabeled_default _ _ defaultSegment).
    + by apply (wellLabeled_default _ _ defaultSegment).
  - unfold toggleDone, toggleDone_reply.
    destruct (toggleDone_request _); [|done]. by destruct (success result).
  - unfold navigateSegment. destruct (_ && _); [|done].
    simpl. by rewrite labels_saveIfDirty.
  - by rewrite labels_fireTimer.
  - unfold loadFilesFromFolder. by destruct files.
  - unfold browseDataFolder. destruct path as [p|]; [|done]. by case_bool_decide.
Qed.

Lemma wellLabeled_run (es : list Event) (r : Renderer) :
  Forall editing es -> wellLabeled (labels (state r)) ->
  wellLabeled (labels (state (run es r))).
Proof.
  revert r. induction es as [|e es IH]; intros r Hes H; [done|].
  apply Forall_cons in Hes as [He Hes]. simpl.
  apply IH; [done|]. by apply wellLabeled_step.
Qed.

(** C10.  Once [labeled] of a segment is true, no editing event sets it back:
    after any sequence of events other than loading a file, the record is
    still there and still labeled.  Every removal path sets the flag: the
    toggle sets it whether it removes or inserts, the right click sets it
    when it removes a point, and a drag-erase sweep (pointer down, moves,
    pointer up or leave) that changed the labels leaves the record of the
    current segment labeled.  Where every record that holds a point is
    labeled, which the editing events preserve, an event of any kind that
    leaves a record with fewer points leaves it labeled.  None of this
    depends on what is left in the four arrays. *)
Theorem C10_labeled_is_never_reset (r : Renderer) :
  let id := segmentId (state r) in
  (forall es id' seg,
     Forall editing es ->
     labels (state r) !! id' = Some seg -> labeled seg = true ->
     exists seg', labels (state (run es r)) !! id' = Some seg' /\
                  labeled seg' = true) /\
  (forall x,
     exists seg', labels (state (toggleAt x r)) !! id = Some seg' /\
                  labeled seg' = true) /\
  (labels (state (handleGraphRightClick r)) <> labels (state r) ->
   exists seg', labels (state (handleGraphRightClick r)) !! id = Some seg' /\
                labeled seg' = true) /\
  (forall down moves,
     labels (state (sweep down moves r)) <> labels (state r) ->
     exists seg', labels (state (sweep down moves r)) !! id = Some seg' /\
                  labeled seg' = true) /\
  (wellLabeled (labels (state r)) ->
   forall es e id' seg seg',
     Forall editing es -> editing e ->
     labels (state (run es r)) !! id' = Some seg ->
     labels (state (step e (run es r))) !! id' = Some seg' ->
     (pointCount (label_indexes seg') < pointCount (label_indexes seg))%nat ->
     labeled seg' = true).
Proof.
  simpl. split; [|split; [|split; [|split]]].
  - intros es id' seg Hes Hseg Hl. by apply (labeledKept_run es r Hes id' seg).
  - intros x. eexists. split; [apply lookup_insert_eq|apply labeled_togglePoint].
  - intros Hne. by destruct (rightClick_labeled r).
  - intros down moves Hne. by destruct (sweep_labeled down moves r).
  - intros Hw es e id' seg seg' Hes He Hseg Hseg' Hlt.
    assert (labeled seg = true) as Hl.
    { apply (wellLabeled_run es r Hes Hw id' seg Hseg). lia. }
    destruct (labeledKept_step e (run es r) He id' seg Hseg Hl) as (seg'' & H1 & H2).
    congruence.
Qed.

(** The file is loaded with one labeled point, at sample 40, in segment 0.
    A pointer down on it with Shift held removes it, which leaves the four
    arrays empty and the record labeled; so it is when Shift and then the
    pointer are released and the next segment is shown. *)
Lemma C10_labeled_is_never_reset_witness :
  let stored : gmap string SegmentLabels :=
    {[ "0" := mkSegmentLabels true false (mkLabelIndexes [Int 40] [] [] []) "" "" None ]} in
  let r := openSession stored in
  labels (state (step (EMouseDown (pointerAt true 120)) r)) !! "0"
  = Some (mkSegmentLabels true false empty_indexes "" "" None) /\
  labeled (mkSegmentLabels true false empty_indexes "" "" None) = true /\
  (exists seg',
     labels (state (run [EMouseDown (pointerAt true 120); EShiftUp; EMouseUp;
                         ENavigate 1 true] r)) !! "0" = Some seg' /\
     labeled seg' = true).
Proof.
  set (stored := {[ "0" := mkSegmentLabels true false
                             (mkLabelIndexes [Int 40] [] [] []) "" "" None ]}
                 : gmap string SegmentLabels).
  set (r := openSession stored).
  destruct (C10_labeled_is_never_reset r) as (Hkept & _ & _ & _ & Hfewer).
  split; [by vm_compute|]. split.
  - apply (Hfewer) with (es := []) (e := EMouseDown (pointerAt true 120))
      (id' := "0")
      (seg := mkSegmentLabels true false (mkLabelIndexes [Int 40] [] [] []) "" "" None).
    + intros id seg Hseg _. change (labels (state r)) with stored in Hseg.
      by apply lookup_singleton_Some in Hseg as [_ <-].
    + constructor.
    + exact I.
    + by vm_compute.
    + by vm_compute.
    + vm_compute. lia.
  - apply (Hkept _ "0"
             (mkSegmentLabels true false (mkLabelIndexes [Int 40] [] [] []) "" "" None)).
    + repeat constructor.
    + by vm_compute.
    + reflexivity.
Defined.

(** Releasing Shift before the pointer ends the sweep in
    [handleEraserKeyUp], which clears [eraserActive] and nothing else: the
    pointer release that follows finds the eraser inactive and returns.  The
    point is removed and the record, labeled before, stays labeled; the
    labels are not marked dirty, as they are when the pointer is released
    first. *)
Example shift_released_before_pointer :
  let stored : gmap string SegmentLabels :=
    {[ "0" := mkSegmentLabels true false (mkLabelIndexes [Int 40] [] [] []) "" "" None ]} in
  let r := openSession stored in
  let down := EMouseDown (pointerAt true 120) in
  labels (state (run [down; EShiftUp; EMouseUp] r)) !! "0"
  = Some (mkSegmentLabels true false empty_indexes "" "" None) /\
  labelsDirty (state (run [down; EShiftUp; EMouseUp] r)) = false /\
  labelsDirty (state (run [down; EMouseUp; EShiftUp] r)) = true.
Proof. by vm_compute. Qed.

(** ** Auto-save *)

Lemma timersRecorded_quiet (r r' : Renderer) :
  timers r' = timers r ->
  autoSaveTimeout (state r') = autoSaveTimeout (state r) ->
  timersRecorded r -> timersRecorded r'.
Proof. intros Ht Ha H id due. rewrite Ht, Ha. apply H. Qed.

Lemma timersRecorded_on_state (f : State -> State) (r : Renderer) :
  autoSaveTimeout (f (state r)) = autoSaveTimeout (state r) ->
  timersRecorded r -> timersRecorded (on_state f r).
Proof. intros Hf. by apply timersRecorded_quiet. Qed.

Lemma timersRecorded_scheduleAutoSave (r : Renderer) :
  timersRecorded r -> timersRecorded (scheduleAutoSave r).
Proof.
  intros H id due. unfold scheduleAutoSave. simpl.
  destruct (decide (nextTimer r = id)) as [->|Hne]; [done|].
  rewrite lookup_insert_ne by done. unfold clearTimeout.
  destruct (autoSaveTimeout (state r)) as [rec|] eqn:Hrec.
  - intros Hd. apply lookup_delete_Some in Hd as [Hne' Hd].
    apply H in Hd. congruence.
  - intros Hd. apply H in Hd. congruence.
Qed.

Lemma timersRecorded_markLabelsDirty (r : Renderer) :
  timersRecorded r -> timersRecorded (markLabelsDirty r).
Proof.
  intros H. apply timersRecorded_scheduleAutoSave.
  by apply timersRecorded_on_state.
Qed.

Lemma timersRecorded_saveLabels (ok : bool) (r : Renderer) :
  timersRecorded r -> timersRecorded (saveLabels ok r).
Proof.
  unfold saveLabels. destruct (currentFile (state r)); [|done].
  case_bool_decide; [|done]. apply timersRecorded_quiet; [done|by destruct ok].
Qed.

Lemma timersRecorded_saveIfDirty (ok : bool) (r : Renderer) :
  timersRecorded r -> timersRecorded (saveIfDirty ok r).
Proof.
  intros H. unfold saveIfDirty.
  destruct (labelsDirty (state r) && fileOpen (state r)); [|done].
  apply timersRecorded_saveLabels.
  destruct (autoSaveTimeout (state r)) as [rec|] eqn:Hrec; [|done].
  intros id due. simpl. intros Hd. apply lookup_delete_Some in Hd as [Hne Hd].
  apply H in Hd. congruence.
Qed.

Lemma timersRecorded_fireTimer (id : positive) (ok : bool) (r : Renderer) :
  timersRecorded r -> timersRecorded (fireTimer id ok r).
Proof.
  intros H. unfold fireTimer. destruct (timers r !! id) as [due|]; [|done].
  destruct (_ <=? _)%N; [|done]. unfold autoSaveCallback. simpl.
  set (r1 := mkRenderer _ _ _ _ _).
  assert (timersRecorded r1) as H1.
  { intros id' due'. simpl. intros Hd.
    apply lookup_delete_Some in Hd as [_ Hd]. by apply (H id' due'). }
  destruct (labelsDirty (state r) && fileOpen (state r)); [|done].
  by apply timersRecorded_saveLabels.
Qed.

Lemma timersRecorded_toggleAt (x : num) (r : Renderer) :
  timersRecorded r -> timersRecorded (toggleAt x r).
Proof.
  intros H. apply timersRecorded_markLabelsDirty. by apply timersRecorded_on_state.
Qed.

Lemma timersRecorded_eraseAtPositionNoUpdate (ev : Pointer) (r : Renderer) :
  timersRecorded r -> timersRecorded (eraseAtPositionNoUpdate ev r).
Proof.
  intros H. unfold eraseAtPositionNoUpdate, eraseAt.
  destruct (negb _); [done|]. destruct (xaxis ev); [|done].
  destruct (JS.isNaN _); [done|].
  destruct (labels (state r) !! _); [|done].
  destruct (eraseNear _ _) as [seg' [|]]; by apply timersRecorded_on_state.
Qed.

Lemma timersRecorded_handleEraserMouseUp (r : Renderer) :
  timersRecorded r -> timersRecorded (after (handleEraserMouseUp r)).
Proof.
  intros H. unfold handleEraserMouseUp.
  destruct (eraserActive (state r)); [|done].
  assert (timersRecorded (on_state (set_eraserActive false) r)) as H1
    by by apply timersRecorded_on_state.
  destruct (eraserModified (state r)); [|done].
  destruct (labels (state r) !! _); [|done]. simpl.
  apply timersRecorded_markLabelsDirty. by apply timersRecorded_on_state.
Qed.

Lemma timersRecorded_step (e : Event) (r : Renderer) :
  timersRecorded r -> timersRecorded (step e r).
Proof.
  intros H. destruct e; simpl.
  - unfold handleDirectClick.
    destruct (onModebar ev); [done|]. destruct (shiftKey ev); [done|].
    destruct (regionSelectionMode (state r)).
    + destruct (xaxis ev); [|done].
      destruct (regionStart (state r)); [|by apply timersRecorded_on_state].
      destruct (_ >? _)%js; simpl;
        apply timersRecorded_markLabelsDirty; by apply timersRecorded_on_state.
    + destruct (xaxis ev); [|done]. destruct (JS.isNaN _); [done|].
      by apply timersRecorded_toggleAt.
  - by apply timersRecorded_on_state.
  - unfold handleGraphRightClick.
    destruct (lastHoverData (state r)); [|done].
    destruct (labels (state r) !! _); [|done].
    destruct (removePoint _ _) as [seg' [|]]; [|done].
    apply timersRecorded_markLabelsDirty. by apply timersRecorded_on_state.
  - unfold handleEraserMouseDown.
    destruct (negb _); [done|]. destruct (onModebar ev); [done|].
    apply timersRecorded_eraseAtPositionNoUpdate. by apply timersRecorded_on_state.
  - unfold handleEraserMouseMove.
    destruct (negb (eraserActive _)); [done|].
    destruct (negb (shiftKey ev)); [by apply timersRecorded_handleEraserMouseUp|].
    by apply timersRecorded_eraseAtPositionNoUpdate.
  - by apply timersRecorded_handleEraserMouseUp.
  - by apply timersRecorded_on_state.
  - by apply timersRecorded_on_state.
  - by apply timersRecorded_on_state.
  - unfold clearRegions. destruct (labels (state r) !! _) as [seg|]; [|done].
    destruct (highlighted_regions seg); [|done].
    apply timersRecorded_markLabelsDirty. by apply timersRecorded_on_state.
  - apply timersRecorded_markLabelsDirty. by apply timersRecorded_on_state.
  - apply timersRecorded_markLabelsDirty. by apply timersRecorded_on_state.
  - unfold eraseCurrentTypeLabels. destruct (labels (state r) !! _) as [seg|]; [|done].
    case_bool_decide; [done|]. destruct confirmed; [|done].
    apply timersRecorded_markLabelsDirty. by apply timersRecorded_on_state.
  - unfold eraseUpslopeLabels. destruct (labels (state r) !! _) as [seg|]; [|done].
    case_bool_decide; [done|].
    apply timersRecorded_markLabelsDirty. by apply timersRecorded_on_state.
  - unfold findPeaks. destruct (_ || _); [done|].
    destruct result as [peaks|]; [|done].
    apply timersRecorded_markLabelsDirty. by apply timersRecorded_on_state.
  - unfold findOnsetCompression. destruct (_ || _); [done|].
    destruct (labels (state r) !! _) as [seg|]; [|done].
    case_bool_decide; [done|]. destruct result as [onsets|]; [|done].
    apply timersRecorded_markLabelsDirty. by apply timersRecorded_on_state.
  - unfold findUpslope. destruct (_ || _); [done|]. destruct (_ && _); [done|].
    destruct result as [upslopes|]; [|done].
    apply timersRecorded_markLabelsDirty. by apply timersRecorded_on_state.
  - by apply timersRecorded_saveLabels.
  - unfold toggleReview. destruct (isDone _ && _); [done|].
    set (r1 := on_state _ r).
    assert (timersRecorded r1) as H1 by by apply timersRecorded_on_state.
    destruct (currentFile (state r)) as [f|]; [|done]. simpl.
    apply timersRecorded_markLabelsDirty, timersRecorded_on_state; [|done].
    unfold updateReviewFilesState. by destruct (indexOf _ _), (hasReview _).
  - unfold toggleDone, toggleDone_reply. destruct (toggleDone_request _); [|done].
    destruct (success result); [|done]. by apply timersRecorded_on_state.
  - unfold navigateSegment. destruct (_ && _); [|done].
    apply timersRecorded_on_state; [done|]. by apply timersRecorded_saveIfDirty.
  - by apply timersRecorded_fireTimer.
  - done.
  - unfold loadFilesFromFolder.
    assert (timersRecorded (on_state (set_folderPath (Some folder)) r)) as H1
      by by apply timersRecorded_on_state.
    destruct files; [|done]. by apply timersRecorded_on_state.
  - unfold loadFile. case_bool_decide as Hname; [done|].
    destruct (folderPath (state r)) as [folder|]; [|done].
    case_bool_decide as Hfolder; [done|].
    assert (timersRecorded (on_state (set_currentFile (Some filename)) (saveIfDirty ok r))) as H1.
    { apply timersRecorded_on_state; [done|]. by apply timersRecorded_saveIfDirty. }
    destruct fileReply; [|done]. by apply timersRecorded_on_state.
  - unfold browseDataFolder. destruct path as [p|]; [|done].
    case_bool_decide; [|done]. by apply timersRecorded_on_state.
Qed.

Lemma timersRecorded_run (es : list Event) (r : Renderer) :
  timersRecorded r -> timersRecorded (run es r).
Proof.
  revert r. induction es as [|e es IH]; intros r H; [done|].
  simpl. by apply IH, timersRecorded_step.
Qed.

Lemma timersRecorded_initial : timersRecorded initialRenderer.
Proof. intros id due. simpl. by rewrite lookup_empty. Qed.

Lemma clearTimeout_recorded (r : Renderer) :
  timersRecorded r -> clearTimeout (autoSaveTimeout (state r)) (timers r) = ∅.
Proof.
  intros H. apply map_empty. intros id. unfold clearTimeout.
  destruct (autoSaveTimeout (state r)) as [rec|] eqn:Hrec.
  - apply lookup_delete_None. destruct (timers r !! id) as [due|] eqn:Hd; [|by right].
    left. apply H in Hd. congruence.
  - destruct (timers r !! id) as [due|] eqn:Hd; [|done].
    apply H in Hd. congruence.
Qed.

(** With no timeout armed, time passing and timeout events make no call to
    the persistence collaborator. *)
Lemma no_timer_no_save (es : list Event) (r : Renderer) :
  Forall timing es -> timers r = ∅ ->
  saveCalls (run es r) = saveCalls r /\ timers (run es r) = ∅.
Proof.
  revert r. induction es as [|e es IH]; intros r Hes Hempty; [done|].
  apply Forall_cons in Hes as [He Hes]. simpl.
  destruct e; try done; simpl.
  - unfold fireTimer. rewrite Hempty, lookup_empty. by apply IH.
  - destruct (IH (advance dt r) Hes Hempty) as [-> ->]. done.
Qed.

(** C6.  In any state reached from the initial one with a file open: after
    [markLabelsDirty] the flag is set and exactly one timeout is armed, due
    2000 ms later.  If [saveIfDirty] runs while that timeout is still
    armed, however much time has passed, it cancels the timeout and makes
    one call to the persistence collaborator, with the labels as they are;
    however the call ends, no timeout remains, so whatever time passes and
    whichever timeout events arrive afterwards, no second call is made. *)
Theorem C6_flush_saves_exactly_once (es0 : list Event) (dt : N) (ok : bool)
    (f : string) :
  let r := run es0 initialRenderer in
  let r1 := markLabelsDirty r in
  let r2 := saveIfDirty ok (advance dt r1) in
  currentFile (state r) = Some f -> f <> "" ->
  (labelsDirty (state r1) = true /\
   exists id, autoSaveTimeout (state r1) = Some id /\
              timers r1 = {[ id := (clock r + 2000)%N ]}) /\
  saveCalls r2 = saveCalls r ++ [(f, labels (state r))] /\
  timers r2 = ∅ /\
  autoSaveTimeout (state r2) = None /\
  labelsDirty (state r2) = negb ok /\
  forall es, Forall timing es -> saveCalls (run es r2) = saveCalls r2.
Proof.
  intros r r1 r2 Hfile Hname.
  pose proof (timersRecorded_run es0 _ timersRecorded_initial) as Hinv. fold r in Hinv.
  assert (timers r1 = {[ nextTimer r := (clock r + 2000)%N ]}) as Ht1.
  { subst r1. unfold markLabelsDirty, scheduleAutoSave. simpl.
    change (clearTimeout _ _) with (clearTimeout (autoSaveTimeout (state r)) (timers r)).
    by rewrite clearTimeout_recorded. }
  split; [split; [done|by exists (nextTimer r)]|].
  assert (saveCalls r2 = saveCalls r ++ [(f, labels (state r))] /\
          timers r2 = ∅ /\ autoSaveTimeout (state r2) = None /\
          labelsDirty (state r2) = negb ok) as (Hs & Ht & Ha & Hd).
  { assert (fileOpen (state (advance dt r1)) = true) as Hopen.
    { unfold fileOpen. change (currentFile (state (advance dt r1)))
        with (currentFile (state r)). by rewrite Hfile, bool_decide_eq_true_2. }
    subst r2. unfold saveIfDirty. rewrite Hopen.
    change (labelsDirty (state (advance dt r1))) with true.
    change (autoSaveTimeout (state (advance dt r1))) with (Some (nextTimer r)).
    cbn [andb]. unfold saveLabels.
    change (currentFile (state (mkRenderer _ _ _ _ _))) with (currentFile (state r)).
    rewrite Hfile, bool_decide_eq_true_2 by done.
    change (timers (advance dt r1)) with (timers r1). rewrite Ht1.
    destruct ok; simpl; by rewrite delete_singleton_eq. }
  repeat (split; [done|]).
  intros es Hes. by apply no_timer_no_save.
Qed.

Lemma C6_flush_saves_exactly_once_witness :
  let es0 := [ELoadFolder "data" true (Some []) (Some []);
              ELoadFile "a.h5" true (Some (mkFileReply (Some (Int 250)) 3)) (Some ∅);
              EClick (mkPointer false false (Int 140) (Int 0)
                        (Some (mkAxis (Int 100) (Int 1000) (Int 0) (Int 4))))] in
  let r2 := saveIfDirty true (advance 500 (markLabelsDirty (run es0 initialRenderer))) in
  length (saveCalls r2) = 1%nat /\
  saveCalls (run [EAdvance 5000; ETimer 1 true; ETimer 2 true] r2) = saveCalls r2.
Proof.
  set (es0 := [ELoadFolder "data" true (Some []) (Some []);
               ELoadFile "a.h5" true (Some (mkFileReply (Some (Int 250)) 3)) (Some ∅);
               EClick (mkPointer false false (Int 140) (Int 0)
                         (Some (mkAxis (Int 100) (Int 1000) (Int 0) (Int 4))))]).
  destruct (C6_flush_saves_exactly_once es0 500 true "a.h5")
    as (_ & Hs & _ & _ & _ & Hlater); [reflexivity|done|].
  split.
  - rewrite Hs. reflexivity.
  - apply Hlater. repeat constructor.
Defined.

(** ** Review and done *)

Lemma pretty_N_go_not_metadata (x : N) (s : string) :
  s <> "_metadata" -> pretty_N_go x s <> "_metadata".
Proof.
  revert s. induction (N.lt_wf_0 x) as [x _ IH]; intros s Hs.
  assert (x = 0 \/ 0 < x)%N as [->|Hpos] by lia.
  - by rewrite pretty_N_go_0.
  - rewrite pretty_N_go_step by done. apply IH.
    { by apply N.div_lt. }
    unfold pretty_N_char. by repeat case_match.
Qed.

(** A segment id is a decimal numeral, never the key ["_metadata"]. *)
Lemma segmentId_not_metadata (s : State) : segmentId s <> "_metadata".
Proof.
  unfold segmentId, pretty, pretty_nat, pretty, pretty_N.
  case_decide; [done|]. by apply pretty_N_go_not_metadata.
Qed.

Lemma getSegmentsWithReview_nil (s : State) :
  getSegmentsWithReview s = [] <->
  forall id seg, labels s !! id = Some seg -> id <> "_metadata" ->
    review seg = false.
Proof.
  unfold getSegmentsWithReview. split.
  - intros H id seg Hseg Hid.
    apply List.map_eq_nil in H.
    destruct (review seg) eqn:Hrev; [|done].
    assert ((id, seg) ∈ List.filter
              (fun entry => bool_decide (fst entry <> "_metadata") && review (snd entry))
              (map_to_list (labels s))) as Hin.
    { apply list_elem_of_In, List.filter_In. split.
      - by apply list_elem_of_In, elem_of_map_to_list.
      - simpl. by rewrite bool_decide_eq_true_2, Hrev. }
    rewrite H in Hin. by apply not_elem_of_nil in Hin.
  - intros H.
    destruct (List.filter _ (map_to_list (labels s))) as [|[id seg] rest] eqn:E; [done|].
    assert (List.In (id, seg) (List.filter
              (fun entry => bool_decide (fst entry <> "_metadata") && review (snd entry))
              (map_to_list (labels s)))) as Hin by (rewrite E; by left).
    apply List.filter_In in Hin as [Hin Htest]. simpl in Htest.
    apply andb_true_iff in Htest as [Hid%bool_decide_eq_true Hrev].
    apply list_elem_of_In, elem_of_map_to_list in Hin.
    rewrite (H id seg Hin Hid) in Hrev. done.
Qed.

Lemma noNewReview_refl (m : gmap string SegmentLabels) : noNewReview m m.
Proof. intros id seg H1 H2. by exists seg. Qed.

Lemma noNewReview_put (m : gmap string SegmentLabels) (id : string)
    (seg' : SegmentLabels) :
  (review seg' = true -> exists seg, m !! id = Some seg /\ review seg = true) ->
  noNewReview m (<[id := seg']> m).
Proof.
  intros H id' seg Hseg Hrev. destruct (decide (id = id')) as [<-|Hne].
  - rewrite lookup_insert_eq in Hseg. simplify_eq. by apply H.
  - rewrite lookup_insert_ne in Hseg by done. by exists seg.
Qed.

(** A record derived from the current one (or from the default record)
    without touching [review] flags nothing new. *)
Lemma noNewReview_put_default (m : gmap string SegmentLabels) (id : string)
    (seg' : SegmentLabels) :
  review seg' = review (default defaultSegment (m !! id)) ->
  noNewReview m (<[id := seg']> m).
Proof.
  intros H. apply noNewReview_put. rewrite H.
  destruct (m !! id) as [seg|]; simpl; [|done]. intros Hrev. by exists seg.
Qed.

Lemma noNewReview_put_same (m : gmap string SegmentLabels) (id : string)
    (seg seg' : SegmentLabels) :
  m !! id = Some seg -> review seg' = review seg ->
  noNewReview m (<[id := seg']> m).
Proof.
  intros Hseg H. apply noNewReview_put. rewrite H. intros Hrev. by exists seg.
Qed.

Lemma review_togglePoint (seg : SegmentLabels) (x : num) (T : LabelType) :
  review (fst (togglePoint seg x T)) = review seg.
Proof.
  unfold togglePoint. by destruct (removeNearby _ _ _).
Qed.

Lemma review_removePoint (seg : SegmentLabels) (x : num) :
  review (fst (removePoint seg x)) = review seg.
Proof. unfold removePoint. by destruct (removeNearby _ _ _). Qed.

Lemma review_eraseNear (seg : SegmentLabels) (x : num) :
  review (fst (eraseNear seg x)) = review seg.
Proof. destruct (eraseNear_spec seg x) as (_ & _ & ->). done. Qed.

Lemma markers_saveLabels (ok : bool) (r : Renderer) :
  markers (saveLabels ok r) = markers r.
Proof.
  unfold saveLabels. destruct (currentFile (state r)) eqn:E; [|done].
  case_bool_decide; [|done]. by destruct ok.
Qed.

Lemma markers_saveIfDirty (ok : bool) (r : Renderer) :
  markers (saveIfDirty ok r) = markers r.
Proof.
  unfold saveIfDirty. destruct (labelsDirty (state r) && fileOpen (state r)); [|done].
  rewrite markers_saveLabels. by destruct (autoSaveTimeout (state r)).
Qed.

Lemma markers_fireTimer (id : positive) (ok : bool) (r : Renderer) :
  markers (fireTimer id ok r) = markers r.
Proof.
  unfold fireTimer. destruct (timers r !! id); [|done].
  destruct (_ <=? _)%N; [|done]. unfold autoSaveCallback. simpl.
  destruct (labelsDirty (state r) && fileOpen (state r)); [|done].
  by rewrite markers_saveLabels.
Qed.

Lemma markersKept_refl (r : Renderer) : markersKept r r.
Proof. split; [done|]. split; [done|]. apply noNewReview_refl. Qed.

Lemma markersKept_markers (r r' : Renderer) :
  markers r' = markers r -> markersKept r r'.
Proof.
  unfold markers. intros [= H1 H2 H3]. split; [done|]. split; [done|].
  rewrite H3. apply noNewReview_refl.
Qed.

Lemma markersKept_eraseAtPositionNoUpdate (ev : Pointer) (r r0 : Renderer) :
  markers r = markers r0 ->
  markersKept r0 (eraseAtPositionNoUpdate ev r).
Proof.
  intros Hm. unfold eraseAtPositionNoUpdate, eraseAt.
  destruct (negb _); [by apply markersKept_markers|].
  destruct (xaxis ev); [|by apply markersKept_markers].
  destruct (JS.isNaN _); [by apply markersKept_markers|].
  destruct (labels (state r) !! _) as [seg|] eqn:Hseg; [|by apply markersKept_markers].
  pose proof (review_eraseNear seg (clickedIndex (state r) (clickedTime ev a))) as Hrev.
  destruct (eraseNear seg _) as [seg' any]. simpl in Hrev.
  unfold markers in Hm. injection Hm as H1 H2 H3.
  split; [|split].
  - rewrite <- H1. by destruct any.
  - rewrite <- H2. by destruct any.
  - rewrite <- H3.
    assert (noNewReview (labels (state r))
              (<[segmentId (state r) := seg']> (labels (state r)))) as Hn
      by by eapply noNewReview_put_same.
    by destruct any.
Qed.

Lemma markersKept_handleEraserMouseUp (r : Renderer) :
  markersKept r (after (handleEraserMouseUp r)).
Proof.
  unfold handleEraserMouseUp.
  destruct (eraserActive (state r)); [|apply markersKept_refl].
  destruct (eraserModified (state r)); [|by apply markersKept_markers].
  destruct (labels (state r) !! _) as [seg|] eqn:Hseg; [|by apply markersKept_markers].
  simpl. split; [done|]. split; [done|]. simpl.
  by eapply noNewReview_put_same.
Qed.

Lemma markersKept_step (e : Event) (r : Renderer) :
  inSession e -> e <> EToggleReview -> (forall result, e <> EToggleDone result) ->
  markersKept r (step e r).
Proof.
  intros Hs Hr Hd.
  destruct e; simpl; try done; try (by apply markersKept_markers).
  - unfold handleDirectClick.
    destruct (onModebar ev); [apply markersKept_refl|].
    destruct (shiftKey ev); [apply markersKept_refl|].
    destruct (regionSelectionMode (state r)).
    + destruct (xaxis ev); [|apply markersKept_refl].
      destruct (regionStart (state r)); [|by apply markersKept_markers].
      destruct (_ >? _)%js; simpl;
        (split; [done|]; split; [done|]; simpl; apply noNewReview_put;
         destruct (labels (state r) !! segmentId (state r)) as [seg|]; simpl;
         [intros Hrev; by exists seg | done]).
    + destruct (xaxis ev); [|apply markersKept_refl].
      destruct (JS.isNaN _); [apply markersKept_refl|]. simpl.
      split; [done|]. split; [done|]. simpl.
      apply noNewReview_put_default, review_togglePoint.
  - unfold handleGraphRightClick.
    destruct (lastHoverData (state r)) as [time|]; [|apply markersKept_refl].
    destruct (labels (state r) !! _) as [seg|] eqn:Hseg; [|apply markersKept_refl].
    pose proof (review_removePoint seg (clickedIndex (state r) time)) as Hrev.
    destruct (removePoint seg _) as [seg' [|]]; [|apply markersKept_refl].
    split; [done|]. split; [done|]. simpl. by eapply noNewReview_put_same.
  - unfold handleEraserMouseDown.
    destruct (negb _); [apply markersKept_refl|].
    destruct (onModebar ev); [apply markersKept_refl|].
    by apply markersKept_eraseAtPositionNoUpdate.
  - unfold handleEraserMouseMove.
    destruct (negb (eraserActive _)); [apply markersKept_refl|].
    destruct (negb (shiftKey ev)); [apply markersKept_handleEraserMouseUp|].
    by apply markersKept_eraseAtPositionNoUpdate.
  - apply markersKept_handleEraserMouseUp.
  - unfold clearRegions.
    destruct (labels (state r) !! _) as [seg|] eqn:Hseg; [|apply markersKept_refl].
    destruct (highlighted_regions seg); [|apply markersKept_refl].
    split; [done|]. split; [done|]. simpl. by eapply noNewReview_put_same.
  - split; [done|]. split; [done|]. simpl. by apply noNewReview_put_default.
  - split; [done|]. split; [done|]. simpl. by apply noNewReview_put_default.
  - unfold eraseCurrentTypeLabels.
    destruct (labels (state r) !! _) as [seg|] eqn:Hseg; [|apply markersKept_refl].
    case_bool_decide; [apply markersKept_refl|].
    destruct confirmed; [|apply markersKept_refl].
    split; [done|]. split; [done|]. simpl. by eapply noNewReview_put_same.
  - unfold eraseUpslopeLabels.
    destruct (labels (state r) !! _) as [seg|] eqn:Hseg; [|apply markersKept_refl].
    case_bool_decide; [apply markersKept_refl|].
    split; [done|]. split; [done|]. simpl. by eapply noNewReview_put_same.
  - unfold findPeaks. destruct (_ || _); [apply markersKept_refl|].
    destruct result as [peaks|]; [|apply markersKept_refl].
    split; [done|]. split; [done|]. simpl. by apply noNewReview_put_default.
  - unfold findOnsetCompression. destruct (_ || _); [apply markersKept_refl|].
    destruct (labels (state r) !! _) as [seg|] eqn:Hseg; [|apply markersKept_refl].
    case_bool_decide; [apply markersKept_refl|].
    destruct result as [onsets|]; [|apply markersKept_refl].
    split; [done|]. split; [done|]. simpl. by eapply noNewReview_put_same.
  - unfold findUpslope. destruct (_ || _); [apply markersKept_refl|].
    destruct (_ && _); [apply markersKept_refl|].
    destruct result as [upslopes|]; [|apply markersKept_refl].
    split; [done|]. split; [done|]. simpl. by apply noNewReview_put_default.
  - apply markersKept_markers, markers_saveLabels.
  - by destruct (Hd result).
  - unfold navigateSegment. destruct (_ && _); [|apply markersKept_refl].
    apply markersKept_markers.
    change (markers (on_state _ (saveIfDirty ok r))) with (markers (saveIfDirty ok r)).
    apply markers_saveIfDirty.
  - apply markersKept_markers, markers_fireTimer.
  - unfold browseDataFolder. destruct path as [p|]; [|apply markersKept_refl].
    case_bool_decide; [|apply markersKept_refl]. by apply markersKept_markers.
Qed.

Lemma isDone_markers (s s' : State) :
  currentFile s' = currentFile s -> doneFiles s' = doneFiles s ->
  isDone s' = isDone s.
Proof. unfold isDone. by intros -> ->. Qed.

Lemma markersKept_not_doneAndReview (r r' : Renderer) :
  markersKept r r' -> ~ doneAndReview (state r) -> ~ doneAndReview (state r').
Proof.
  intros (Hf & Hd & Hn) Hnot [Hdone Hrev]. apply Hnot.
  split; [by rewrite <- (isDone_markers _ _ Hf Hd)|].
  intros Hnil. apply Hrev. apply getSegmentsWithReview_nil.
  intros id seg' Hseg' Hid. destruct (review seg') eqn:E; [|done].
  destruct (Hn id seg' Hseg' E) as (seg & Hseg & Hr).
  rewrite getSegmentsWithReview_nil in Hnil. by rewrite (Hnil id seg Hseg Hid) in Hr.
Qed.

Lemma isDone_file (s : State) :
  isDone s = true -> exists f, currentFile s = Some f.
Proof. unfold isDone. destruct (currentFile s) as [f|]; [by exists f|done]. Qed.

Lemma labels_updateReviewFilesState (f : string) (s : State) :
  labels (updateReviewFilesState f s) = labels s /\
  currentFile (updateReviewFilesState f s) = currentFile s /\
  doneFiles (updateReviewFilesState f s) = doneFiles s /\
  currentSegment (updateReviewFilesState f s) = currentSegment s.
Proof. unfold updateReviewFilesState. by destruct (indexOf _ _), (hasReview s). Qed.

(** A refused review toggle changes nothing. *)
Lemma toggleReview_refused (r : Renderer) :
  isDone (state r) = true ->
  (forall seg, labels (state r) !! segmentId (state r) = Some seg ->
     review seg = false) ->
  toggleReview r = Returned r.
Proof.
  intros Hdone Hoff. unfold toggleReview. rewrite Hdone.
  destruct (labels (state r) !! _) as [seg|]; [|done]. by rewrite (Hoff seg).
Qed.

(** Turning the flag off is accepted, done or not. *)
Lemma toggleReview_off (r : Renderer) (seg : SegmentLabels) :
  isDone (state r) = true ->
  labels (state r) !! segmentId (state r) = Some seg -> review seg = true ->
  exists r', toggleReview r = Returned r' /\
    labels (state r')
    = <[segmentId (state r) := set_review false seg]> (labels (state r)).
Proof.
  intros Hdone Hseg Hrev. unfold toggleReview. rewrite Hdone, Hseg, Hrev. simpl.
  destruct (isDone_file _ Hdone) as [f ->]. eexists. split; [done|]. simpl.
  rewrite (proj1 (labels_updateReviewFilesState f _)). by rewrite Hrev.
Qed.

(** A file with a segment under review is not sent to the done list. *)
Lemma toggleDone_refused (r : Renderer) (result : DoneReply) :
  isDone (state r) = false -> getSegmentsWithReview (state r) <> [] ->
  toggleDone result r = r.
Proof.
  intros Hdone Hrev. unfold toggleDone, toggleDone_request. rewrite Hdone.
  rewrite bool_decide_eq_false_2 by done. by rewrite andb_false_r.
Qed.

Lemma isDone_updateReviewFilesState (f : string) (s : State) :
  isDone (updateReviewFilesState f s) = isDone s.
Proof. unfold updateReviewFilesState. by destruct (indexOf _ _), (hasReview s). Qed.

Lemma isDone_toggleReview (r : Renderer) :
  isDone (state (after (toggleReview r))) = isDone (state r).
Proof.
  unfold toggleReview. destruct (isDone (state r) && _); [done|].
  destruct (currentFile (state r)) as [f|] eqn:Hf; [|done].
  set (r1 := on_state _ r).
  change (isDone (updateReviewFilesState f (state r1)) = isDone (state r)).
  by rewrite isDone_updateReviewFilesState.
Qed.

Lemma toggleReview_not_doneAndReview (r : Renderer) :
  ~ doneAndReview (state r) -> ~ doneAndReview (state (after (toggleReview r))).
Proof.
  intros Hnot [Hdone' Hrev']. rewrite isDone_toggleReview in Hdone'.
  unfold toggleReview in Hrev'. rewrite Hdone' in Hrev'.
  destruct (labels (state r) !! segmentId (state r)) as [seg|] eqn:Hseg;
    [|by apply Hnot].
  destruct (review seg) eqn:Hrev; [|by apply Hnot].
  apply Hnot. split; [done|]. intros Hnil.
  rewrite getSegmentsWithReview_nil in Hnil.
  rewrite (Hnil _ seg Hseg (segmentId_not_metadata _)) in Hrev. done.
Qed.

Lemma toggleDone_not_doneAndReview (r : Renderer) (result : DoneReply) :
  ~ doneAndReview (state r) -> ~ doneAndReview (state (toggleDone result r)).
Proof.
  intros Hnot. unfold toggleDone, toggleDone_request, toggleDone_reply.
  destruct (fileOpen (state r)); [|done]. simpl.
  destruct (isDone (state r)) eqn:Hdone; simpl.
  - destruct (success result); [|done].
    intros [_ Hrev]. apply Hnot. split; [done|]. exact Hrev.
  - case_bool_decide as Hnil; [|done].
    destruct (success result); [|done]. intros [_ Hrev]. by apply Hrev.
Qed.

Lemma step_not_doneAndReview (e : Event) (r : Renderer) :
  inSession e -> ~ doneAndReview (state r) -> ~ doneAndReview (state (step e r)).
Proof.
  intros Hs Hnot.
  destruct e; try done;
    first [ by apply toggleReview_not_doneAndReview
          | by apply toggleDone_not_doneAndReview
          | (apply (markersKept_not_doneAndReview r);
             [by apply markersKept_step | done]) ].
Qed.

Lemma run_not_doneAndReview (es : list Event) (r : Renderer) :
  Forall inSession es -> ~ doneAndReview (state r) ->
  ~ doneAndReview (state (run es r)).
Proof.
  revert r. induction es as [|e es IH]; intros r Hes Hnot; [done|].
  apply Forall_cons in Hes as [He Hes]. simpl.
  apply IH; [done|]. by apply step_not_doneAndReview.
Qed.

(** C7, as the code has it.  While the open file is done, turning the review
    flag of the current segment on is refused and changes nothing, and
    turning it off is accepted.  A file that is not done and has a segment
    under review is not marked done.  Hence the toggles never make a file
    done and under review at once: from a state where the open file is not
    both, no sequence of events of the session (everything but loading a
    folder or a file, each handler running to its end) reaches a state
    where it is.  Loading is not gated, so a file can be both as loaded. *)
Theorem C7_review_and_done_gates (r : Renderer) :
  let s := state r in
  let id := segmentId s in
  (isDone s = true ->
   (forall seg, labels s !! id = Some seg -> review seg = false) ->
   toggleReview r = Returned r) /\
  (forall seg,
     isDone s = true -> labels s !! id = Some seg -> review seg = true ->
     exists r', toggleReview r = Returned r' /\
       labels (state r') = <[id := set_review false seg]> (labels s)) /\
  (forall result,
     isDone s = false -> getSegmentsWithReview s <> [] ->
     toggleDone result r = r) /\
  (forall es,
     Forall inSession es -> ~ doneAndReview s ->
     ~ doneAndReview (state (run es r))).
Proof.
  simpl. split; [apply toggleReview_refused|].
  split; [intros seg; apply toggleReview_off|].
  split; [intros result; apply toggleDone_refused|].
  intros es. apply run_not_doneAndReview.
Qed.

Lemma C7_review_and_done_gates_witness :
  let loaded :=
    run [ELoadFolder "data" true (Some ["a.h5"]) (Some []);
         ELoadFile "a.h5" true (Some (mkFileReply (Some (Int 250)) 3)) (Some ∅)]
      initialRenderer in
  toggleReview loaded = Returned loaded /\
  ~ doneAndReview
      (state (run [EToggleReview; EToggleDone (mkDoneReply true []); EToggleReview;
                   EToggleDone (mkDoneReply true ["a.h5"])] loaded)).
Proof.
  set (loaded := run _ initialRenderer).
  destruct (C7_review_and_done_gates loaded) as (Hrefused & _ & _ & Hinv).
  split.
  - apply Hrefused; [reflexivity|]. intros seg Hseg. by vm_compute in Hseg.
  - apply Hinv; [repeat constructor|].
    intros [_ Hrev]. by vm_compute in Hrev.
Defined.

(** A file listed as done whose stored labels flag segment 0 for review is,
    once loaded, done and under review; the review flag can then be turned
    off, which is what the second gate is for. *)
Lemma C7_loaded_done_and_review :
  let loaded :=
    run [ELoadFolder "data" true (Some ["a.h5"]) (Some ["a"]);
         ELoadFile "a.h5" true (Some (mkFileReply (Some (Int 250)) 3))
           (Some {[ "0" := mkSegmentLabels true true empty_indexes "" "" None ]})]
      initialRenderer in
  doneAndReview (state loaded) /\
  getSegmentsWithReview (state (after (toggleReview loaded))) = [].
Proof. split; [split|]; by vm_compute. Qed.

(** The done request and its reply are two steps of the event loop.  A
    review toggle handled between them is accepted, since the file is not
    done yet, and the reply then marks the file done. *)
Example review_between_done_request_and_reply :
  let loaded :=
    run [ELoadFolder "data" true (Some []) (Some []);
         ELoadFile "a.h5" true (Some (mkFileReply (Some (Int 250)) 3)) (Some ∅)]
      initialRenderer in
  toggleDone_request (state loaded) = true /\
  doneAndReview
    (state (toggleDone_reply (mkDoneReply true ["a.h5"])
              (after (toggleReview loaded)))).
Proof. split; [|split]; by vm_compute. Qed.

(** ** The bridge: timeouts *)
Module BridgeFacts.
Import PythonBridge.

Lemma settledTimes_settle (q p : nat) (how : Settlement) (b : Bridge) :
  settledTimes q (settle p how b)
  = (settledTimes q b + if decide (p = q) then 1 else 0)%nat.
Proof.
  unfold settledTimes, settle. simpl. rewrite List.filter_app, length_app. simpl.
  destruct (Nat.eqb_spec p q); case_decide; simpl; lia.
Qed.

Lemma settledTimes_0_pending (p : nat) (b : Bridge) :
  settledTimes p b = 0%nat -> promiseState p b = None.
Proof.
  unfold settledTimes, promiseState.
  induction (settlements b) as [|[q how] l IH]; simpl; [done|].
  destruct (Nat.eqb q p); simpl; [done|]. exact IH.
Qed.

Lemma promiseState_settle_first (p : nat) (how : Settlement) (b : Bridge) :
  settledTimes p b = 0%nat -> promiseState p (settle p how b) = Some how.
Proof.
  unfold settledTimes, promiseState, settle. simpl.
  induction (settlements b) as [|[q how'] l IH]; simpl.
  - by rewrite Nat.eqb_refl.
  - destruct (Nat.eqb q p); simpl; [done|]. exact IH.
Qed.

Lemma promiseState_settle_other (q p : nat) (how : Settlement) (b : Bridge) :
  q <> p -> promiseState q (settle p how b) = promiseState q b.
Proof.
  intros Hne. unfold promiseState, settle. simpl.
  induction (settlements b) as [|[q' how'] l IH]; simpl.
  - destruct (Nat.eqb_spec p q); [congruence|done].
  - destruct (Nat.eqb q' q); simpl; [done|]. exact IH.
Qed.

(** Later settlements do not change a settled promise. *)
Lemma promiseState_app (p : nat) (how : Settlement) (l l' : list (nat * Settlement)) :
  snd <$> List.find (fun entry => Nat.eqb (fst entry) p) l = Some how ->
  snd <$> List.find (fun entry => Nat.eqb (fst entry) p) (l ++ l') = Some how.
Proof.
  induction l as [|[q how'] l IH]; simpl; [done|].
  destruct (Nat.eqb q p); simpl; [done|]. exact IH.
Qed.

(** Every event only appends to the list of settlements. *)
Lemma settlements_grow (e : BridgeEvent) (b : Bridge) :
  exists more, settlements (bridge_step e b) = settlements b ++ more.
Proof.
  destruct e; simpl; try (by exists []; rewrite app_nil_r).
  - unfold call. destruct (negb _); simpl; [by eexists|].
    exists []. by rewrite app_nil_r.
  - unfold handleMessage. destruct (msg_id message) as [id|];
      [|by exists []; rewrite app_nil_r].
    destruct (pendingCalls b !! id); [|by exists []; rewrite app_nil_r].
    destruct (msg_error message) as [e|]; [case_bool_decide|]; by eexists.
  - unfold fireTimeout. destruct (timeouts b !! id); [|by exists []; rewrite app_nil_r].
    destruct (_ <=? _)%N; [|by exists []; rewrite app_nil_r].
    unfold timeoutCallback. simpl.
    destruct (pendingCalls b !! id); [by eexists|]. exists []. by rewrite app_nil_r.
Qed.

Lemma settlements_grow_run (es : list BridgeEvent) (b : Bridge) :
  exists more, settlements (bridge_run es b) = settlements b ++ more.
Proof.
  revert b. induction es as [|e es IH]; intros b; simpl.
  - exists []. by rewrite app_nil_r.
  - destruct (IH (bridge_step e b)) as [more1 ->].
    destruct (settlements_grow e b) as [more2 ->].
    exists (more2 ++ more1). by rewrite app_assoc.
Qed.


Lemma bridgeInv_initial : bridgeInv initialBridge.
Proof.
  split; [|split; [|split; [|split]]]; try done.
  - intros p. unfold settledTimes. simpl. lia.
Qed.

(** Settling the promise of a pending call while removing the call keeps
    the invariant; so does dropping armed timeouts. *)
Lemma bridgeInv_settle_pending (b : Bridge) (id p : nat) (how : Settlement)
    (tm : gmap nat N) :
  bridgeInv b -> pendingCalls b !! id = Some p ->
  (forall i due, tm !! i = Some due -> exists due', timeouts b !! i = Some due') ->
  bridgeInv
    (settle p how
       (mkBridge (pythonProcess b) (messageId b) (delete id (pendingCalls b))
          (nextPromise b) (settlements b) tm (now b) (sent b))).
Proof.
  intros (I1 & I2 & I3 & I4 & I5) Hp Htm.
  destruct (I1 id p Hp) as (Hid & Hlt & H0).
  split; [|split; [|split; [|split]]].
  - intros id' p' Hp'. simpl in Hp'. apply lookup_delete_Some in Hp' as [Hne Hp'].
    destruct (I1 id' p' Hp') as (? & ? & H0').
    split; [done|]. split; [done|]. rewrite settledTimes_settle.
    change (settledTimes p' (mkBridge _ _ _ _ _ _ _ _)) with (settledTimes p' b).
    case_decide as E; [|lia]. subst p'. destruct Hne. by apply (I2 id id' p).
  - intros id1 id2 p' H1 H2. simpl in H1, H2.
    apply lookup_delete_Some in H1 as [_ H1].
    apply lookup_delete_Some in H2 as [_ H2]. by apply (I2 id1 id2 p').
  - intros q Hq. simpl in Hq. rewrite settledTimes_settle.
    change (settledTimes q (mkBridge _ _ _ _ _ _ _ _)) with (settledTimes q b).
    rewrite (I3 q Hq). case_decide; [lia|done].
  - intros q. rewrite settledTimes_settle.
    change (settledTimes q (mkBridge _ _ _ _ _ _ _ _)) with (settledTimes q b).
    case_decide as E; [subst q; lia|]. pose proof (I4 q). lia.
  - intros i due Hi. simpl in Hi. destruct (Htm i due Hi) as [due' Hd].
    by apply (I5 i due').
Qed.

Lemma bridgeInv_handleMessage (message : Message) (b : Bridge) :
  bridgeInv b -> bridgeInv (handleMessage message b).
Proof.
  intros Hinv. unfold handleMessage.
  destruct (msg_id message) as [id|]; [|done].
  destruct (pendingCalls b !! id) as [p|] eqn:Hp; [|done].
  destruct (msg_error message) as [e|]; [case_bool_decide|];
    apply bridgeInv_settle_pending; eauto.
Qed.

Lemma bridgeInv_fireTimeout (id : nat) (b : Bridge) :
  bridgeInv b -> bridgeInv (fireTimeout id b).
Proof.
  intros Hinv. unfold fireTimeout.
  destruct (timeouts b !! id) as [due|] eqn:Hdue; [|done].
  destruct (_ <=? _)%N; [|done]. unfold timeoutCallback. simpl.
  destruct (pendingCalls b !! id) as [p|] eqn:Hp.
  - apply (bridgeInv_settle_pending b id p _ (delete id (timeouts b)) Hinv Hp).
    intros i due' [_ Hi]%lookup_delete_Some. by exists due'.
  - destruct Hinv as (I1 & I2 & I3 & I4 & I5).
    split; [|split; [|split; [|split]]]; try done.
    intros i due' Hi. simpl in Hi. apply lookup_delete_Some in Hi as [_ Hi].
    by apply (I5 i due').
Qed.

Lemma bridgeInv_call (method params : string) (b : Bridge) :
  bridgeInv b -> bridgeInv (fst (call method params b)).
Proof.
  intros (I1 & I2 & I3 & I4 & I5). unfold call.
  destruct (pythonProcess b); simpl.
  - split; [|split; [|split; [|split]]].
    + intros id p Hp. simpl in Hp.
      change (settledTimes p (mkBridge _ _ _ _ _ _ _ _)) with (settledTimes p b).
      apply lookup_insert_Some in Hp as [[<- <-]|[Hne Hp]].
      * split; [simpl; lia|]. split; [simpl; lia|]. by apply I3.
      * destruct (I1 id p Hp) as (? & ? & ?). simpl. split; [lia|]. split; [lia|done].
    + intros id1 id2 p H1 H2. simpl in H1, H2.
      apply lookup_insert_Some in H1 as [[<- <-]|[Hne1 H1]];
        apply lookup_insert_Some in H2 as [[<- E]|[Hne2 H2]]; try done.
      * destruct (I1 _ _ H2) as (_ & ? & _). lia.
      * destruct (I1 _ _ H1) as (_ & ? & _). lia.
      * by apply (I2 id1 id2 p).
    + intros q Hq. simpl in Hq.
      change (settledTimes q (mkBridge _ _ _ _ _ _ _ _)) with (settledTimes q b).
      apply I3. lia.
    + intros q. apply (I4 q).
    + intros i due Hi. simpl in Hi. simpl.
      apply lookup_insert_Some in Hi as [[<- _]|[_ Hi]]; [lia|].
      pose proof (I5 i due Hi). lia.
  - set (p := nextPromise b).
    assert (forall q, settledTimes q (mkBridge false (messageId b) (pendingCalls b)
                        (S p) (settlements b ++ [(p, Reject "Python process not started")])
                        (timeouts b) (now b) (sent b))
                      = (settledTimes q b + if decide (p = q) then 1 else 0)%nat) as Hst.
    { intros q. apply (settledTimes_settle q p _ b). }
    split; [|split; [|split; [|split]]].
    + intros id q Hq. simpl in Hq. destruct (I1 id q Hq) as (? & ? & H0).
      split; [done|]. split; [simpl; lia|].
      rewrite Hst, H0. case_decide; [lia|done].
    + exact I2.
    + intros q Hq. simpl in Hq. rewrite Hst, (I3 q) by lia.
      case_decide; [lia|done].
    + intros q. rewrite Hst. case_decide as E.
      * subst q. rewrite (I3 p) by (unfold p; lia). lia.
      * pose proof (I4 q). lia.
    + exact I5.
Qed.

Lemma bridgeInv_step (e : BridgeEvent) (b : Bridge) :
  bridgeInv b -> bridgeInv (bridge_step e b).
Proof.
  intros Hinv. destruct e; simpl; try done.
  - by apply bridgeInv_call.
  - by apply bridgeInv_handleMessage.
  - by apply bridgeInv_fireTimeout.
Qed.

Lemma bridgeInv_run (es : list BridgeEvent) (b : Bridge) :
  bridgeInv b -> bridgeInv (bridge_run es b).
Proof.
  revert b. induction es as [|e es IH]; intros b Hinv; [done|].
  simpl. by apply IH, bridgeInv_step.
Qed.


(** While no response to call [id] arrives and its timeout does not run, the
    call stays pending and its timeout stays armed. *)
Lemma quiet_keeps_pending (id p : nat) (due : N) (es : list BridgeEvent)
    (b : Bridge) :
  bridgeInv b -> quiet id es ->
  pendingCalls b !! id = Some p -> timeouts b !! id = Some due ->
  pendingCalls (bridge_run es b) !! id = Some p /\
  timeouts (bridge_run es b) !! id = Some due.
Proof.
  revert b. induction es as [|e es IH]; intros b Hinv Hq Hp Hd; [done|].
  apply Forall_cons in Hq as [He Hq]. simpl.
  apply IH; [by apply bridgeInv_step|done|..].
  - destruct e; simpl; try done.
    + unfold call. destruct (negb _); simpl; [done|].
      rewrite lookup_insert_ne; [done|].
      destruct Hinv as (I1 & _). destruct (I1 id p Hp) as (? & _). lia.
    + unfold handleMessage. destruct (msg_id message) as [i|]; [|done].
      destruct (pendingCalls b !! i) as [q|]; [|done].
      assert (i <> id) by congruence.
      destruct (msg_error message) as [e|]; [case_bool_decide|]; simpl;
        by rewrite lookup_delete_ne.
    + unfold fireTimeout. destruct (timeouts b !! id0); [|done].
      destruct (_ <=? _)%N; [|done]. unfold timeoutCallback. simpl.
      destruct (pendingCalls b !! id0); simpl; [|done]. by rewrite lookup_delete_ne.
  - destruct e; simpl; try done.
    + unfold call. destruct (negb _); simpl; [done|].
      rewrite lookup_insert_ne; [done|].
      destruct Hinv as (I1 & _). destruct (I1 id p Hp) as (? & _). lia.
    + unfold handleMessage. destruct (msg_id message) as [i|]; [|done].
      destruct (pendingCalls b !! i) as [q|]; [|done].
      by destruct (msg_error message) as [e|]; [case_bool_decide|].
    + unfold fireTimeout. destruct (timeouts b !! id0); [|done].
      destruct (_ <=? _)%N; [|done]. unfold timeoutCallback. simpl.
      destruct (pendingCalls b !! id0); simpl; by rewrite lookup_delete_ne.
Qed.

Lemma settledTimes_app (p : nat) (b b' : Bridge) (more : list (nat * Settlement)) :
  settlements b' = settlements b ++ more ->
  (settledTimes p b <= settledTimes p b')%nat.
Proof.
  intros H. unfold settledTimes. rewrite H, List.filter_app, length_app. lia.
Qed.

(** C3.  Take any state of the bridge reached from the initial one in which
    the process runs, and issue a call: it gets the id [messageId] and a
    fresh promise, and its timeout is armed 30000 ms ahead.  If no response
    carrying that id arrives before the timeout runs, the call is still
    pending then, and the timeout removes its entry and rejects its promise
    with the timeout error.  Nothing else changes: the other pending
    entries and the state of every other promise are as before.  A response
    for that id arriving afterwards changes nothing, and whatever events
    follow, the promise has been settled exactly once and stays rejected
    with the timeout error. *)
Theorem C3_timeout_rejects_once (es0 es : list BridgeEvent)
    (method params : string) :
  let b := bridge_run es0 initialBridge in
  let id := messageId b in
  let p := snd (call method params b) in
  let b1 := fst (call method params b) in
  let b2 := bridge_run es b1 in
  let b3 := fireTimeout id b2 in
  pythonProcess b = true -> quiet id es ->
  (now b + TIMEOUT_MS <= now b2)%N ->
  (timeouts b1 !! id = Some (now b + TIMEOUT_MS)%N /\
   pendingCalls b2 !! id = Some p /\ promiseState p b2 = None) /\
  (settlements b3 = settlements b2 ++ [(p, Reject "Python call timeout")] /\
   promiseState p b3 = Some (Reject "Python call timeout") /\
   pendingCalls b3 = delete id (pendingCalls b2)) /\
  (forall q, q <> p -> promiseState q b3 = promiseState q b2) /\
  (forall message, msg_id message = Some id -> handleMessage message b3 = b3) /\
  (forall es',
     settledTimes p (bridge_run es' b3) = 1%nat /\
     promiseState p (bridge_run es' b3) = Some (Reject "Python call timeout")).
Proof.
  intros b id p b1 b2 b3 Hrun Hquiet Hdue.
  pose proof (bridgeInv_run es0 _ bridgeInv_initial) as Hinv. fold b in Hinv.
  assert (b1 = mkBridge true (S id) (<[id := nextPromise b]> (pendingCalls b))
                 (S (nextPromise b)) (settlements b)
                 (<[id := (now b + TIMEOUT_MS)%N]> (timeouts b)) (now b)
                 (sent b ++ [mkRequest id method params]) /\ p = nextPromise b)
    as [Hb1 Hp].
  { subst b1 p. unfold call. by rewrite Hrun. }
  assert (bridgeInv b1) as Hinv1 by (apply (bridgeInv_call method params b Hinv)).
  assert (pendingCalls b1 !! id = Some p) as Hp1.
  { rewrite Hb1, Hp. simpl. apply lookup_insert_eq. }
  assert (timeouts b1 !! id = Some (now b + TIMEOUT_MS)%N) as Ht1.
  { rewrite Hb1. simpl. apply lookup_insert_eq. }
  destruct (quiet_keeps_pending id p _ es b1 Hinv1 Hquiet Hp1 Ht1) as [Hp2 Ht2].
  fold b2 in Hp2, Ht2.
  assert (bridgeInv b2) as Hinv2 by by apply bridgeInv_run.
  assert (settledTimes p b2 = 0%nat) as H0.
  { destruct Hinv2 as (I1 & _). by destruct (I1 id p Hp2) as (_ & _ & ?). }
  assert (b3 = settle p (Reject "Python call timeout")
                 (mkBridge (pythonProcess b2) (messageId b2)
                    (delete id (pendingCalls b2)) (nextPromise b2)
                    (settlements b2) (delete id (timeouts b2)) (now b2) (sent b2)))
    as Hb3.
  { subst b3. unfold fireTimeout. rewrite Ht2.
    rewrite (proj2 (N.leb_le _ _) Hdue). unfold timeoutCallback. simpl.
    by rewrite Hp2. }
  assert (bridgeInv b3) as Hinv3 by by apply bridgeInv_fireTimeout.
  split; [by split; [|split; [|apply settledTimes_0_pending]]|].
  split.
  { split; [by rewrite Hb3|]. split; [|by rewrite Hb3].
    rewrite Hb3. by apply (promiseState_settle_first p _
      (mkBridge (pythonProcess b2) (messageId b2) (delete id (pendingCalls b2))
         (nextPromise b2) (settlements b2) (delete id (timeouts b2)) (now b2)
         (sent b2))). }
  split.
  { intros q Hq. rewrite Hb3. by rewrite promiseState_settle_other. }
  split.
  { intros message Hm. unfold handleMessage. rewrite Hm, Hb3. simpl.
    by rewrite lookup_delete_eq. }
  intros es'.
  assert (settledTimes p b3 = 1%nat) as H1.
  { rewrite Hb3, settledTimes_settle.
    change (settledTimes p (mkBridge _ _ _ _ _ _ _ _)) with (settledTimes p b2).
    rewrite H0. by rewrite decide_True. }
  destruct (settlements_grow_run es' b3) as [more Hmore].
  split.
  - pose proof (settledTimes_app p _ _ _ Hmore) as Hge.
    destruct (bridgeInv_run es' b3 Hinv3) as (_ & _ & _ & I4 & _).
    pose proof (I4 p). lia.
  - unfold promiseState. rewrite Hmore. apply promiseState_app.
    rewrite Hb3. by apply (promiseState_settle_first p _
      (mkBridge (pythonProcess b2) (messageId b2) (delete id (pendingCalls b2))
         (nextPromise b2) (settlements b2) (delete id (timeouts b2)) (now b2)
         (sent b2))).
Qed.

Lemma C3_timeout_rejects_once_witness :
  let b1 := bridge_run [BStart; BCall "find_peaks" "{}"; BCall "get_segment" "{}"]
              initialBridge in
  let b3 := bridge_run [BMessage (mkMessage (Some 0%nat) "[]" None);
                        BElapse 30000; BTimeout 1] b1 in
  promiseState 0 b3 = Some (Resolve "[]") /\
  promiseState 1 b3 = Some (Reject "Python call timeout") /\
  settledTimes 1
    (bridge_run [BMessage (mkMessage (Some 1%nat) "late" None); BTimeout 1] b3)
  = 1%nat.
Proof.
  split; [reflexivity|].
  destruct (C3_timeout_rejects_once
              [BStart; BCall "find_peaks" "{}"]
              [BMessage (mkMessage (Some 0%nat) "[]" None); BElapse 30000]
              "get_segment" "{}")
    as (_ & (_ & Hrej & _) & _ & _ & Hlater).
  - reflexivity.
  - repeat constructor; simpl; congruence.
  - by vm_compute.
  - split; [exact Hrej|].
    exact (proj1 (Hlater [BMessage (mkMessage (Some 1%nat) "late" None); BTimeout 1])).
Defined.

End BridgeFacts.

(** ** The eraser along a path *)

Lemma filter_farFromAll_cons (x : num) (xs : list num) (arr : list num) :
  List.filter (farFromAll (x :: xs)) arr
  = List.filter (farFromAll xs) (List.filter (far x) arr).
Proof.
  induction arr as [|p arr IH]; [done|]. simpl.
  destruct (far x p) eqn:Hp; simpl; [|done].
  destruct (farFromAll xs p); simpl; by rewrite IH.
Qed.

Lemma filter_farFromAll_nil (arr : list num) :
  List.filter (farFromAll []) arr = arr.
Proof. induction arr as [|p arr IH]; [done|]. simpl. by rewrite IH. Qed.

Lemma pointerIndex_erase (ev : Pointer) (r : Renderer) (x : num) :
  fileData (state r) = true -> pointerIndex (state r) ev = Some x ->
  eraseAtPositionNoUpdate ev r = eraseAt x r.
Proof.
  unfold pointerIndex, eraseAtPositionNoUpdate. intros -> H. simpl.
  destruct (xaxis ev) as [ax|]; [|done].
  destruct (JS.isNaN _); [done|]. by injection H as <-.
Qed.

(** What [eraseAt] leaves alone. *)
Lemma eraseAt_frame (x : num) (r : Renderer) :
  fileData (state (eraseAt x r)) = fileData (state r) /\
  metadata (state (eraseAt x r)) = metadata (state r) /\
  eraserActive (state (eraseAt x r)) = eraserActive (state r) /\
  labelsDirty (state (eraseAt x r)) = labelsDirty (state r) /\
  timers (eraseAt x r) = timers r /\
  saveCalls (eraseAt x r) = saveCalls r.
Proof.
  unfold eraseAt. destruct (labels (state r) !! _) as [seg|]; [|done].
  by destruct (eraseNear seg x) as [seg' [|]].
Qed.

Lemma pointerIndex_metadata (s s' : State) (ev : Pointer) :
  metadata s' = metadata s -> pointerIndex s' ev = pointerIndex s ev.
Proof.
  intros H. unfold pointerIndex, clickedIndex, samplingRate. by rewrite H.
Qed.


Lemma existsb_orb {A} (f g : A -> bool) (l : list A) :
  List.existsb (fun a => f a || g a) l = List.existsb f l || List.existsb g l.
Proof.
  induction l as [|a l IH]; [done|]. simpl. rewrite IH.
  destruct (f a), (g a), (List.existsb f l); done.
Qed.

Lemma existsb_within_cons (x : num) (xs arr : list num) :
  List.existsb (fun p => negb (farFromAll (x :: xs) p)) arr
  = List.existsb (near ERASER_TOLERANCE x) arr
    || List.existsb (fun p => negb (farFromAll xs p)) (List.filter (far x) arr).
Proof.
  induction arr as [|p arr IH]; [done|].
  change (negb (farFromAll (x :: xs) p)
          || List.existsb (fun p => negb (farFromAll (x :: xs) p)) arr
          = (near ERASER_TOLERANCE x p || List.existsb (near ERASER_TOLERANCE x) arr)
            || List.existsb (fun p => negb (farFromAll xs p))
                 (if far x p then p :: List.filter (far x) arr
                  else List.filter (far x) arr)).
  rewrite IH. change (farFromAll (x :: xs) p) with (far x p && farFromAll xs p).
  unfold far. destruct (near ERASER_TOLERANCE x p); simpl; [done|].
  fold (far x). 
  destruct (farFromAll xs p); simpl; [done|]. by rewrite orb_true_r.
Qed.

Lemma anyWithin_nil (li : LabelIndexes) : anyWithin [] li = false.
Proof.
  unfold anyWithin. rewrite (existsb_agree _ (fun _ => false)); [done|].
  intros T _. by induction (points li T).
Qed.

Lemma anyWithin_cons (x : num) (xs : list num) (seg : SegmentLabels) :
  anyWithin (x :: xs) (label_indexes seg)
  = snd (eraseNear seg x) || anyWithin xs (label_indexes (fst (eraseNear seg x))).
Proof.
  destruct (eraseNear_spec seg x) as (Hp & -> & _). unfold anyWithin.
  rewrite <- existsb_orb. apply existsb_agree. intros T _.
  by rewrite existsb_within_cons, Hp.
Qed.

(** Pointer moves with Shift held, while the eraser is active. *)
Lemma moves_erase (moves : list Pointer) (xs : list num) :
  forall (r : Renderer) (seg : SegmentLabels),
  let id := segmentId (state r) in
  fileData (state r) = true -> eraserActive (state r) = true ->
  labels (state r) !! id = Some seg ->
  Forall (fun ev => shiftKey ev = true) moves ->
  Forall2 (fun ev x => pointerIndex (state r) ev = Some x) moves xs ->
  let r' := run (EMouseMove <$> moves) r in
  exists li',
    labels (state r') = <[id := set_label_indexes li' seg]> (labels (state r)) /\
    (forall T, points li' T = List.filter (farFromAll xs) (points (label_indexes seg) T)) /\
    eraserActive (state r') = true /\
    eraserModified (state r')
    = eraserModified (state r) || anyWithin xs (label_indexes seg) /\
    labelsDirty (state r') = labelsDirty (state r) /\
    saveCalls r' = saveCalls r.
Proof.
  revert xs. induction moves as [|ev moves IH];
    intros xs r seg id Hfile Hactive Hseg Hshift Hxs.
  - apply Forall2_nil_inv_l in Hxs as ->. exists (label_indexes seg).
    split; [|split; [|split; [|split]]].
    + simpl. rewrite insert_id; [done|]. by destruct seg.
    + intros T. by rewrite filter_farFromAll_nil.
    + done.
    + by rewrite anyWithin_nil, orb_false_r.
    + done.
  - apply Forall_cons in Hshift as [Hev Hshift].
    apply Forall2_cons_inv_l in Hxs as (x & xs' & Hx & Hxs' & ->).
    set (r1 := step (EMouseMove ev) r).
    assert (r1 = eraseAt x r) as Hr1.
    { unfold r1. simpl. unfold handleEraserMouseMove. rewrite Hactive, Hev. simpl.
      by apply pointerIndex_erase. }
    destruct (eraseAt_spec r x seg Hseg) as (Hid & Hl & Hm).
    destruct (eraseAt_frame x r) as (Hf & Hmeta & Ha & Hd & _ & Hsc).
    rewrite <- Hr1 in Hid, Hl, Hm, Hf, Hmeta, Ha, Hd, Hsc.
    destruct (IH xs' r1 (fst (eraseNear seg x))) as (li' & H1 & H2 & H3 & H4 & H5 & H6).
    + congruence.
    + congruence.
    + rewrite Hid, Hl. apply lookup_insert_eq.
    + done.
    + eapply Forall2_impl; [exact Hxs'|]. intros ev' x' <-.
      by apply pointerIndex_metadata.
    + exists li'. change (run (EMouseMove <$> ev :: moves) r)
        with (run (EMouseMove <$> moves) r1).
      destruct (eraseNear_spec seg x) as (Hp & _ & Hfst).
      split; [|split; [|split; [|split; [|split]]]].
      * rewrite H1, Hid, Hl, insert_insert_eq. f_equal.
        rewrite Hfst. done.
      * intros T. by rewrite H2, filter_farFromAll_cons, Hp.
      * done.
      * by rewrite H4, Hm, anyWithin_cons, orb_assoc.
      * congruence.
      * congruence.
Qed.

(** X1.  A drag-erase sweep over the record [seg] of the current segment: the
    pointer goes down with Shift held and moves on with Shift held, at the
    sample indexes [xs].  Each array then holds, in their order, the points
    that are out of reach of the eraser at every one of these indexes, and
    the rest of the record is as before; [eraserModified] tells whether a
    point was within reach; nothing is marked dirty or saved during the
    sweep.  The release of the pointer ends the sweep: when a point was
    removed the record becomes labeled and the labels dirty, otherwise
    nothing else changes. *)
Theorem sweep_erases_along_path (r : Renderer) (down : Pointer)
    (moves : list Pointer) (seg : SegmentLabels) (xs : list num) :
  let s := state r in
  let id := segmentId s in
  let r1 := run (EMouseDown down :: (EMouseMove <$> moves)) r in
  let r2 := step EMouseUp r1 in
  fileData s = true -> labels s !! id = Some seg ->
  onModebar down = false ->
  Forall (fun ev => shiftKey ev = true) (down :: moves) ->
  Forall2 (fun ev x => pointerIndex s ev = Some x) (down :: moves) xs ->
  exists li',
    (forall T, points li' T
               = List.filter (farFromAll xs) (points (label_indexes seg) T)) /\
    labels (state r1) = <[id := set_label_indexes li' seg]> (labels s) /\
    eraserActive (state r1) = true /\
    eraserModified (state r1) = anyWithin xs (label_indexes seg) /\
    labelsDirty (state r1) = labelsDirty s /\
    saveCalls r1 = saveCalls r /\
    eraserActive (state r2) = false /\
    labels (state r2)
    = (if anyWithin xs (label_indexes seg)
       then <[id := set_labeled true (set_label_indexes li' seg)]> (labels s)
       else labels (state r1)) /\
    labelsDirty (state r2) = labelsDirty s || anyWithin xs (label_indexes seg).
Proof.
  intros s id r1 r2 Hfile Hseg Hbar Hshift Hxs.
  apply Forall_cons in Hshift as [Hdown Hshift].
  apply Forall2_cons_inv_l in Hxs as (x & xs' & Hx & Hxs' & ->).
  set (r0 := on_state (fun s => set_eraserModified false (set_eraserActive true s)) r).
  set (ra := step (EMouseDown down) r).
  assert (ra = eraseAt x r0) as Hra.
  { unfold ra. simpl. unfold handleEraserMouseDown. rewrite Hdown, Hbar. simpl.
    by apply pointerIndex_erase. }
  assert (labels (state r0) !! segmentId (state r0) = Some seg) as Hseg0 by done.
  destruct (eraseAt_spec r0 x seg Hseg0) as (Hid & Hl & Hm).
  destruct (eraseAt_frame x r0) as (Hf & Hmeta & Ha & Hd & _ & Hsc).
  rewrite <- Hra in Hid, Hl, Hm, Hf, Hmeta, Ha, Hd, Hsc.
  destruct (moves_erase moves xs' ra (fst (eraseNear seg x)))
    as (li' & H1 & H2 & H3 & H4 & H5 & H6).
  { by rewrite Hf. }
  { by rewrite Ha. }
  { rewrite Hid, Hl. apply lookup_insert_eq. }
  { done. }
  { eapply Forall2_impl; [exact Hxs'|]. intros ev' x' <-.
    by apply pointerIndex_metadata. }
  change (run (EMouseMove <$> moves) ra) with r1 in H1, H3, H4, H5, H6.
  destruct (eraseNear_spec seg x) as (Hp & _ & Hfst).
  assert (labels (state r1) = <[id := set_label_indexes li' seg]> (labels s)) as Hl1.
  { rewrite H1, Hid, Hl. change (segmentId (state r0)) with id.
    change (labels (state r0)) with (labels s).
    rewrite insert_insert_eq. f_equal. by rewrite Hfst. }
  assert (eraserModified (state r1) = anyWithin (x :: xs') (label_indexes seg)) as Hm1.
  { by rewrite H4, Hm, anyWithin_cons. }
  assert (segmentId (state r1) = id) as Hid1.
  { assert (forall ra, sweepInv r ra ->
                        sweepInv r (run (EMouseMove <$> moves) ra)) as Hgen.
    { clear. induction moves as [|ev moves IH]; intros ra Hinv; [exact Hinv|].
      simpl. apply IH. by apply sweepInv_move. }
    destruct (Hgen ra (sweepInv_down r down)) as [Hi _]. exact Hi. }
  exists li'. split; [|split; [|split; [|split; [|split; [|split]]]]].
  - intros T. by rewrite H2, filter_farFromAll_cons, Hp.
  - done.
  - done.
  - done.
  - by rewrite H5, Hd.
  - by rewrite H6, Hsc.
  - unfold r2. simpl. unfold handleEraserMouseUp. rewrite H3, Hm1, Hid1.
    assert (labels (state r1) !! id = Some (set_label_indexes li' seg)) as Hl1'
      by (rewrite Hl1; apply lookup_insert_eq).
    rewrite Hl1'.
    destruct (anyWithin (x :: xs') (label_indexes seg)); simpl.
    + split; [done|]. split; [|by rewrite orb_true_r].
      by rewrite Hl1, insert_insert_eq.
    + split; [done|]. split; [done|]. by rewrite H5, Hd, orb_false_r.
Qed.

(** The record of segment 0 holds the points 10, 30 and 50 of one type and
    14 of another.  A sweep over the samples 10, 20 and 50 leaves the point
    30 and a labeled record. *)
Lemma sweep_erases_along_path_witness :
  let seg := mkSegmentLabels false false
               (mkLabelIndexes [Int 10; Int 30; Int 50] [Int 14] [] []) "" "" None in
  let r := openSession {[ "0" := seg ]} in
  let r2 := step EMouseUp
              (run (EMouseDown (pointerAt true 105)
                    :: (EMouseMove <$> [pointerAt true 110; pointerAt true 125])) r) in
  labels (state r2) !! "0"
  = Some (mkSegmentLabels true false (mkLabelIndexes [Int 30] [] [] []) "" "" None) /\
  labelsDirty (state r2) = true.
Proof.
  intros seg r r2.
  pose proof (sweep_erases_along_path r (pointerAt true 105)
                [pointerAt true 110; pointerAt true 125] seg
                [Int 10; Int 20; Int 50]) as H.
  cbv zeta in H. fold r2 in H.
  assert (anyWithin [Int 10; Int 20; Int 50] (label_indexes seg) = true) as Hany
    by (by vm_compute).
  assert (segmentId (state r) = "0") as Hid by (by vm_compute).
  assert (labelsDirty (state r) = false) as Hdirty by (by vm_compute).
  rewrite Hany, Hid, Hdirty in H.
  destruct H as (li' & Hp & _ & _ & _ & _ & _ & _ & Hl & Hd).
  - by vm_compute.
  - by vm_compute.
  - reflexivity.
  - repeat constructor.
  - repeat constructor; by vm_compute.
  - split; [|exact Hd].
    rewrite Hl, lookup_insert_eq. f_equal.
    assert (li' = mkLabelIndexes [Int 30] [] [] []) as ->; [|done].
    apply LabelIndexes_ext. intros T. rewrite Hp. by destruct T; vm_compute.
Defined.

(** ** Navigation *)

(** Case analysis on the tests of a handler, for goals that hold in every
    branch. *)
Ltac branches :=
  repeat first
    [ done
    | case_bool_decide
    | match goal with
      | |- context [match ?x with _ => _ end] => destruct x eqn:?
      end ];
  simpl.

Lemma position_saveLabels (ok : bool) (r : Renderer) :
  position (saveLabels ok r) = position r.
Proof. unfold saveLabels. branches. Qed.

Lemma position_saveIfDirty (ok : bool) (r : Renderer) :
  position (saveIfDirty ok r) = position r.
Proof.
  unfold saveIfDirty. destruct (_ && _); [|done].
  destruct (autoSaveTimeout (state r)); by rewrite position_saveLabels.
Qed.

Lemma navigateSegment_cases (direction : Z) (ok : bool) (r : Renderer) :
  let n := Z.of_nat (currentSegment (state r)) + direction in
  let r' := navigateSegment direction ok r in
  if (0 <=? n) && (n <? Z.of_nat (segments (state r)))
  then currentSegment (state r') = Z.to_nat n /\
       segments (state r') = segments (state r) /\
       labels (state r') = labels (state r)
  else r' = r.
Proof.
  simpl. unfold navigateSegment. destruct (_ && _); [|done]. simpl.
  pose proof (position_saveIfDirty ok r) as [= _ H].
  by rewrite labels_saveIfDirty.
Qed.

(** What [saveIfDirty] does, in any state: when the labels are dirty and a
    file is open it forgets and clears the timeout and makes one save with
    the labels as they are; otherwise it does nothing. *)
Lemma saveIfDirty_cases (ok : bool) (r : Renderer) :
  let s := state r in
  let r' := saveIfDirty ok r in
  if labelsDirty s && fileOpen s then
    (exists f, currentFile s = Some f /\ f <> "" /\
       saveCalls r' = saveCalls r ++ [(f, labels s)]) /\
    labelsDirty (state r') = negb ok /\
    autoSaveTimeout (state r') = None /\
    timers r' = clearTimeout (autoSaveTimeout s) (timers r)
  else r' = r.
Proof.
  simpl. unfold saveIfDirty. destruct (labelsDirty (state r)) eqn:Hd; [|done].
  unfold fileOpen. destruct (currentFile (state r)) as [f|] eqn:Hf; [|done].
  case_bool_decide as Hname; [|done]. cbn [andb].
  unfold saveLabels.
  destruct (autoSaveTimeout (state r)) as [id|] eqn:Hauto; simpl;
    rewrite Hf, bool_decide_eq_true_2 by done; simpl.
  - split; [by exists f|]. by destruct ok.
  - split; [by exists f|]. by destruct ok.
Qed.

(** X3.  One run of [navigateSegment], with no other handler run while it
    waits for the save.  When the segment asked for is not one of the
    segments of the file, nothing happens, not even a save.  Otherwise the
    dirty labels of an open file are saved first, with their timeout
    cleared, and the dirty flag stays set only if that save failed; then
    the segment asked for is shown, with the labels and the number of
    segments as before.  When the segment shown before was one of the
    segments, the opposite move leads back to it. *)
Theorem navigateSegment_saves_then_moves (r : Renderer) (direction : Z)
    (ok ok' : bool) :
  let s := state r in
  let n := Z.of_nat (currentSegment s) + direction in
  let r' := navigateSegment direction ok r in
  if (0 <=? n) && (n <? Z.of_nat (segments s)) then
    currentSegment (state r') = Z.to_nat n /\
    segments (state r') = segments s /\
    labels (state r') = labels s /\
    (if labelsDirty s && fileOpen s then
       (exists f, currentFile s = Some f /\ f <> "" /\
          saveCalls r' = saveCalls r ++ [(f, labels s)]) /\
       labelsDirty (state r') = negb ok /\
       autoSaveTimeout (state r') = None /\
       timers r' = clearTimeout (autoSaveTimeout s) (timers r)
     else
       saveCalls r' = saveCalls r /\ labelsDirty (state r') = labelsDirty s /\
       timers r' = timers r) /\
    ((currentSegment s < segments s)%nat ->
     currentSegment (state (navigateSegment (- direction) ok' r'))
     = currentSegment s)
  else r' = r.
Proof.
  intros s n r'.
  pose proof (navigateSegment_cases direction ok r) as Hn. cbv zeta in Hn.
  fold s n r' in Hn. destruct (_ && _) eqn:Hvalid; [|done].
  destruct Hn as (Hc & Hs & Hl). split; [done|]. split; [done|]. split; [done|].
  assert (r' = on_state (set_currentSegment (Z.to_nat n)) (saveIfDirty ok r)) as Hr'.
  { unfold r', navigateSegment. fold s n. by rewrite Hvalid. }
  split.
  - pose proof (saveIfDirty_cases ok r) as Hsave. cbv zeta in Hsave. fold s in Hsave.
    rewrite Hr'. destruct (labelsDirty s && fileOpen s); [exact Hsave|].
    by rewrite Hsave.
  - intros Hin. apply andb_true_iff in Hvalid as [H0%Z.leb_le H1%Z.ltb_lt].
    pose proof (navigateSegment_cases (- direction) ok' r') as Hb. cbv zeta in Hb.
    rewrite Hc, Hs in Hb.
    assert ((0 <=? Z.of_nat (Z.to_nat n) + - direction)
            && (Z.of_nat (Z.to_nat n) + - direction <? Z.of_nat (segments s))
            = true) as Hback.
    { apply andb_true_iff. rewrite Z.leb_le, Z.ltb_lt. unfold n in *. lia. }
    rewrite Hback in Hb. destruct Hb as (Hb & _). rewrite Hb. unfold n. lia.
Qed.

(** A file of three segments is open, a click has made the labels dirty.
    The move to the next segment saves them under the name of the file and
    shows segment 1; the move back shows segment 0; a move back from
    segment 0 does nothing. *)
Lemma navigateSegment_saves_then_moves_witness :
  let r := run [EClick (pointerAt false 150)] (openSession ∅) in
  let r' := navigateSegment 1 true r in
  currentSegment (state r) = 0%nat /\
  currentSegment (state r') = 1%nat /\
  labelsDirty (state r') = false /\
  currentSegment (state (navigateSegment (-1) true r')) = 0%nat /\
  navigateSegment (-1) true r = r.
Proof.
  intros r r'.
  pose proof (navigateSegment_saves_then_moves r 1 true true) as H.
  pose proof (navigateSegment_saves_then_moves r (-1) true true) as H'.
  cbv zeta in H, H'. fold r' in H.
  assert (currentSegment (state r) = 0%nat) as Hc by (by vm_compute).
  assert (segments (state r) = 3%nat) as Hs by (by vm_compute).
  assert (labelsDirty (state r) && fileOpen (state r) = true) as Hd by (by vm_compute).
  rewrite Hc, Hs, Hd in H. rewrite Hc, Hs in H'.
  change ((0 <=? Z.of_nat 0 + 1) && (Z.of_nat 0 + 1 <? Z.of_nat 3)) with true in H.
  change ((0 <=? Z.of_nat 0 + -1) && (Z.of_nat 0 + -1 <? Z.of_nat 3)) with false in H'.
  destruct H as (H1 & _ & _ & (_ & H2 & _) & H3).
  split; [done|]. split; [exact H1|]. split; [exact H2|].
  split; [apply H3; lia|exact H'].
Defined.

(** ** Saving before the switch, and the auto-save timeout *)

(** [saveIfDirty] on dirty labels of an open file. *)
Lemma saveIfDirty_flush (ok : bool) (r : Renderer) (f : string) :
  timersRecorded r -> labelsDirty (state r) = true ->
  currentFile (state r) = Some f -> f <> "" ->
  let r' := saveIfDirty ok r in
  saveCalls r' = saveCalls r ++ [(f, labels (state r))] /\
  timers r' = ∅ /\
  autoSaveTimeout (state r') = None /\
  labelsDirty (state r') = negb ok /\
  labels (state r') = labels (state r) /\
  currentFile (state r') = Some f /\
  folderPath (state r') = folderPath (state r) /\
  metadata (state r') = metadata (state r) /\
  fileData (state r') = fileData (state r) /\
  position r' = position r.
Proof.
  intros Hinv Hdirty Hfile Hname. simpl.
  pose proof (clearTimeout_recorded r Hinv) as Hclear.
  unfold saveIfDirty, fileOpen. rewrite Hdirty, Hfile, bool_decide_eq_true_2 by done.
  cbn [andb]. unfold saveLabels.
  destruct (autoSaveTimeout (state r)) as [id|] eqn:Hauto; simpl in Hclear |- *;
    rewrite Hfile, bool_decide_eq_true_2 by done; rewrite Hclear;
    by destruct ok.
Qed.

Lemma saveIfDirty_clean (ok : bool) (r : Renderer) :
  labelsDirty (state r) = false -> saveIfDirty ok r = r.
Proof. intros H. unfold saveIfDirty. by rewrite H. Qed.

(** X4.  [loadFile] with a folder chosen, on a file [f] that is open.  Dirty
    labels are first saved under the name [f], whatever the reply to that
    save, and the pending timeout is cancelled; then [currentFile] is the new
    name.  When the file data arrive, the labels are those sent back for the
    new file (none when loading them fails), segment 0 is shown and the
    dirty flag is the one left by the save: set if the save failed.  When
    loading the data fails the handler stops there: the new name is kept
    with the labels, segments and metadata of the file open before. *)
Theorem loadFile_saves_then_switches (es0 : list Event)
    (filename folder f : string) (ok : bool) (fileReply : option FileReply)
    (labelsReply : option (gmap string SegmentLabels)) :
  let r := run es0 initialRenderer in
  let r' := loadFile filename ok fileReply labelsReply r in
  filename <> "" -> folderPath (state r) = Some folder -> folder <> "" ->
  currentFile (state r) = Some f -> f <> "" ->
  saveCalls r'
  = saveCalls r ++ (if labelsDirty (state r) then [(f, labels (state r))] else []) /\
  (labelsDirty (state r) = true ->
   timers r' = ∅ /\ autoSaveTimeout (state r') = None) /\
  labelsDirty (state r') = labelsDirty (state r) && negb ok /\
  currentFile (state r') = Some filename /\
  match fileReply with
  | Some data =>
      labels (state r') = default ∅ labelsReply /\
      currentSegment (state r') = 0%nat /\
      segments (state r') = file_segments data /\
      metadata (state r') = file_metadata data /\
      fileData (state r') = true
  | None =>
      labels (state r') = labels (state r) /\
      position r' = position r /\
      metadata (state r') = metadata (state r) /\
      fileData (state r') = fileData (state r)
  end.
Proof.
  intros r r' Hname Hfolder Hfolder' Hfile Hf.
  pose proof (timersRecorded_run es0 _ timersRecorded_initial) as Hinv. fold r in Hinv.
  unfold r', loadFile. rewrite bool_decide_eq_false_2 by (by intros ?).
  rewrite Hfolder, bool_decide_eq_false_2 by (by intros ?).
  destruct (labelsDirty (state r)) eqn:Hdirty.
  - destruct (saveIfDirty_flush ok r f Hinv Hdirty Hfile Hf)
      as (Hs & Ht & Ha & Hd & Hl & _ & _ & Hm & Hfd & Hp).
    destruct fileReply as [data|]; simpl; rewrite ?Hs, ?Ht, ?Ha, ?Hd, ?Hl, ?Hm, ?Hfd;
      repeat split; done.
  - rewrite (saveIfDirty_clean ok r Hdirty), app_nil_r.
    destruct fileReply as [data|]; simpl; rewrite ?Hdirty; repeat split; done.
Qed.

(** The file [a.h5] is open with an unsaved point; choosing [b.h5] saves the
    labels of [a.h5] once and shows [b.h5] with the labels stored for it. *)
Lemma loadFile_saves_then_switches_witness :
  let es0 := [ELoadFolder "recordings" true (Some []) (Some []);
              ELoadFile "a.h5" true (Some (mkFileReply (Some (Int 250)) 3)) (Some ∅);
              EClick (pointerAt false 120)] in
  let r := run es0 initialRenderer in
  let r' := loadFile "b.h5" true (Some (mkFileReply None 5)) None r in
  saveCalls r' = [("a.h5", labels (state r))] /\
  currentFile (state r') = Some "b.h5" /\
  labels (state r') = ∅ /\
  labelsDirty (state r') = false.
Proof.
  intros es0 r r'.
  destruct (loadFile_saves_then_switches es0 "b.h5" "recordings" "a.h5" true
              (Some (mkFileReply None 5)) None)
    as (Hs & _ & Hd & Hf & Hl & _); [done|by vm_compute|done|by vm_compute|done|].
  fold r in Hs, Hd, Hf, Hl. fold r' in Hs, Hd, Hf, Hl.
  assert (labelsDirty (state r) = true) as Hdirty by (by vm_compute).
  assert (saveCalls r = []) as Hnone by (by vm_compute).
  rewrite Hdirty, Hnone in Hs. rewrite Hdirty in Hd.
  repeat split; done.
Defined.

Lemma markLabelsDirty_arms (r : Renderer) :
  timersRecorded r ->
  timers (markLabelsDirty r) = {[ nextTimer r := (clock r + 2000)%N ]}.
Proof.
  intros Hinv. unfold markLabelsDirty, scheduleAutoSave. simpl.
  change (clearTimeout _ _) with (clearTimeout (autoSaveTimeout (state r)) (timers r)).
  by rewrite clearTimeout_recorded.
Qed.

(** X5.  The debounce of the auto-save.  After an edit one timeout is armed, 2000
    ms ahead; no timeout of the window saves anything before these 2000 ms
    have passed.  A second edit, [dt] ms after the first, leaves one timeout,
    2000 ms after the second edit: the timeout of the first edit is
    cancelled and never saves, however much time passes. *)
Theorem autosave_is_debounced (es0 : list Event) (dt dt' : N) (id : positive)
    (ok : bool) :
  let r := run es0 initialRenderer in
  let r1 := markLabelsDirty r in
  let r2 := markLabelsDirty (advance dt r1) in
  ((dt < 2000)%N -> fireTimer id ok (advance dt r1) = advance dt r1) /\
  timers r2 = {[ nextTimer r1 := (clock r + dt + 2000)%N ]} /\
  nextTimer r1 <> nextTimer r /\
  fireTimer (nextTimer r) ok (advance dt' r2) = advance dt' r2.
Proof.
  intros r r1 r2.
  pose proof (timersRecorded_run es0 _ timersRecorded_initial) as Hinv. fold r in Hinv.
  pose proof (markLabelsDirty_arms r Hinv) as Ht1. fold r1 in Ht1.
  assert (timersRecorded (advance dt r1)) as Hinv1.
  { apply (timersRecorded_quiet r1); [done|done|].
    by apply timersRecorded_markLabelsDirty. }
  pose proof (markLabelsDirty_arms _ Hinv1) as Ht2. fold r2 in Ht2.
  assert (nextTimer r1 <> nextTimer r) as Hne.
  { change (nextTimer r1) with (Pos.succ (nextTimer r)). lia. }
  split; [|split; [|split]].
  - intros Hdt. unfold fireTimer.
    change (timers (advance dt r1)) with (timers r1). rewrite Ht1.
    destruct (decide (id = nextTimer r)) as [->|Hid].
    + rewrite lookup_singleton_eq.
      change (clock (advance dt r1)) with (clock r + dt)%N.
      destruct (N.leb_spec (clock r + 2000) (clock r + dt)); [lia|done].
    + by rewrite lookup_singleton_ne.
  - exact Ht2.
  - exact Hne.
  - unfold fireTimer. change (timers (advance dt' r2)) with (timers r2).
    rewrite Ht2, lookup_singleton_ne; done.
Qed.

Lemma no_timer_keeps_dirty (es : list Event) (r : Renderer) :
  Forall timing es -> timers r = ∅ ->
  labelsDirty (state (run es r)) = labelsDirty (state r).
Proof.
  revert r. induction es as [|e es IH]; intros r Hes Ht; [done|].
  apply Forall_cons in Hes as [He Hes].
  destruct (no_timer_no_save [e] r (Forall_cons_2 _ _ _ He (Forall_nil_2 _)) Ht)
    as [_ Ht1].
  simpl. rewrite (IH (step e r) Hes Ht1).
  destruct e; try done. simpl. unfold fireTimer. by rewrite Ht, lookup_empty.
Qed.

(** X6.  The timeout armed by an edit runs once its 2000 ms have passed: with a
    file open it makes one call to the persistence collaborator, with the
    labels as they are, and the dirty flag is cleared exactly when the call
    succeeds.  No timeout is armed afterwards, so a save that failed is not
    tried again by the window: whatever time passes, no further call is
    made without a new edit. *)
Theorem autosave_timeout_saves_once (es0 : list Event) (dt : N) (ok : bool)
    (f : string) :
  let r := run es0 initialRenderer in
  let r1 := markLabelsDirty r in
  let r2 := fireTimer (nextTimer r) ok (advance dt r1) in
  currentFile (state r) = Some f -> f <> "" -> (2000 <= dt)%N ->
  saveCalls r2 = saveCalls r ++ [(f, labels (state r))] /\
  labelsDirty (state r2) = negb ok /\
  timers r2 = ∅ /\
  forall es, Forall timing es ->
    saveCalls (run es r2) = saveCalls r2 /\
    labelsDirty (state (run es r2)) = negb ok.
Proof.
  intros r r1 r2 Hfile Hname Hdt.
  pose proof (timersRecorded_run es0 _ timersRecorded_initial) as Hinv. fold r in Hinv.
  pose proof (markLabelsDirty_arms r Hinv) as Ht1. fold r1 in Ht1.
  assert (saveCalls r2 = saveCalls r ++ [(f, labels (state r))] /\
          labelsDirty (state r2) = negb ok /\ timers r2 = ∅) as (Hs & Hd & Ht).
  { unfold r2, fireTimer. change (timers (advance dt r1)) with (timers r1).
    rewrite Ht1, lookup_singleton_eq.
    change (clock (advance dt r1)) with (clock r + dt)%N.
    destruct (N.leb_spec (clock r + 2000) (clock r + dt)); [|lia].
    unfold autoSaveCallback, fileOpen. simpl.
    rewrite Hfile, bool_decide_eq_true_2 by done. simpl.
    unfold saveLabels. simpl. rewrite Hfile, bool_decide_eq_true_2 by done.
    rewrite delete_singleton_eq. by destruct ok. }
  repeat (split; [done|]). intros es Hes.
  destruct (no_timer_no_save es r2 Hes Ht) as [Hs' Ht'].
  split; [done|]. rewrite <- Hd. by apply no_timer_keeps_dirty.
Qed.

(** A file is open and a click adds a point.  The timeout of that edit runs
    2500 ms later and the save fails: one call was made, the labels stay
    dirty and later timeouts do not try again. *)
Lemma autosave_timeout_saves_once_witness :
  let es0 := [ELoadFolder "recordings" true (Some []) (Some []);
              ELoadFile "a.h5" true (Some (mkFileReply (Some (Int 250)) 3)) (Some ∅)] in
  let r := run es0 initialRenderer in
  let r2 := fireTimer (nextTimer r) false (advance 2500 (markLabelsDirty r)) in
  saveCalls r2 = [("a.h5", ∅)] /\
  labelsDirty (state r2) = true /\
  saveCalls (run [EAdvance 60000; ETimer 1 true; ETimer 2 true] r2) = saveCalls r2.
Proof.
  intros es0 r r2.
  destruct (autosave_timeout_saves_once es0 2500 false "a.h5")
    as (Hs & Hd & _ & Hlater); [by vm_compute|done|lia|].
  fold r in Hs, Hd, Hlater. fold r2 in Hs, Hd, Hlater.
  assert (saveCalls r = []) as Hnone by (by vm_compute).
  assert (labels (state r) = ∅) as Hl by (by vm_compute).
  rewrite Hnone, Hl in Hs.
  split; [exact Hs|]. split; [exact Hd|].
  apply Hlater. repeat constructor.
Defined.

(** Two clicks 500 ms apart on an open file: the timeout of the first click
    does nothing when it would have been due, and one timeout is armed,
    2000 ms after the second click. *)
Lemma autosave_is_debounced_witness :
  let es0 := [ELoadFolder "recordings" true (Some []) (Some []);
              ELoadFile "a.h5" true (Some (mkFileReply (Some (Int 250)) 3)) (Some ∅)] in
  let r := run es0 initialRenderer in
  let r1 := markLabelsDirty r in
  let r2 := markLabelsDirty (advance 500 r1) in
  fireTimer 1 true (advance 500 r1) = advance 500 r1 /\
  timers r2 = {[ 2%positive := 2500%N ]} /\
  fireTimer 1 true (advance 1500 r2) = advance 1500 r2.
Proof.
  intros es0 r r1 r2.
  destruct (autosave_is_debounced es0 500 1500 1 true) as (H1 & H2 & _ & H3).
  fold r in H1, H2, H3. fold r1 in H1, H2, H3. fold r2 in H2, H3.
  split; [apply H1; lia|]. split.
  - rewrite H2. by vm_compute.
  - assert (nextTimer r = 1%positive) as E by (by vm_compute).
    by rewrite E in H3.
Defined.

(** ** File names *)

Lemma append_cons (c : ascii) (a b : string) :
  (String c a ++ b)%string = String c (a ++ b).
Proof. reflexivity. Qed.

Lemma append_nil_r (a : string) : (a ++ "")%string = a.
Proof. induction a as [|c a IH]; [done|]. by rewrite append_cons, IH. Qed.

Lemma append_assoc (a b c : string) :
  ((a ++ b) ++ c)%string = (a ++ (b ++ c))%string.
Proof. induction a as [|x a IH]; [done|]. by rewrite !append_cons, IH. Qed.

Lemma length_append (a b : string) :
  String.length (a ++ b) = (String.length a + String.length b)%nat.
Proof.
  induction a as [|x a IH]; [done|]. rewrite append_cons. cbn [String.length].
  by rewrite IH.
Qed.

Lemma rev_app_append (a b : string) :
  String.rev_app a b = (String.rev a ++ b)%string.
Proof.
  revert b. induction a as [|x a IH]; intros b; [done|].
  unfold String.rev. cbn [String.rev_app]. rewrite !IH, append_assoc. done.
Qed.

Lemma rev_append (a b : string) :
  String.rev (a ++ b) = (String.rev b ++ String.rev a)%string.
Proof.
  induction a as [|x a IH].
  - change ("" ++ b)%string with b. by rewrite append_nil_r.
  - rewrite append_cons. unfold String.rev at 1 3. cbn [String.rev_app].
    rewrite !rev_app_append. fold (String.rev (a ++ b)). by rewrite IH, append_assoc.
Qed.

Lemma prefix_append (a b : string) : String.prefix a (a ++ b) = true.
Proof.
  induction a as [|x a IH]; [by destruct b|].
  rewrite append_cons. cbn [String.prefix]. by destruct (ascii_dec x x).
Qed.

Lemma endsWith_append (a b : string) : endsWith (a ++ b) b = true.
Proof. unfold endsWith. rewrite rev_append. apply prefix_append. Qed.

Lemma toLowerCase_append (a b : string) :
  toLowerCase (a ++ b) = (toLowerCase a ++ toLowerCase b)%string.
Proof.
  induction a as [|x a IH]; [done|]. rewrite append_cons. cbn [toLowerCase].
  by rewrite append_cons, IH.
Qed.

Lemma length_toLowerCase (a : string) :
  String.length (toLowerCase a) = String.length a.
Proof. induction a as [|x a IH]; [done|]. cbn [toLowerCase String.length]. by rewrite IH. Qed.

Lemma substring_append (a b : string) :
  String.substring 0 (String.length a) (a ++ b) = a.
Proof.
  induction a as [|x a IH]; [by destruct b|].
  rewrite append_cons. cbn [String.length String.substring]. by rewrite IH.
Qed.

Lemma dropLast_append (a b : string) : dropLast (String.length b) (a ++ b) = a.
Proof.
  unfold dropLast. rewrite length_append.
  replace (String.length a + String.length b - String.length b)%nat
    with (String.length a) by lia.
  apply substring_append.
Qed.

Lemma prefix_substring (n : nat) (a : string) :
  String.prefix (String.substring 0 n a) a = true.
Proof.
  revert n. induction a as [|x a IH]; intros [|n]; try done.
  cbn [String.substring String.prefix]. destruct (ascii_dec x x); [|done]. apply IH.
Qed.

(** X7.  [stripExtension] removes the extension [.h5] or [.hdf5], in any mix of
    upper and lower case, from the end of a name, and what it returns is
    always the beginning of the name it was given. *)
Theorem stripExtension_removes_extension (name ext : string) :
  (toLowerCase ext = ".h5" \/ toLowerCase ext = ".hdf5" ->
   stripExtension (name ++ ext) = name) /\
  String.prefix (stripExtension name) name = true.
Proof.
  split.
  - intros Hext.
    assert (String.length ext = String.length (toLowerCase ext)) as Hlen
      by by rewrite length_toLowerCase.
    unfold stripExtension. rewrite toLowerCase_append.
    destruct Hext as [Hext|Hext]; rewrite Hext in Hlen |- *.
    + rewrite endsWith_append. change (dropLast 3) with (dropLast (String.length ".h5")).
      rewrite <- Hlen. apply dropLast_append.
    + assert (endsWith (toLowerCase name ++ ".hdf5") ".h5" = false) as ->.
      { unfold endsWith. by rewrite rev_append. }
      rewrite endsWith_append. change (dropLast 5) with (dropLast (String.length ".hdf5")).
      rewrite <- Hlen. apply dropLast_append.
  - unfold stripExtension, dropLast.
    destruct (endsWith _ ".h5"); [apply prefix_substring|].
    destruct (endsWith _ ".hdf5"); [apply prefix_substring|].
    rewrite <- (append_nil_r name) at 2. apply prefix_append.
Qed.

Lemma stripExtension_removes_extension_witness :
  stripExtension ("patient01" ++ ".HDF5") = "patient01".
Proof.
  destruct (stripExtension_removes_extension "patient01" ".HDF5") as [H _].
  apply H. right. reflexivity.
Defined.

(** ** The review list *)

Lemma indexOf_None (x : string) (arr : list string) :
  indexOf x arr = None <-> x ∉ arr.
Proof.
  induction arr as [|y arr IH]; simpl.
  - split; [intros _; apply not_elem_of_nil|done].
  - case_bool_decide as Hy.
    + split; [done|]. intros H. exfalso. apply H. subst. by left.
    + destruct (indexOf x arr) as [i|].
      * split; [done|]. intros H. exfalso. apply (proj1 (not_elem_of_cons _ _ _) H).
        apply dec_stable. intros Hn. by apply (proj2 IH) in Hn.
      * split; [|done]. intros _. apply not_elem_of_cons. split; [done|].
        by apply IH.
Qed.

Lemma indexOf_Some (x : string) (arr : list string) (i : nat) :
  indexOf x arr = Some i -> arr !! i = Some x.
Proof.
  revert i. induction arr as [|y arr IH]; intros i; simpl; [done|].
  case_bool_decide as Hy.
  - intros [= <-]. by subst.
  - destruct (indexOf x arr) as [j|]; [|done]. intros [= <-]. by apply IH.
Qed.

Lemma elem_of_delete_NoDup (x y : string) (arr : list string) (i : nat) :
  NoDup arr -> arr !! i = Some x ->
  (y ∈ delete i arr <-> y ∈ arr /\ y <> x).
Proof.
  intros Hnd Hi.
  destruct (list_elem_of_split_length arr i x Hi) as (l1 & l2 & -> & Hlen).
  rewrite Hlen, delete_middle.
  apply NoDup_app in Hnd as (H1 & H2 & H3). apply NoDup_cons in H3 as [H3 H4].
  rewrite !elem_of_app, elem_of_cons. split.
  - intros [Hy|Hy].
    + split; [by left|]. intros ->. apply (H2 x Hy). by left.
    + split; [by right; right|]. by intros ->.
  - intros [[Hy|[->|Hy]] Hne]; [by left|done|by right].
Qed.

Lemma hasReview_iff (s : State) :
  hasReview s = true <->
  exists id seg, labels s !! id = Some seg /\ review seg = true.
Proof.
  unfold hasReview. rewrite List.existsb_exists. split.
  - intros ([id seg] & Hin & Hrev). exists id, seg. split; [|done].
    apply elem_of_map_to_list. by apply list_elem_of_In.
  - intros (id & seg & Hl & Hrev). exists (id, seg). split; [|done].
    apply list_elem_of_In. by apply elem_of_map_to_list.
Qed.

(** [updateReviewFilesState] on a list without duplicates: afterwards the
    base name of the file is listed exactly when a record is flagged, the
    other names are listed as before and the list has no duplicates. *)
Lemma updateReviewFilesState_spec (f : string) (s : State) :
  NoDup (reviewFiles s) ->
  let s' := updateReviewFilesState f s in
  (stripExtension f ∈ reviewFiles s' <-> hasReview s = true) /\
  (forall g, g <> stripExtension f -> g ∈ reviewFiles s' <-> g ∈ reviewFiles s) /\
  NoDup (reviewFiles s') /\
  labels s' = labels s.
Proof.
  intros Hnd. simpl. unfold updateReviewFilesState.
  destruct (indexOf _ _) as [i|] eqn:Hi, (hasReview s) eqn:Hrev; simpl.
  - apply indexOf_Some in Hi. apply list_elem_of_lookup_2 in Hi. done.
  - apply indexOf_Some in Hi. split; [|split; [|split]]; [| | |done].
    + rewrite (elem_of_delete_NoDup _ _ _ _ Hnd Hi). split; [by intros [_ ?]|done].
    + intros g Hg. rewrite (elem_of_delete_NoDup _ _ _ _ Hnd Hi).
      split; [by intros [? _]|by intros ?].
    + destruct (list_elem_of_split_length _ i _ Hi) as (l1 & l2 & E & Hlen).
      rewrite E in Hnd |- *. rewrite Hlen, delete_middle.
      apply NoDup_app in Hnd as (H1 & H2 & H3). apply NoDup_cons in H3 as [H3 H4].
      apply NoDup_app. split; [done|]. split; [|done].
      intros y Hy Hy2. apply (H2 y Hy). by right.
  - apply indexOf_None in Hi. split; [|split; [|split]]; [| | |done].
    + split; [done|]. intros _. apply elem_of_app. right. by left.
    + intros g Hg. rewrite elem_of_app, list_elem_of_singleton.
      split; [by intros [?|?]|by left].
    + apply NoDup_app. split; [done|]. split; [|apply NoDup_singleton].
      intros y Hy ->%list_elem_of_singleton. done.
  - apply indexOf_None in Hi. done.
Qed.

(** What an accepted review toggle does, on the file [f]. *)
Lemma toggleReview_accepted (r : Renderer) (f : string) :
  currentFile (state r) = Some f -> isDone (state r) = false ->
  let id := segmentId (state r) in
  let seg := default defaultSegment (labels (state r) !! id) in
  let s1 := put_segment id (set_review (negb (review seg)) seg) (state r) in
  after (toggleReview r)
  = markLabelsDirty (on_state (fun _ => updateReviewFilesState f s1) r).
Proof. intros Hf Hd. unfold toggleReview. by rewrite Hd, Hf. Qed.

(** X8.  The review list follows the flags.  On an open file that is not done and
    a review list without duplicates, after the review toggle the base name
    of the file is on the list exactly when some record of the file is
    flagged for review; the other names are listed as before, the list still
    has no duplicates and the labels are dirty.  A second toggle gives back
    the labels as they were, when the segment had a record. *)
Theorem review_list_follows_flags (r : Renderer) (f : string) :
  let id := segmentId (state r) in
  let r' := after (toggleReview r) in
  let r'' := after (toggleReview r') in
  currentFile (state r) = Some f -> isDone (state r) = false ->
  NoDup (reviewFiles (state r)) ->
  (stripExtension f ∈ reviewFiles (state r') <->
   exists id' seg, labels (state r') !! id' = Some seg /\ review seg = true) /\
  (forall g, g <> stripExtension f ->
     g ∈ reviewFiles (state r') <-> g ∈ reviewFiles (state r)) /\
  NoDup (reviewFiles (state r')) /\
  labelsDirty (state r') = true /\
  (is_Some (labels (state r) !! id) -> labels (state r'') = labels (state r)).
Proof.
  intros id r' r'' Hf Hd Hnd.
  pose proof (toggleReview_accepted r f Hf Hd) as Hr'. cbv zeta in Hr'. fold id r' in Hr'.
  set (seg := default defaultSegment (labels (state r) !! id)) in Hr'.
  set (s1 := put_segment id (set_review (negb (review seg)) seg) (state r)) in Hr'.
  destruct (updateReviewFilesState_spec f s1 Hnd) as (H1 & H2 & H3 & H4).
  assert (reviewFiles (state r') = reviewFiles (updateReviewFilesState f s1)) as Hrf
    by by rewrite Hr'.
  assert (labels (state r') = labels s1) as Hl by by rewrite Hr'.
  split; [|split; [|split; [|split]]].
  - rewrite Hrf, H1, Hl. apply hasReview_iff.
  - intros g Hg. rewrite Hrf. by apply H2.
  - by rewrite Hrf.
  - by rewrite Hr'.
  - intros [seg0 Hseg0].
    assert (currentFile (state r') = Some f) as Hf'.
    { rewrite Hr'. simpl. by rewrite (proj1 (proj2 (labels_updateReviewFilesState f s1))). }
    assert (isDone (state r') = false) as Hd'
      by (unfold r'; by rewrite isDone_toggleReview).
    assert (segmentId (state r') = id) as Hid'.
    { rewrite Hr'. unfold segmentId. simpl.
      by rewrite (proj2 (proj2 (proj2 (labels_updateReviewFilesState f s1)))). }
    pose proof (toggleReview_accepted r' f Hf' Hd') as Hr''. cbv zeta in Hr''.
    fold r'' in Hr''. rewrite Hr''. simpl.
    rewrite (proj1 (labels_updateReviewFilesState f _)). simpl.
    rewrite Hid', Hl. unfold s1, seg. simpl. rewrite lookup_insert_eq, Hseg0. simpl.
    rewrite insert_insert_eq, negb_involutive.
    apply insert_id. rewrite Hseg0. by destruct seg0.
Qed.

(** A file is open and not done: flagging segment 0 puts its name on the
    review list, and taking the flag back removes it again. *)
Lemma review_list_follows_flags_witness :
  let r := openSession ∅ in
  reviewFiles (state (after (toggleReview r))) = ["patient01.csv"] /\
  NoDup (reviewFiles (state (after (toggleReview r)))) /\
  reviewFiles (state (after (toggleReview (after (toggleReview r))))) = [].
Proof.
  intros r.
  destruct (review_list_follows_flags r "patient01.csv") as (_ & _ & H & _).
  - by vm_compute.
  - by vm_compute.
  - assert (reviewFiles (state r) = []) as -> by (by vm_compute). constructor.
  - split; [by vm_compute|]. split; [exact H|by vm_compute].
Defined.

(** ** Regions *)

Lemma gt_or_le (a b : num) :
  JS.isNaN a = false -> JS.isNaN b = false ->
  if (a >? b)%js then (b <=? a)%js = true else (a <=? b)%js = true.
Proof.
  destruct a as [|[]|p], b as [|[]|q]; simpl; try done. intros _ _.
  destruct (Qle_bool p q) eqn:H; simpl; [done|].
  apply Qle_bool_iff. destruct (Qlt_le_dec q p) as [Hlt|Hle]; [lra|].
  apply Qle_bool_iff in Hle. congruence.
Qed.

(** X9.  Region selection takes two clicks.  The first, at sample [a], is kept
    as the pending start and changes nothing else.  The second, at sample
    [b], appends the region from the smaller to the larger of [a] and [b]
    to the regions of the current segment (creating a labeled record when
    the segment has none), leaves the point arrays alone, clears the
    pending start, stays in region mode and marks the labels dirty.
    Leaving and entering region mode between the two clicks drops the
    pending start instead: the second click then only starts a new region. *)
Theorem region_takes_two_clicks (r : Renderer) (ev1 ev2 : Pointer)
    (ax1 ax2 : Axis) :
  let s := state r in
  let id := segmentId s in
  let a := clickedIndex s (clickedTime ev1 ax1) in
  let b := clickedIndex s (clickedTime ev2 ax2) in
  let lo := if (a >? b)%js then b else a in
  let hi := if (a >? b)%js then a else b in
  let seg := default defaultRegionSegment (labels s !! id) in
  let r1 := step (EClick ev1) r in
  let r2 := step (EClick ev2) r1 in
  let r3 := step (EClick ev2) (run [EToggleRegionMode; EToggleRegionMode] r1) in
  regionSelectionMode s = true -> regionStart s = None ->
  onModebar ev1 = false -> shiftKey ev1 = false -> xaxis ev1 = Some ax1 ->
  onModebar ev2 = false -> shiftKey ev2 = false -> xaxis ev2 = Some ax2 ->
  (regionStart (state r1) = Some a /\ labels (state r1) = labels s /\
   labelsDirty (state r1) = labelsDirty s) /\
  (labels (state r2)
   = <[id := set_highlighted_regions
               (Some (default [] (highlighted_regions seg) ++ [mkRegion lo hi])) seg]>
       (labels s) /\
   regionStart (state r2) = None /\ regionEnd (state r2) = None /\
   regionSelectionMode (state r2) = true /\ labelsDirty (state r2) = true) /\
  (JS.isNaN a = false -> JS.isNaN b = false -> (lo <=? hi)%js = true) /\
  (regionStart (state r3) = Some b /\ labels (state r3) = labels s /\
   regionSelectionMode (state r3) = true).
Proof.
  intros s id a b lo hi seg r1 r2 r3 Hmode Hstart Hb1 Hs1 Hx1 Hb2 Hs2 Hx2.
  assert (r1 = on_state (set_regionStart (Some a)) r) as Hr1.
  { unfold r1. simpl. unfold handleDirectClick.
    fold s. by rewrite Hb1, Hs1, Hmode, Hx1, Hstart. }
  split; [by rewrite Hr1|]. split; [|split].
  - unfold r2. simpl. unfold handleDirectClick. rewrite Hr1. simpl.
    fold s. rewrite Hb2, Hs2, Hmode, Hx2.
    change (clickedIndex (set_regionStart (Some a) s) (clickedTime ev2 ax2)) with b.
    unfold lo, hi, seg. by destruct (a >? b)%js.
  - intros Ha Hb. pose proof (gt_or_le a b Ha Hb) as H. unfold lo, hi.
    by destruct (a >? b)%js.
  - unfold r3. rewrite Hr1. simpl. unfold handleDirectClick. simpl.
    fold s. rewrite Hb2, Hs2, Hmode, Hx2. simpl. repeat split. fold s. by rewrite Hmode.
Qed.

(** In region mode on an open file, clicks at the samples 60 and 20 add the
    region from 20 to 60 to segment 0. *)
Lemma region_takes_two_clicks_witness :
  let r := toggleRegionMode (openSession ∅) in
  let r2 := step (EClick (pointerAt false 110)) (step (EClick (pointerAt false 130)) r) in
  labels (state r2) !! "0"
  = Some (mkSegmentLabels true false empty_indexes "" ""
            (Some [mkRegion (Int 20) (Int 60)])) /\
  regionStart (state r2) = None.
Proof.
  intros r r2.
  destruct (region_takes_two_clicks r (pointerAt false 130) (pointerAt false 110)
              plot plot) as (_ & (Hl & Hs & _) & _);
    [by vm_compute|by vm_compute|done|done|done|done|done|done|].
  fold r2 in Hl, Hs. split; [|exact Hs]. rewrite Hl.
  assert (segmentId (state r) = "0") as -> by (by vm_compute).
  rewrite lookup_insert_eq. by vm_compute.
Defined.

(** ** Replacing one array: the erase buttons and the detections *)

Lemma onlyType_refl (T : LabelType) (r : Renderer) : onlyType T r r.
Proof.
  split; [done|]. split; [|done]. intros seg' Hseg'. rewrite Hseg'. done.
Qed.

(** The record of the current segment gets the array [arr] for the type
    [T] and the flag [b]. *)
Lemma onlyType_put (T : LabelType) (r : Renderer) (arr : list num) (b : bool) :
  let id := segmentId (state r) in
  let seg := default defaultSegment (labels (state r) !! id) in
  onlyType T r
    (markLabelsDirty
       (on_state
          (put_segment id
             (set_labeled b (set_label_indexes (set_points (label_indexes seg) T arr) seg)))
          r)).
Proof.
  intros id seg. split; [|split].
  - intros id' Hne. simpl. by rewrite lookup_insert_ne.
  - intros seg' Hseg'. simpl in Hseg'. fold id in Hseg'.
    rewrite lookup_insert_eq in Hseg'. injection Hseg' as <-. fold id seg.
    split; [|done]. intros T' HT'. simpl. by apply points_set_points_ne.
  - done.
Qed.

Lemma eraseUpslopeLabels_cases (T : LabelType) (r : Renderer) :
  let id := segmentId (state r) in
  match labels (state r) !! id with
  | Some seg =>
      if bool_decide (points (label_indexes seg) T = []) then eraseUpslopeLabels T r = r
      else eraseUpslopeLabels T r
           = markLabelsDirty
               (on_state
                  (put_segment id
                     (set_labeled (labeled seg)
                        (set_label_indexes (set_points (label_indexes seg) T []) seg)))
                  r)
  | None => eraseUpslopeLabels T r = r
  end.
Proof.
  simpl. unfold eraseUpslopeLabels.
  destruct (labels (state r) !! _) as [seg|]; [|done].
  by case_bool_decide.
Qed.

(** X10.  The two erase buttons.  [eraseUpslopeLabels] for the type [T] changes, in
    the labels, nothing but the array of [T] of the current segment, which
    is empty afterwards, and marks the labels dirty when it removed
    something; the flag [labeled] stays as it was; pressed again it does
    nothing, not even re-arming the auto-save.  [eraseCurrentTypeLabels] does
    the same for the current label type once the question is confirmed, and
    nothing at all when it is declined. *)
Theorem erase_buttons_clear_one_type (r : Renderer) (T : LabelType) :
  let id := segmentId (state r) in
  let r' := eraseUpslopeLabels T r in
  onlyType T r r' /\
  (forall seg', labels (state r') !! id = Some seg' ->
     points (label_indexes seg') T = [] /\
     exists seg, labels (state r) !! id = Some seg /\ labeled seg' = labeled seg) /\
  eraseUpslopeLabels T r' = r' /\
  eraseCurrentTypeLabels true r = eraseUpslopeLabels (currentLabelType (state r)) r /\
  eraseCurrentTypeLabels false r = r.
Proof.
  intros id r'. pose proof (eraseUpslopeLabels_cases T r) as Hc. simpl in Hc.
  fold id r' in Hc.
  split; [|split; [|split; [|split]]].
  - destruct (labels (state r) !! id) as [seg|] eqn:Hseg.
    + case_bool_decide as Hempty; rewrite Hc; [apply onlyType_refl|].
      pose proof (onlyType_put T r [] (labeled seg)) as Hput. simpl in Hput.
      fold id in Hput. by rewrite Hseg in Hput.
    + rewrite Hc. apply onlyType_refl.
  - intros seg' Hseg'. destruct (labels (state r) !! id) as [seg|] eqn:Hseg.
    + case_bool_decide as Hempty; rewrite Hc in Hseg'.
      * rewrite Hseg in Hseg'. injection Hseg' as <-. split; [done|by exists seg].
      * simpl in Hseg'. fold id in Hseg'. rewrite lookup_insert_eq in Hseg'.
        injection Hseg' as <-. split; [apply points_set_points_eq|by exists seg].
    + rewrite Hc in Hseg'. congruence.
  - destruct (labels (state r) !! id) as [seg|] eqn:Hseg.
    + case_bool_decide as Hempty; rewrite Hc.
      * unfold eraseUpslopeLabels. fold id. by rewrite Hseg, bool_decide_eq_true_2.
      * unfold eraseUpslopeLabels at 1. simpl. fold id.
        rewrite lookup_insert_eq. simpl.
        by rewrite points_set_points_eq, bool_decide_eq_true_2.
    + rewrite Hc. unfold eraseUpslopeLabels. fold id. by rewrite Hseg.
  - unfold eraseCurrentTypeLabels, eraseUpslopeLabels.
    destruct (labels (state r) !! _); [|done]. by case_bool_decide.
  - clear Hc. unfold eraseCurrentTypeLabels.
    destruct (labels (state r) !! _); [|done]. by destruct (bool_decide _).
Qed.

(** X11.  The three detections.  Each changes, in the labels, nothing but one
    array of the current segment (and its flag [labeled]): [findPeaks] the
    array of its button, [findOnsetCompression] the compression diastolic
    points, [findUpslope] the array chosen in the select box.  With no file
    data, no arterial signal or a failed reply nothing changes at all; the
    onset detection also does nothing while the segment has no compression
    systolic point.  When [findPeaks] gets its reply, the array is exactly
    the peaks sent back (none when they are missing), whatever it held
    before, and the record is labeled. *)
Theorem detections_replace_one_array (r : Renderer) :
  let id := segmentId (state r) in
  (forall target signal result,
     onlyType (peakType target) r (findPeaks target signal result r)) /\
  (forall signal result,
     onlyType compression_diastolic_points r (findOnsetCompression signal result r)) /\
  (forall T filtering signal result,
     onlyType T r (findUpslope T filtering signal result r)) /\
  (forall target signal result,
     fileData (state r) = false \/ signal = false \/ result = None ->
     findPeaks target signal result r = r) /\
  (forall signal result,
     fileData (state r) = false \/ signal = false \/ result = None \/
     points (label_indexes (default defaultSegment (labels (state r) !! id)))
       compression_systolic_points = [] ->
     findOnsetCompression signal result r = r) /\
  (forall T filtering signal result,
     fileData (state r) = false \/ signal = false \/ result = None ->
     findUpslope T filtering signal result r = r) /\
  (forall target peaks,
     fileData (state r) = true ->
     exists seg',
       labels (state (findPeaks target true (Some peaks) r)) !! id = Some seg' /\
       points (label_indexes seg') (peakType target) = peaksFor target peaks /\
       labeled seg' = true).
Proof.
  intros id. split; [|split; [|split; [|split; [|split; [|split]]]]].
  - intros target signal result. unfold findPeaks.
    destruct (_ || _); [apply onlyType_refl|].
    destruct result as [peaks|]; [|apply onlyType_refl].
    pose proof (onlyType_put (peakType target) r (peaksFor target peaks) true) as H.
    by destruct target.
  - intros signal result. unfold findOnsetCompression.
    destruct (_ || _); [apply onlyType_refl|].
    destruct (labels (state r) !! _) as [seg|] eqn:Hseg; [|apply onlyType_refl].
    case_bool_decide as Hcs; [apply onlyType_refl|].
    destruct result as [onsets|]; [|apply onlyType_refl].
    pose proof (onlyType_put compression_diastolic_points r (default [] onsets) true)
      as Hput.
    simpl in Hput. by rewrite Hseg in Hput.
  - intros T filtering signal result. unfold findUpslope.
    destruct (_ || _); [apply onlyType_refl|].
    destruct (_ && _); [apply onlyType_refl|].
    destruct result as [upslopes|]; [|apply onlyType_refl].
    apply (onlyType_put T r (default [] upslopes) true).
  - intros target signal result H. unfold findPeaks.
    destruct (fileData (state r)), signal, result; simpl; try done.
    by destruct H as [?|[?|?]].
  - intros signal result H. unfold findOnsetCompression. fold id.
    destruct (fileData (state r)), signal; simpl; try done.
    destruct (labels (state r) !! id) as [seg|]; [|done]. simpl in H.
    case_bool_decide as Hcs; [done|]. destruct result; [|done].
    by destruct H as [?|[?|[?|?]]].
  - intros T filtering signal result H. unfold findUpslope.
    destruct (fileData (state r)), signal, result; simpl; try done.
    + by destruct H as [?|[?|?]].
    + by destruct (_ && _).
  - intros target peaks Hfile. unfold findPeaks. rewrite Hfile. simpl. fold id.
    eexists. rewrite lookup_insert_eq. split; [done|].
    split; [|done]. by destruct target.
Qed.

(** A file is open with the points 10 and 20 placed by hand; the peak
    finder sends back 300 and 100 as systolic peaks, and these replace the
    points, in the order received. *)
Lemma detections_replace_one_array_witness :
  let seg := mkSegmentLabels true false (mkLabelIndexes [Int 10; Int 20] [] [] []) "" "" None in
  let r := openSession {[ "0" := seg ]} in
  let r' := findPeaks compression_systolic true
              (Some (mkPeaks (Some [Int 300; Int 100]) None)) r in
  exists seg', labels (state r') !! "0" = Some seg' /\
               points (label_indexes seg') compression_systolic_points
               = [Int 300; Int 100] /\
               labeled seg' = true.
Proof.
  intros seg r r'.
  destruct (detections_replace_one_array r) as (_ & _ & _ & _ & _ & _ & H).
  destruct (H compression_systolic (mkPeaks (Some [Int 300; Int 100]) None))
    as (seg' & Hl & Hp & Hlab); [by vm_compute|].
  exists seg'. assert (segmentId (state r) = "0") as E by (by vm_compute).
  rewrite E in Hl. done.
Defined.

(** ** Keyboard shortcuts *)

Lemma toLowerCase_idemp (str : string) :
  toLowerCase (toLowerCase str) = toLowerCase str.
Proof.
  induction str as [|c str IH]; [done|]. cbn [toLowerCase]. rewrite IH. f_equal.
  unfold ascii_lower.
  destruct ((65 <=? nat_of_ascii c)%nat && (nat_of_ascii c <=? 90)%nat) eqn:H; [|by rewrite H].
  apply andb_true_iff in H as [H1%Nat.leb_le H2%Nat.leb_le].
  rewrite nat_ascii_embedding by lia.
  destruct (Nat.leb_spec (nat_of_ascii c + 32) 90); [lia|]. by rewrite andb_false_r.
Qed.

Lemma cycleLabelType_select (direction : Z) (r : Renderer) :
  exists T, cycleLabelType direction r = selectLabelType T r.
Proof.
  unfold cycleLabelType. 
  destruct (labelTypes !! _) as [T|]; [by exists T|].
  exists (currentLabelType (state r)). by destruct r as [[]].
Qed.

Lemma cycleLabelType_forward (r : Renderer) :
  cycleLabelType 1 r
  = selectLabelType
      match currentLabelType (state r) with
      | compression_systolic_points => compression_diastolic_points
      | compression_diastolic_points => spontaneous_systolic_points
      | spontaneous_systolic_points => spontaneous_diastolic_points
      | spontaneous_diastolic_points => compression_systolic_points
      end r.
Proof. unfold cycleLabelType. by destruct (currentLabelType (state r)). Qed.

Lemma cycleLabelType_backward (r : Renderer) :
  cycleLabelType (-1) r
  = selectLabelType
      match currentLabelType (state r) with
      | compression_systolic_points => spontaneous_diastolic_points
      | compression_diastolic_points => compression_systolic_points
      | spontaneous_systolic_points => compression_diastolic_points
      | spontaneous_diastolic_points => spontaneous_systolic_points
      end r.
Proof. unfold cycleLabelType. by destruct (currentLabelType (state r)). Qed.

(** X12.  The keyboard.  With the focus in an input field no shortcut acts.  A
    key acts the same in upper and in lower case.  Every key press is at
    most one of the events considered above, a segment change by one or
    the choice of a label type, so it never changes the labels.  [s] and
    [w] step through the four label types in opposite directions, going
    round at the ends: one undoes the other, and four presses of either
    lead back to the type selected before. *)
Theorem keyboard_shortcuts (r : Renderer) (key : string) (ok : bool) :
  handleKeyboard true key ok r = r /\
  handleKeyboard false (toLowerCase key) ok r = handleKeyboard false key ok r /\
  (handleKeyboard false key ok r = r \/
   (exists direction, (direction = 1 \/ direction = -1) /\
      handleKeyboard false key ok r = step (ENavigate direction ok) r) \/
   (exists T, handleKeyboard false key ok r = step (ESelectLabelType T) r)) /\
  labels (state (handleKeyboard false key ok r)) = labels (state r) /\
  cycleLabelType (-1) (cycleLabelType 1 r) = selectLabelType (currentLabelType (state r)) r /\
  cycleLabelType 1 (cycleLabelType (-1) r) = selectLabelType (currentLabelType (state r)) r /\
  cycleLabelType 1 (cycleLabelType 1 (cycleLabelType 1 (cycleLabelType 1 r)))
  = selectLabelType (currentLabelType (state r)) r.
Proof.
  split; [done|]. split; [|split; [|split; [|split; [|split]]]].
  - unfold handleKeyboard. by rewrite toLowerCase_idemp.
  - unfold handleKeyboard.
    repeat (case_bool_decide; [first [by left | by right; left; eexists; split; [|done]; lia
                                     | right; right; apply cycleLabelType_select]|]).
    by left.
  - unfold handleKeyboard.
    repeat (case_bool_decide;
            [first [done
                   | by (unfold navigateSegment; destruct (_ && _); [|done];
                         simpl; apply labels_saveIfDirty)
                   | by (destruct (cycleLabelType_select (-1) r) as [T ->])
                   | by (destruct (cycleLabelType_select 1 r) as [T ->])]|]).
    done.
  - rewrite cycleLabelType_forward, cycleLabelType_backward.
    by destruct (currentLabelType (state r)).
  - rewrite cycleLabelType_backward, cycleLabelType_forward.
    by destruct (currentLabelType (state r)).
  - rewrite !cycleLabelType_forward.
    by destruct (currentLabelType (state r)).
Qed.

(** ** The order of the signals *)

Lemma filter_ext_bool {A} (f g : A -> bool) (l : list A) :
  (forall a, f a = g a) -> List.filter f l = List.filter g l.
Proof. intros H. induction l as [|a l IH]; [done|]. simpl. by rewrite H, IH. Qed.

Lemma signalRank_lt (s : string) : (signalRank s < 5)%nat.
Proof. unfold signalRank. repeat case_bool_decide; try lia. destruct (includes _ _); lia. Qed.

(** The five filters of the source select the five ranks. *)
Lemma sortSignalsArtFirst_ranks (signalList : list string) :
  sortSignalsArtFirst signalList = ranked signalRank signalList.
Proof.
  unfold sortSignalsArtFirst, ranked.
  f_equal; [|f_equal; [|f_equal; [|f_equal]]]; apply filter_ext_bool; intros s;
    unfold signalRank;
    repeat case_bool_decide; try congruence; try done;
    try (match goal with H : toUpperCase s = _ |- _ => by rewrite H end);
    by destruct (includes _ _).
Qed.

Section Ranked.
Context {A : Type} (rank : A -> nat).
Hypothesis rank_lt : forall a, (rank a < 5)%nat.

Lemma ranked_cons (a : A) (l : list A) :
  Permutation (a :: ranked rank l) (ranked rank (a :: l)).
Proof.
  unfold ranked. simpl. pose proof (rank_lt a) as Hlt.
  destruct (rank a) as [|[|[|[|[|n]]]]]; simpl; [| | | | |lia].
  - done.
  - by rewrite <- Permutation_middle.
  - rewrite (app_assoc _ _ (a :: _)), <- Permutation_middle. by rewrite <- app_assoc.
  - rewrite (app_assoc _ _ (List.filter _ l ++ a :: _)), (app_assoc _ _ (a :: _)).
    rewrite <- Permutation_middle. by rewrite <- !app_assoc.
  - rewrite (app_assoc _ _ (List.filter _ l ++ List.filter _ l ++ a :: _)).
    rewrite (app_assoc _ _ (List.filter _ l ++ a :: _)), (app_assoc _ _ (a :: _)).
    rewrite <- Permutation_middle. by rewrite <- !app_assoc.
Qed.

Lemma ranked_perm (l : list A) : Permutation l (ranked rank l).
Proof.
  induction l as [|a l IH]; [done|].
  etrans; [|apply ranked_cons]. by constructor.
Qed.

Lemma filter_rank_filter (j k : nat) (l : list A) :
  List.filter (fun a => Nat.eqb (rank a) k) (List.filter (fun a => Nat.eqb (rank a) j) l)
  = if Nat.eqb j k then List.filter (fun a => Nat.eqb (rank a) j) l else [].
Proof.
  induction l as [|a l IH]; [by destruct (Nat.eqb j k)|]. simpl.
  destruct (Nat.eqb_spec (rank a) j) as [Hj|Hj]; simpl; [|done]. rewrite IH.
  destruct (Nat.eqb_spec j k) as [Hk|Hk].
  - by rewrite (proj2 (Nat.eqb_eq _ _)) by congruence.
  - by rewrite (proj2 (Nat.eqb_neq _ _)) by congruence.
Qed.

(** Each rank holds in [ranked rank l] what it holds in [l], in the same
    order. *)
Lemma filter_ranked (k : nat) (l : list A) :
  List.filter (fun a => Nat.eqb (rank a) k) (ranked rank l)
  = List.filter (fun a => Nat.eqb (rank a) k) l.
Proof.
  unfold ranked. rewrite !List.filter_app, !filter_rank_filter.
  destruct k as [|[|[|[|[|k]]]]]; simpl; rewrite ?app_nil_r; try done.
  induction l as [|a l IH]; [done|]. simpl.
  pose proof (rank_lt a). destruct (Nat.eqb_spec (rank a) (S (S (S (S (S k)))))); [lia|done].
Qed.

Lemma ranked_idemp (l : list A) : ranked rank (ranked rank l) = ranked rank l.
Proof. unfold ranked at 1. by rewrite !filter_ranked. Qed.

Lemma filter_rank_Forall (k : nat) (l : list A) :
  Forall (fun a => rank a = k) (List.filter (fun a => Nat.eqb (rank a) k) l).
Proof.
  apply Forall_forall. intros a Ha. apply list_elem_of_In in Ha.
  apply List.filter_In in Ha as [_ Ha]. by apply Nat.eqb_eq.
Qed.

(** A group of rank [k] in front of a sorted list of ranks above [k]. *)
Lemma sorted_rank_app (k : nat) (l1 l2 : list A) :
  Forall (fun a => rank a = k) l1 ->
  Forall (fun b => (k <= rank b)%nat) l2 ->
  StronglySorted (fun a b => (rank a <= rank b)%nat) l2 ->
  StronglySorted (fun a b => (rank a <= rank b)%nat) (l1 ++ l2) /\
  Forall (fun b => (k <= rank b)%nat) (l1 ++ l2).
Proof.
  intros H1 H2 Hs. split.
  - induction H1 as [|a l1 Ha H1 IH]; [done|]. simpl. constructor; [done|].
    apply Forall_app. split.
    + eapply Forall_impl; [exact H1|]. simpl. intros b Hb. lia.
    + eapply Forall_impl; [exact H2|]. simpl. intros b Hb. lia.
  - apply Forall_app. split; [|done].
    eapply Forall_impl; [exact H1|]. simpl. intros b Hb. lia.
Qed.

Lemma ranked_sorted (l : list A) :
  StronglySorted (fun a b => (rank a <= rank b)%nat) (ranked rank l).
Proof.
  unfold ranked.
  assert (forall k l', Forall (fun b => (S k <= rank b)%nat) l' ->
                       Forall (fun b => (k <= rank b)%nat) l') as Hweak.
  { intros k l' H. eapply Forall_impl; [exact H|]. simpl. intros b Hb. lia. }
  destruct (sorted_rank_app 4 (List.filter (fun a => Nat.eqb (rank a) 4) l) [])
    as [S4 B4]; [apply filter_rank_Forall|done|constructor|].
  rewrite app_nil_r in S4, B4.
  destruct (sorted_rank_app 3 _ _ (filter_rank_Forall 3 l) (Hweak _ _ B4) S4) as [S3 B3].
  destruct (sorted_rank_app 2 _ _ (filter_rank_Forall 2 l) (Hweak _ _ B3) S3) as [S2 B2].
  destruct (sorted_rank_app 1 _ _ (filter_rank_Forall 1 l) (Hweak _ _ B2) S2) as [S1 B1].
  destruct (sorted_rank_app 0 _ _ (filter_rank_Forall 0 l) (Hweak _ _ B1) S1) as [S0 B0].
  exact S0.
Qed.
End Ranked.

(** X13.  [sortSignalsArtFirst] loses and repeats no signal: what it returns is a
    permutation of the list it is given.  It puts the signals in the order
    of their rank (the arterial pressure, its first derivative, its second
    derivative, the other arterial signals, the rest), keeps the order of
    the list within each rank, and sorting again changes nothing. *)
Theorem sortSignalsArtFirst_orders (signalList : list string) :
  let sorted := sortSignalsArtFirst signalList in
  Permutation signalList sorted /\
  StronglySorted (fun a b => (signalRank a <= signalRank b)%nat) sorted /\
  (forall k, List.filter (fun s => Nat.eqb (signalRank s) k) sorted
             = List.filter (fun s => Nat.eqb (signalRank s) k) signalList) /\
  sortSignalsArtFirst sorted = sorted.
Proof.
  simpl. rewrite !sortSignalsArtFirst_ranks. split; [|split; [|split]].
  - apply ranked_perm, signalRank_lt.
  - apply ranked_sorted.
  - intros k. apply filter_ranked, signalRank_lt.
  - apply ranked_idemp, signalRank_lt.
Qed.

Example sortSignalsArtFirst_example :
  sortSignalsArtFirst ["ECG"; "abp_d2"; "SpO2"; "ABP_raw"; "ABP"; "abp_d1"]
  = ["ABP"; "abp_d1"; "abp_d2"; "ABP_raw"; "ECG"; "SpO2"].
Proof. by vm_compute. Qed.

(** ** The bridge: responses, ids and pending calls *)
Module BridgeMore.
Import PythonBridge BridgeFacts.

Lemma handleMessage_pending (message : Message) (b : Bridge) (id p : nat) :
  msg_id message = Some id -> pendingCalls b !! id = Some p ->
  handleMessage message b
  = settle p (answer message)
      (mkBridge (pythonProcess b) (messageId b) (delete id (pendingCalls b))
         (nextPromise b) (settlements b) (timeouts b) (now b) (sent b)).
Proof.
  intros Hid Hp. unfold handleMessage, answer. rewrite Hid, Hp.
  destruct (msg_error message) as [e|]; [|done]. by case_bool_decide.
Qed.

(** Once a promise has been settled in a state of the bridge, its state and
    the number of its settlements stay the same. *)
Lemma settled_for_good (p : nat) (how : Settlement) (b : Bridge)
    (es : list BridgeEvent) :
  bridgeInv b -> settledTimes p b = 1%nat -> promiseState p b = Some how ->
  settledTimes p (bridge_run es b) = 1%nat /\
  promiseState p (bridge_run es b) = Some how.
Proof.
  intros Hinv H1 Hs. destruct (settlements_grow_run es b) as [more Hmore]. split.
  - pose proof (settledTimes_app p _ _ _ Hmore) as Hge.
    destruct (bridgeInv_run es b Hinv) as (_ & _ & _ & I4 & _).
    pose proof (I4 p). lia.
  - unfold promiseState. rewrite Hmore. by apply promiseState_app.
Qed.

(** X14.  A response that arrives while its call is pending.  Take any state of
    the bridge reached from the initial one in which the process runs, and
    issue a call.  When a message with the id of the call arrives before
    the timeout has run, the entry of the call is removed and its promise
    is settled as the message says: rejected with the error when there is a
    non-empty one, resolved with the result otherwise.  No other promise
    and no other pending entry changes.  The timeout of the call stays
    armed; when it runs it finds no entry and settles nothing, and whatever
    events follow, the promise has been settled exactly once. *)
Theorem response_settles_once (es0 es : list BridgeEvent)
    (method params : string) (message : Message) :
  let b := bridge_run es0 initialBridge in
  let id := messageId b in
  let p := snd (call method params b) in
  let b2 := bridge_run es (fst (call method params b)) in
  let b3 := handleMessage message b2 in
  pythonProcess b = true -> quiet id es -> msg_id message = Some id ->
  (settlements b3 = settlements b2 ++ [(p, answer message)] /\
   promiseState p b3 = Some (answer message) /\
   pendingCalls b3 = delete id (pendingCalls b2)) /\
  (forall q, q <> p -> promiseState q b3 = promiseState q b2) /\
  (timeouts b3 !! id = Some (now b + TIMEOUT_MS)%N /\
   forall dt, settlements (fireTimeout id (elapse dt b3)) = settlements b3) /\
  (forall es',
     settledTimes p (bridge_run es' b3) = 1%nat /\
     promiseState p (bridge_run es' b3) = Some (answer message)).
Proof.
  intros b id p b2 b3 Hrun Hquiet Hmsg.
  pose proof (bridgeInv_run es0 _ bridgeInv_initial) as Hinv. fold b in Hinv.
  set (b1 := fst (call method params b)) in *.
  assert (b1 = mkBridge true (S id) (<[id := nextPromise b]> (pendingCalls b))
                 (S (nextPromise b)) (settlements b)
                 (<[id := (now b + TIMEOUT_MS)%N]> (timeouts b)) (now b)
                 (sent b ++ [mkRequest id method params]) /\ p = nextPromise b)
    as [Hb1 Hp].
  { subst b1 p. unfold call. by rewrite Hrun. }
  assert (bridgeInv b1) as Hinv1 by (apply (bridgeInv_call method params b Hinv)).
  assert (pendingCalls b1 !! id = Some p) as Hp1.
  { rewrite Hb1, Hp. simpl. apply lookup_insert_eq. }
  assert (timeouts b1 !! id = Some (now b + TIMEOUT_MS)%N) as Ht1.
  { rewrite Hb1. simpl. apply lookup_insert_eq. }
  destruct (quiet_keeps_pending id p _ es b1 Hinv1 Hquiet Hp1 Ht1) as [Hp2 Ht2].
  fold b2 in Hp2, Ht2.
  assert (bridgeInv b2) as Hinv2 by by apply bridgeInv_run.
  assert (settledTimes p b2 = 0%nat) as H0.
  { destruct Hinv2 as (I1 & _). by destruct (I1 id p Hp2) as (_ & _ & ?). }
  pose proof (handleMessage_pending message b2 id p Hmsg Hp2) as Hb3. fold b3 in Hb3.
  set (b2' := mkBridge (pythonProcess b2) (messageId b2) (delete id (pendingCalls b2))
                (nextPromise b2) (settlements b2) (timeouts b2) (now b2) (sent b2))
    in Hb3.
  assert (bridgeInv b3) as Hinv3 by by apply bridgeInv_handleMessage.
  assert (promiseState p b3 = Some (answer message)) as Hs3.
  { rewrite Hb3. by apply (promiseState_settle_first p _ b2'). }
  assert (settledTimes p b3 = 1%nat) as H1.
  { rewrite Hb3, settledTimes_settle.
    change (settledTimes p b2') with (settledTimes p b2).
    rewrite H0. by rewrite decide_True. }
  split; [|split; [|split]].
  - split; [by rewrite Hb3|]. split; [done|by rewrite Hb3].
  - intros q Hq. rewrite Hb3. by rewrite promiseState_settle_other.
  - split; [by rewrite Hb3|]. intros dt. unfold fireTimeout.
    change (timeouts (elapse dt b3)) with (timeouts b3).
    destruct (timeouts b3 !! id) as [due|]; [|done].
    destruct (_ <=? _)%N; [|done]. unfold timeoutCallback. simpl.
    rewrite Hb3. simpl. by rewrite lookup_delete_eq.
  - intros es'. by apply settled_for_good.
Qed.

(** Two calls are pending; the answer to the second one resolves its
    promise and leaves the first one pending; the timeout of the answered
    call settles nothing. *)
Lemma response_settles_once_witness :
  let b2 := bridge_run [BStart; BCall "load_labels" "{}"; BCall "find_peaks" "{}";
                        BElapse 100] initialBridge in
  let b3 := handleMessage (mkMessage (Some 1%nat) "[1,2]" None) b2 in
  promiseState 1 b3 = Some (Resolve "[1,2]") /\
  promiseState 0 b3 = None /\
  settledTimes 1 (bridge_run [BElapse 30000; BTimeout 1] b3) = 1%nat.
Proof.
  intros b2 b3.
  destruct (response_settles_once [BStart; BCall "load_labels" "{}"] [BElapse 100]
              "find_peaks" "{}" (mkMessage (Some 1%nat) "[1,2]" None))
    as ((_ & Hs & _) & _ & _ & Hlater).
  - reflexivity.
  - repeat constructor.
  - reflexivity.
  - split; [exact Hs|]. split; [by vm_compute|].
    exact (proj1 (Hlater [BElapse 30000; BTimeout 1])).
Defined.

(** X15.  A call made while no process runs is rejected at once with the error
    ["Python process not started"].  It uses no id, sends nothing, leaves no
    pending entry and arms no timeout, and its promise stays rejected with
    that error whatever happens later. *)
Theorem call_without_process_is_rejected (es0 es : list BridgeEvent)
    (method params : string) :
  let b := bridge_run es0 initialBridge in
  let p := snd (call method params b) in
  let b1 := fst (call method params b) in
  pythonProcess b = false ->
  (messageId b1 = messageId b /\ sent b1 = sent b /\
   pendingCalls b1 = pendingCalls b /\ timeouts b1 = timeouts b) /\
  settledTimes p (bridge_run es b1) = 1%nat /\
  promiseState p (bridge_run es b1) = Some (Reject "Python process not started").
Proof.
  intros b p b1 Hoff.
  pose proof (bridgeInv_run es0 _ bridgeInv_initial) as Hinv. fold b in Hinv.
  assert (b1 = settle (nextPromise b) (Reject "Python process not started")
                 (mkBridge (pythonProcess b) (messageId b) (pendingCalls b)
                    (S (nextPromise b)) (settlements b) (timeouts b) (now b) (sent b))
          /\ p = nextPromise b) as [Hb1 Hp].
  { subst b1 p. unfold call. by rewrite Hoff. }
  set (b0 := mkBridge (pythonProcess b) (messageId b) (pendingCalls b)
               (S (nextPromise b)) (settlements b) (timeouts b) (now b) (sent b)) in Hb1.
  assert (settledTimes p b = 0%nat) as H0.
  { destruct Hinv as (_ & _ & I3 & _). apply I3. lia. }
  split; [by rewrite Hb1|].
  apply settled_for_good.
  - apply (bridgeInv_call method params b Hinv).
  - rewrite Hb1, settledTimes_settle, Hp.
    change (settledTimes (nextPromise b) b0) with (settledTimes (nextPromise b) b).
    rewrite <- Hp, H0. by rewrite decide_True.
  - rewrite Hb1, Hp. apply (promiseState_settle_first _ _ b0).
    change (settledTimes (nextPromise b) b0) with (settledTimes (nextPromise b) b).
    by rewrite <- Hp.
Qed.

(** The process has closed: the next call is rejected, also after the
    process is started again and a late message arrives. *)
Lemma call_without_process_is_rejected_witness :
  let b := bridge_run [BStart; BCall "find_peaks" "{}"; BClose] initialBridge in
  let b1 := fst (call "get_segment" "{}" b) in
  pendingCalls b1 = pendingCalls b /\
  promiseState 1 (bridge_run [BStart; BMessage (mkMessage (Some 1%nat) "x" None)] b1)
  = Some (Reject "Python process not started").
Proof.
  intros b b1.
  destruct (call_without_process_is_rejected
              [BStart; BCall "find_peaks" "{}"; BClose]
              [BStart; BMessage (mkMessage (Some 1%nat) "x" None)] "get_segment" "{}")
    as ((_ & _ & Hp & _) & _ & Hs); [reflexivity|].
  split; [exact Hp|exact Hs].
Defined.

Lemma requestsNumbered_step (e : BridgeEvent) (b : Bridge) :
  requestsNumbered b -> requestsNumbered (bridge_step e b).
Proof.
  unfold requestsNumbered. intros H. destruct e; simpl; try done.
  - unfold call. destruct (negb _); [exact H|].
    cbn [fst sent messageId]. by rewrite fmap_app, H, seq_S.
  - unfold handleMessage. destruct (msg_id message) as [id|]; [|done].
    destruct (pendingCalls b !! id); [|done].
    destruct (msg_error message) as [e|]; [|done]. by case_bool_decide.
  - unfold fireTimeout. destruct (timeouts b !! id); [|done].
    destruct (_ <=? _)%N; [|done]. unfold timeoutCallback. simpl.
    by destruct (pendingCalls b !! id).
Qed.

(** X16.  The correlation ids.  In every state of the bridge reached from the
    initial one, the requests handed to the transport carry the ids 0, 1,
    2, ... in the order of the calls, so no two requests share an id, and
    every pending call is one of the requests sent. *)
Theorem correlation_ids_are_unique (es : list BridgeEvent) :
  let b := bridge_run es initialBridge in
  req_id <$> sent b = seq 0 (messageId b) /\
  NoDup (req_id <$> sent b) /\
  (forall id p, pendingCalls b !! id = Some p -> id ∈ (req_id <$> sent b)).
Proof.
  intros b.
  assert (requestsNumbered b) as Hn.
  { unfold b. generalize initialBridge (eq_refl : requestsNumbered initialBridge).
    induction es as [|e es IH]; intros b0 H0; [done|].
    simpl. by apply IH, requestsNumbered_step. }
  unfold requestsNumbered in Hn. split; [done|]. rewrite Hn. split.
  - apply NoDup_ListNoDup, List.seq_NoDup.
  - intros id p Hp.
    destruct (bridgeInv_run es _ bridgeInv_initial) as (I1 & _).
    destruct (I1 id p Hp) as (Hlt & _). fold b in Hlt.
    apply list_elem_of_In, List.in_seq. lia.
Qed.

Lemma pendingArmed_step (e : BridgeEvent) (b : Bridge) :
  bridgeInv b -> pendingArmed b -> pendingArmed (bridge_step e b).
Proof.
  intros Hinv H. destruct e; simpl; try done.
  - unfold call. destruct (negb _); simpl; [done|].
    intros id p. simpl. destruct (decide (id = messageId b)) as [->|Hne].
    + rewrite !lookup_insert_eq. intros _. eexists. split; [done|lia].
    + rewrite !lookup_insert_ne by done. apply H.
  - unfold handleMessage. destruct (msg_id message) as [id|]; [|done].
    destruct (pendingCalls b !! id) as [p|] eqn:Hp; [|done].
    assert (pendingArmed
              (mkBridge (pythonProcess b) (messageId b) (delete id (pendingCalls b))
                 (nextPromise b) (settlements b) (timeouts b) (now b) (sent b))) as H'.
    { intros id' p'. simpl. intros [_ Hp']%lookup_delete_Some. by apply (H id' p'). }
    destruct (msg_error message) as [e|]; [|done]. by case_bool_decide.
  - unfold fireTimeout. destruct (timeouts b !! id) as [due|] eqn:Hd; [|done].
    destruct (_ <=? _)%N; [|done]. unfold timeoutCallback. simpl.
    destruct (pendingCalls b !! id) as [p|] eqn:Hp.
    + intros id' p'. simpl. intros [Hne Hp']%lookup_delete_Some.
      rewrite lookup_delete_ne by done. by apply (H id' p').
    + intros id' p'. simpl. intros Hp'.
      rewrite lookup_delete_ne by congruence. by apply (H id' p').
  - intros id p Hp. simpl in Hp. destruct (H id p Hp) as (due & Hd & Hle).
    exists due. split; [done|]. simpl. lia.
Qed.

Lemma pendingArmed_run (es : list BridgeEvent) (b : Bridge) :
  bridgeInv b -> pendingArmed b -> pendingArmed (bridge_run es b).
Proof.
  revert b. induction es as [|e es IH]; intros b Hinv H; [done|].
  simpl. apply IH; [by apply bridgeInv_step|by apply pendingArmed_step].
Qed.

(** X17.  No call stays pending for good.  In every state of the bridge reached
    from the initial one, whether the process runs or has closed, a pending
    call has a promise that is not settled yet and a timeout that is armed
    and due within 30000 ms.  Once that time has passed, the run of the
    timeout removes the entry and rejects the promise with the timeout
    error. *)
Theorem pending_calls_time_out (es : list BridgeEvent) (id p : nat) (dt : N) :
  let b := bridge_run es initialBridge in
  let b' := fireTimeout id (elapse dt b) in
  pendingCalls b !! id = Some p -> (TIMEOUT_MS <= dt)%N ->
  promiseState p b = None /\
  (exists due, timeouts b !! id = Some due /\ (due <= now b + TIMEOUT_MS)%N) /\
  pendingCalls b' = delete id (pendingCalls b) /\
  promiseState p b' = Some (Reject "Python call timeout").
Proof.
  intros b b' Hp Hdt.
  pose proof (bridgeInv_run es _ bridgeInv_initial) as Hinv. fold b in Hinv.
  assert (pendingArmed b) as Harmed.
  { apply pendingArmed_run; [apply bridgeInv_initial|]. intros i q Hq.
    simpl in Hq. by rewrite lookup_empty in Hq. }
  destruct (Harmed id p Hp) as (due & Hd & Hle).
  assert (settledTimes p b = 0%nat) as H0.
  { destruct Hinv as (I1 & _). by destruct (I1 id p Hp) as (_ & _ & ?). }
  split; [by apply settledTimes_0_pending|]. split; [by exists due|].
  assert (b' = settle p (Reject "Python call timeout")
                 (mkBridge (pythonProcess b) (messageId b) (delete id (pendingCalls b))
                    (nextPromise b) (settlements b) (delete id (timeouts b))
                    (now b + dt)%N (sent b))) as Hb'.
  { unfold b', fireTimeout. change (timeouts (elapse dt b)) with (timeouts b).
    rewrite Hd. change (now (elapse dt b)) with (now b + dt)%N.
    destruct (N.leb_spec due (now b + dt)); [|lia].
    unfold timeoutCallback. simpl. by rewrite Hp. }
  split; [by rewrite Hb'|]. rewrite Hb'.
  by apply (promiseState_settle_first p _ (mkBridge _ _ _ _ _ _ _ _)).
Qed.

(** A call is pending when the process closes; 30000 ms later its timeout
    rejects it. *)
Lemma pending_calls_time_out_witness :
  let b := bridge_run [BStart; BCall "save_labels" "{}"; BClose] initialBridge in
  pendingCalls b !! 0%nat = Some 0%nat /\
  promiseState 0 (fireTimeout 0 (elapse 30000 b)) = Some (Reject "Python call timeout").
Proof.
  intros b. split; [reflexivity|].
  destruct (pending_calls_time_out [BStart; BCall "save_labels" "{}"; BClose] 0 0 30000)
    as (_ & _ & _ & H); [reflexivity|done|exact H].
Defined.

End BridgeMore.

(** ** The standard output of the backend: lines and chunks *)

Module StdoutFacts.
Import PythonBridge Stdout.

Lemma split_nonempty (s : text) : split s <> [].
Proof.
  induction s as [|c s IH]; [done|]. simpl.
  destruct (c =? NL)%N; [done|]. by destruct (split s).
Qed.

Lemma split_no_NL (s : text) : NL ∉ s -> split s = [s].
Proof.
  induction s as [|c s IH]; [done|]. intros [Hc Hs]%not_elem_of_cons. simpl.
  destruct (N.eqb_spec c NL) as [->|_]; [done|]. by rewrite IH.
Qed.

Lemma removelast_cons {A} (a : A) (l : list A) :
  l <> [] -> removelast (a :: l) = a :: removelast l.
Proof. by destruct l. Qed.

Lemma last_cons {A} (a d : A) (l : list A) :
  l <> [] -> List.last (a :: l) d = List.last l d.
Proof. by destruct l. Qed.

Lemma last_split_no_NL (s : text) : NL ∉ List.last (split s) [].
Proof.
  induction s as [|c s IH]; [apply not_elem_of_nil|].
  simpl. destruct (N.eqb_spec c NL) as [->|Hc].
  - by rewrite last_cons by apply split_nonempty.
  - pose proof (split_nonempty s) as Hne.
    destruct (split s) as [|line [|line' lines]]; [done| |].
    + simpl in *. by apply not_elem_of_cons.
    + exact IH.
Qed.

(** Cutting [a ++ b]: the last piece of [a] and the first piece of [b] are
    one line. *)
Lemma split_app (a b : text) :
  split (a ++ b)
  = removelast (split a) ++ (List.last (split a) [] ++ hd [] (split b)) :: tl (split b).
Proof.
  induction a as [|c a IH].
  - simpl. pose proof (split_nonempty b). by destruct (split b).
  - simpl. destruct (N.eqb_spec c NL) as [->|Hc].
    + rewrite IH, removelast_cons, last_cons by apply split_nonempty. done.
    + rewrite IH. pose proof (split_nonempty a) as Hne.
      destruct (split a) as [|line [|line' lines]]; [done|done|].
      by rewrite !removelast_cons, !last_cons by done.
Qed.

Lemma removelast_app_ne {A} (l1 l2 : list A) :
  l2 <> [] -> removelast (l1 ++ l2) = l1 ++ removelast l2.
Proof.
  intros H. induction l1 as [|a l1 IH]; [done|].
  simpl app. rewrite removelast_cons, IH; [done|]. by destruct l1, l2.
Qed.

Lemma last_app_ne {A} (d : A) (l1 l2 : list A) :
  l2 <> [] -> List.last (l1 ++ l2) d = List.last l2 d.
Proof.
  intros H. induction l1 as [|a l1 IH]; [done|].
  simpl app. rewrite last_cons, IH; [done|]. by destruct l1, l2.
Qed.

(** The lines of [a ++ b] are the complete lines of [a], then the lines of
    what [a] left unfinished followed by [b]. *)
Lemma split_app_rest (a b : text) :
  split (a ++ b) = removelast (split a) ++ split (List.last (split a) [] ++ b).
Proof.
  rewrite (split_app a b), (split_app (List.last (split a) []) b).
  by rewrite (split_no_NL _ (last_split_no_NL a)).
Qed.

(** Bytes that end between two characters are decoded apart from the bytes
    that follow. *)
Lemma decode_app (st : option Pending) (a b : list N) :
  pendingAfter st a = None -> decode st (a ++ b) = decode st a ++ decode None b.
Proof.
  revert st. induction a as [|c a IH]; intros st H.
  - simpl in H. by subst st.
  - simpl in *. destruct (decodeByte st c) as [st' out]. simpl in H.
    by rewrite (IH st' H), app_assoc.
Qed.

Lemma toString_app (d1 d2 : Buffer) :
  pendingAfter None d1 = None -> toString (d1 ++ d2) = toString d1 ++ toString d2.
Proof.
  intros H. unfold toString. rewrite (decode_app None d1 d2 H).
  apply flat_map_app.
Qed.

(** Bytes below 128 are characters of their own. *)
Lemma pendingAfter_ascii (data : Buffer) :
  Forall (fun b => (b <= 127)%N) data -> pendingAfter None data = None.
Proof.
  induction 1 as [|b data Hb _ IH]; [done|]. simpl. unfold lead.
  by rewrite (proj2 (N.leb_le b 127) Hb).
Qed.

Section OnDataFacts.
Variable JSON_parse : text -> option Message.

Lemma onData_app (d1 d2 : Buffer) (st : Reader) :
  pendingAfter None d1 = None ->
  onData JSON_parse (d1 ++ d2) st = onData JSON_parse d2 (onData JSON_parse d1 st).
Proof.
  intros H. unfold onData. cbn [buffer bridge]. rewrite (toString_app d1 d2 H).
  rewrite (app_assoc (buffer st) (toString d1) (toString d2)).
  rewrite (split_app_rest (buffer st ++ toString d1) (toString d2)).
  rewrite removelast_app_ne, last_app_ne by apply split_nonempty.
  by rewrite foldl_app.
Qed.

Lemma onData_no_NL (data : Buffer) (st : Reader) :
  NL ∉ buffer st -> NL ∉ toString data ->
  onData JSON_parse data st = mkReader (buffer st ++ toString data) (bridge st).
Proof.
  intros Hb Hd. unfold onData. rewrite split_no_NL; [done|].
  intros [?|?]%elem_of_app; tauto.
Qed.

Lemma onData_line (line : Buffer) (st : Reader) :
  NL ∉ buffer st -> NL ∉ toString line -> pendingAfter None line = None ->
  onData JSON_parse (line ++ [NL]) st
  = mkReader [] (deliver JSON_parse (bridge st) (buffer st ++ toString line)).
Proof.
  intros Hb Hd Hcut. unfold onData. rewrite (toString_app line [NL] Hcut).
  change (toString [NL]) with [NL].
  rewrite (app_assoc (buffer st) (toString line) [NL]), split_app, split_no_NL.
  - simpl. by rewrite app_nil_r.
  - intros [?|?]%elem_of_app; tauto.
Qed.
End OnDataFacts.

(** X18.  The lines do not depend on where the chunks are cut, as long as
    no chunk ends inside a character.  Each chunk is decoded by itself, so
    for a chunk that ends between two characters (as every chunk of bytes
    below 128 does) the chunk and the one after it have the effect of the
    one chunk that holds both: a message cut there by the transport is
    handled once and whole.  The text kept for the next chunk never holds a
    line feed.  Such a chunk without a line feed hands nothing to
    [handleMessage]; the line feed that ends a line hands the whole line
    over, through the blank-line test and the parser, and leaves nothing
    behind. *)
Theorem stdout_chunks_cut_between_characters
    (JSON_parse : text -> option Message) (st : Reader) (d1 d2 : Buffer) :
  (pendingAfter None d1 = None ->
   onData JSON_parse (d1 ++ d2) st
   = onData JSON_parse d2 (onData JSON_parse d1 st)) /\
  (Forall (fun b => (b <= 127)%N) d1 -> pendingAfter None d1 = None) /\
  (NL ∉ buffer (onData JSON_parse d1 st)) /\
  ((NL ∉ buffer st) -> (NL ∉ toString d1) -> pendingAfter None d1 = None ->
   onData JSON_parse d1 st = mkReader (buffer st ++ toString d1) (bridge st) /\
   onData JSON_parse (d1 ++ [NL]) st
   = mkReader [] (deliver JSON_parse (bridge st) (buffer st ++ toString d1))).
Proof.
  split; [apply onData_app|]. split; [apply pendingAfter_ascii|].
  split; [apply last_split_no_NL|].
  intros Hb Hd Hcut. split; [by apply onData_no_NL|by apply onData_line].
Qed.

(** A response whose text holds the two bytes of an e with acute accent
    arrives in two chunks, cut after that character; the parser here reads
    every line as the response to call 0. *)
Lemma stdout_chunks_cut_between_characters_witness :
  let parse := fun _ : text => Some (mkMessage (Some 0%nat) "ok" None) in
  let b := bridge_run [BStart; BCall "get_segment" "{}"] initialBridge in
  let d1 := [123; 34; 114; 34; 58; 34; 195; 169]%N in
  let d2 := [34; 125; 10]%N in
  let st := onData parse d1 (mkReader [] b) in
  st = mkReader [123; 34; 114; 34; 58; 34; 233]%N b /\
  onData parse (d1 ++ d2) (mkReader [] b) = onData parse d2 st /\
  onData parse d2 st
  = mkReader [] (handleMessage (mkMessage (Some 0%nat) "ok" None) b).
Proof.
  intros parse b d1 d2 st.
  destruct (stdout_chunks_cut_between_characters parse (mkReader [] b) d1 d2)
    as (H1 & _ & _ & H2).
  destruct H2 as [H2 _];
    [apply (bool_decide_unpack _); by vm_compute
    |apply (bool_decide_unpack _); by vm_compute
    |by vm_compute|].
  assert (st = mkReader [123; 34; 114; 34; 58; 34; 233]%N b) as Hst by exact H2.
  split; [exact Hst|]. split; [apply H1; by vm_compute|].
  rewrite Hst.
  destruct (stdout_chunks_cut_between_characters parse
              (mkReader [123; 34; 114; 34; 58; 34; 233]%N b) [34; 125]%N [])
    as (_ & _ & _ & H3).
  destruct H3 as [_ H3];
    [apply (bool_decide_unpack _); by vm_compute
    |apply (bool_decide_unpack _); by vm_compute
    |by vm_compute|].
  change d2 with ([34; 125] ++ [NL])%N. rewrite H3. reflexivity.
Defined.

(** A chunk that ends inside a character: the two bytes of the e with acute
    accent, decoded apart, give two replacement characters, so the text is
    not the one of the two chunks joined. *)
Example stdout_cut_inside_character :
  let parse := fun _ : text => @None Message in
  let st0 := mkReader [] initialBridge in
  pendingAfter None [34; 195]%N <> None /\
  buffer (onData parse [169; 34]%N (onData parse [34; 195]%N st0))
  = [34; 65533; 65533; 34]%N /\
  buffer (onData parse [34; 195; 169; 34]%N st0) = [34; 233; 34]%N.
Proof. by vm_compute. Qed.

End StdoutFacts.

(** ** The sweep that ends with the release of Shift *)

Lemma eraseAtPositionNoUpdate_timers (ev : Pointer) (r : Renderer) :
  timers (eraseAtPositionNoUpdate ev r) = timers r /\
  autoSaveTimeout (state (eraseAtPositionNoUpdate ev r)) = autoSaveTimeout (state r).
Proof.
  unfold eraseAtPositionNoUpdate. destruct (negb _); [done|].
  destruct (xaxis ev) as [ax|]; [|done]. destruct (JS.isNaN _); [done|].
  unfold eraseAt. destruct (labels (state r) !! _) as [seg|]; [|done].
  by destruct (eraseNear seg _) as [seg' [|]].
Qed.

Lemma shift_moves_timers (moves : list Pointer) (r : Renderer) :
  Forall (fun ev => shiftKey ev = true) moves ->
  timers (run (EMouseMove <$> moves) r) = timers r /\
  autoSaveTimeout (state (run (EMouseMove <$> moves) r)) = autoSaveTimeout (state r).
Proof.
  revert r. induction moves as [|ev moves IH]; intros r Hshift; [done|].
  apply Forall_cons in Hshift as [Hev Hshift].
  change (run (EMouseMove <$> ev :: moves) r)
    with (run (EMouseMove <$> moves) (step (EMouseMove ev) r)).
  destruct (IH (step (EMouseMove ev) r) Hshift) as [-> ->].
  simpl. unfold handleEraserMouseMove. rewrite Hev.
  destruct (negb (eraserActive _)); [done|]. simpl.
  apply eraseAtPositionNoUpdate_timers.
Qed.

(** While the eraser is not active, the pointer moves and the release of the
    pointer do nothing. *)
Lemma inactive_moves (moves : list Pointer) (r : Renderer) :
  eraserActive (state r) = false ->
  run ((EMouseMove <$> moves) ++ [EMouseUp]) r = r.
Proof.
  intros H. induction moves as [|ev moves IH].
  - simpl. unfold handleEraserMouseUp. by rewrite H.
  - change (run ((EMouseMove <$> ev :: moves) ++ [EMouseUp]) r)
      with (run ((EMouseMove <$> moves) ++ [EMouseUp]) (step (EMouseMove ev) r)).
    assert (step (EMouseMove ev) r = r) as ->; [|exact IH].
    simpl. unfold handleEraserMouseMove. by rewrite H.
Qed.

(** X2.  A sweep of the eraser that ends with the release of the Shift key
    instead of the pointer.  The key handler clears [eraserActive] and does
    nothing else, and the pointer moves and the release of the pointer that
    follow find the eraser inactive.  So the points within reach along the
    path are removed from the record, whose flag [labeled] stays as it was,
    and nothing tells the auto-save: the dirty flag, the timeout and the
    saves made are those from before the sweep. *)
Theorem shift_release_leaves_erasure_unsaved (r : Renderer) (down : Pointer)
    (moves later : list Pointer) (seg : SegmentLabels) (xs : list num) :
  let s := state r in
  let id := segmentId s in
  let r1 := run (EMouseDown down :: (EMouseMove <$> moves)) r in
  let r2 := run (EShiftUp :: (EMouseMove <$> later) ++ [EMouseUp]) r1 in
  fileData s = true -> labels s !! id = Some seg ->
  onModebar down = false ->
  Forall (fun ev => shiftKey ev = true) (down :: moves) ->
  Forall2 (fun ev x => pointerIndex s ev = Some x) (down :: moves) xs ->
  exists li',
    (forall T, points li' T
               = List.filter (farFromAll xs) (points (label_indexes seg) T)) /\
    labels (state r2) = <[id := set_label_indexes li' seg]> (labels s) /\
    eraserActive (state r2) = false /\
    labelsDirty (state r2) = labelsDirty s /\
    autoSaveTimeout (state r2) = autoSaveTimeout s /\
    timers r2 = timers r /\
    saveCalls r2 = saveCalls r.
Proof.
  intros s id r1 r2 Hfile Hseg Hbar Hshift Hxs.
  apply Forall_cons in Hshift as [Hdown Hshift].
  apply Forall2_cons_inv_l in Hxs as (x & xs' & Hx & Hxs' & ->).
  set (r0 := on_state (fun s => set_eraserModified false (set_eraserActive true s)) r).
  set (ra := step (EMouseDown down) r).
  assert (ra = eraseAtPositionNoUpdate down r0) as Hra0.
  { unfold ra. simpl. unfold handleEraserMouseDown. by rewrite Hdown, Hbar. }
  assert (ra = eraseAt x r0) as Hra.
  { rewrite Hra0. by apply pointerIndex_erase. }
  assert (labels (state r0) !! segmentId (state r0) = Some seg) as Hseg0 by done.
  destruct (eraseAt_spec r0 x seg Hseg0) as (Hid & Hl & Hm).
  destruct (eraseAt_frame x r0) as (Hf & Hmeta & Ha & Hd & _ & Hsc).
  rewrite <- Hra in Hid, Hl, Hm, Hf, Hmeta, Ha, Hd, Hsc.
  destruct (eraseAtPositionNoUpdate_timers down r0) as [Ht Hto].
  rewrite <- Hra0 in Ht, Hto.
  destruct (moves_erase moves xs' ra (fst (eraseNear seg x)))
    as (li' & H1 & H2 & H3 & H4 & H5 & H6).
  { by rewrite Hf. }
  { by rewrite Ha. }
  { rewrite Hid, Hl. apply lookup_insert_eq. }
  { done. }
  { eapply Forall2_impl; [exact Hxs'|]. intros ev' x' <-.
    by apply pointerIndex_metadata. }
  destruct (shift_moves_timers moves ra Hshift) as [Ht1 Hto1].
  change (run (EMouseMove <$> moves) ra) with r1 in H1, H3, H4, H5, H6, Ht1, Hto1.
  destruct (eraseNear_spec seg x) as (Hp & _ & Hfst).
  assert (r2 = on_state (set_eraserActive false) r1) as ->.
  { unfold r2.
    change (run (EShiftUp :: (EMouseMove <$> later) ++ [EMouseUp]) r1)
      with (run ((EMouseMove <$> later) ++ [EMouseUp])
              (on_state (set_eraserActive false) r1)).
    by apply inactive_moves. }
  exists li'. split; [|split; [|split; [|split; [|split; [|split]]]]].
  - intros T. by rewrite H2, filter_farFromAll_cons, Hp.
  - change (labels (state (on_state (set_eraserActive false) r1)))
      with (labels (state r1)).
    rewrite H1, Hid, Hl. change (segmentId (state r0)) with id.
    change (labels (state r0)) with (labels s).
    rewrite insert_insert_eq. f_equal. by rewrite Hfst.
  - done.
  - change (labelsDirty (state r1) = labelsDirty s). by rewrite H5, Hd.
  - change (autoSaveTimeout (state r1) = autoSaveTimeout s). by rewrite Hto1, Hto.
  - change (timers r1 = timers r). by rewrite Ht1, Ht.
  - change (saveCalls r1 = saveCalls r). by rewrite H6, Hsc.
Qed.

(** The record of segment 0 holds the points 10, 30 and 50 of one type and
    14 of another and is not labeled.  A sweep over the samples 10, 20 and 50
    that ends with the release of Shift leaves the point 30 in a record that
    is still not labeled, and clean labels. *)
Lemma shift_release_leaves_erasure_unsaved_witness :
  let seg := mkSegmentLabels false false
               (mkLabelIndexes [Int 10; Int 30; Int 50] [Int 14] [] []) "" "" None in
  let r := openSession {[ "0" := seg ]} in
  let r2 := run (EShiftUp :: (EMouseMove <$> [pointerAt false 130]) ++ [EMouseUp])
              (run (EMouseDown (pointerAt true 105)
                    :: (EMouseMove <$> [pointerAt true 110; pointerAt true 125])) r) in
  labels (state r2) !! "0"
  = Some (mkSegmentLabels false false (mkLabelIndexes [Int 30] [] [] []) "" "" None) /\
  labelsDirty (state r2) = false.
Proof.
  intros seg r r2.
  pose proof (shift_release_leaves_erasure_unsaved r (pointerAt true 105)
                [pointerAt true 110; pointerAt true 125] [pointerAt false 130] seg
                [Int 10; Int 20; Int 50]) as H.
  cbv zeta in H. fold r2 in H.
  assert (segmentId (state r) = "0") as Hid by (by vm_compute).
  assert (labelsDirty (state r) = false) as Hdirty by (by vm_compute).
  rewrite Hid, Hdirty in H.
  destruct H as (li' & Hp & Hl & _ & Hd & _).
  - by vm_compute.
  - by vm_compute.
  - reflexivity.
  - repeat constructor.
  - repeat constructor; by vm_compute.
  - split; [|exact Hd].
    rewrite Hl, lookup_insert_eq. f_equal.
    assert (li' = mkLabelIndexes [Int 30] [] [] []) as ->; [|done].
    apply LabelIndexes_ext. intros T. rewrite Hp. by destruct T; vm_compute.
Defined.
